(** * neural-galerkin: the Bezier tensor-product basis and the random-safe dataset

    A shallow embedding of [torch_spsr/bases/bezier_tensor.py] and of
    [dataset/base.py], and the properties of the basis evaluator, of the two
    cross-scale integrators, of the dataset's item fetch and of the
    collation of batches.

    Numbers.  Tensor entries are modelled as rationals ([Q], compared with
    [==]): every finite floating-point value is a rational.  Two things a
    floating-point type does are kept apart:

    - the sums and products that decide which table entry an integrator
      reads are rounded as the type of the tensor rounds them (a [dtype],
      [Tensor.rnd]): next to a tie of [round] the rounding of an addition
      changes the index;
    - the values themselves (the kernel's polynomials, the table entries
      and their products) are computed exactly: the code's values differ
      from them in the last digits, as long as nothing overflows.  What
      the kernel returns once a polynomial overflows is the subject of
      [IEEE], an embedding of the two kernel functions in IEEE 754
      arithmetic, and the properties of the exact kernel that depend on it
      are stated for entries in [no_overflow].

    Python integers are [Z]; [.long()] is taken on values that fit a 64-bit
    integer, where it is the identity on integral values. *)

From stdpp Require Import base option list gmap.
From Stdlib Require Import ZArith QArith Qround Qabs Qminmax Lia Lqa.
From Stdlib Require Ascii String DecimalString SpecFloat.

Local Open Scope Z_scope.

(* ===================================================================== *)
(** * Python: exceptions, results, indexing and integer arithmetic        *)
(* ===================================================================== *)

Module Py.

(** The exception classes the two files can raise or catch.  All of them
    but [KeyboardInterrupt] derive from [Exception]. *)
Inductive exn : Type :=
| AssertionError
| IndexError
| ValueError
| ZeroDivisionError
| ConnectionAbortedError
| NotImplementedError
| RuntimeError
| RecursionError
| KeyboardInterrupt.

Definition exn_eqb (a b : exn) : bool :=
  match a, b with
  | AssertionError, AssertionError
  | IndexError, IndexError
  | ValueError, ValueError
  | ZeroDivisionError, ZeroDivisionError
  | ConnectionAbortedError, ConnectionAbortedError
  | NotImplementedError, NotImplementedError
  | RuntimeError, RuntimeError
  | RecursionError, RecursionError
  | KeyboardInterrupt, KeyboardInterrupt => true
  | _, _ => false
  end.

(** [isinstance(e, Exception)]. *)
Definition is_Exception (e : exn) : bool :=
  match e with
  | KeyboardInterrupt => false
  | _ => true
  end.

(** A call either returns a value or raises. *)
Inductive result (A : Type) : Type :=
| Ok (a : A)
| Raise (e : exn).
Global Arguments Ok {A} a.
Global Arguments Raise {A} e.

Definition bind {A B} (r : result A) (k : A -> result B) : result B :=
  match r with
  | Ok a => k a
  | Raise e => Raise e
  end.

(** [assert c]. *)
Definition assert_ (c : bool) : result unit :=
  if c then Ok tt else Raise AssertionError.

(** Running [f] over a list, left to right, stopping at the first raise. *)
Fixpoint mapM {A B} (f : A -> result B) (l : list A) : result (list B) :=
  match l with
  | [] => Ok []
  | a :: l' =>
      bind (f a) (fun b => bind (mapM f l') (fun bs => Ok (b :: bs)))
  end.

(** [l[i]] on a Python list and [t[i]] on a one-dimensional tensor: a
    negative index counts from the end, and an index outside
    [[-len, len)] raises [IndexError]. *)
Definition getitem {A} (l : list A) (i : Z) : result A :=
  let n := Z.of_nat (length l) in
  let j := if i <? 0 then i + n else i in
  if (0 <=? j) && (j <? n) then
    match l !! Z.to_nat j with
    | Some a => Ok a
    | None => Raise IndexError
    end
  else Raise IndexError.

(** [a // b] on integers: the quotient rounded towards minus infinity. *)
Definition floordiv (a b : Z) : result Z :=
  if b =? 0 then Raise ZeroDivisionError else Ok (a / b).

(** [a / b] on integers: the quotient as a number. *)
Definition truediv (a b : Z) : result Q :=
  if b =? 0 then Raise ZeroDivisionError
  else Ok (inject_Z a / inject_Z b)%Q.

(** [int(math.log2(m))] on an integer [m]: a domain error below 1, and
    the integer part of the logarithm otherwise.  The double that
    [math.log2] returns is the exact logarithm of a power of two; for
    another [m] its integer part is the one below as long as [m] is not
    within a relative [2^-47] of the next power of two. *)
Definition int_log2 (m : Z) : result Z :=
  if m <=? 0 then Raise ValueError else Ok (Z.log2 m).

End Py.

Export Py.

Notation "'let!' x ':=' c1 'in' c2" := (Py.bind c1 (fun x => c2))
  (at level 10, x name, c1 at level 100, c2 at level 200,
   format "'[v' 'let!'  x  :=  c1  'in' '/' c2 ']'").

(* ===================================================================== *)
(** * Tensors of shape (N,) and (N, 3)                                    *)
(* ===================================================================== *)

Module Tensor.

(** A row of a tensor of shape (N, 3). *)
Record V3 (A : Type) : Type := mkV3 { c0 : A; c1 : A; c2 : A }.
Global Arguments mkV3 {A} c0 c1 c2.
Global Arguments c0 {A} v.
Global Arguments c1 {A} v.
Global Arguments c2 {A} v.

Definition v3map {A B} (f : A -> B) (v : V3 A) : V3 B :=
  mkV3 (f (c0 v)) (f (c1 v)) (f (c2 v)).

Definition v3zip {A B C} (f : A -> B -> C) (u : V3 A) (v : V3 B) : V3 C :=
  mkV3 (f (c0 u) (c0 v)) (f (c1 u) (c1 v)) (f (c2 u) (c2 v)).

(** [t[..., k]]: a column of a tensor of shape (N, 3). *)
Definition col0 {A} (t : list (V3 A)) : list A := c0 <$> t.
Definition col1 {A} (t : list (V3 A)) : list A := c1 <$> t.
Definition col2 {A} (t : list (V3 A)) : list A := c2 <$> t.

(** Elementwise operations on an (N, 3) tensor. *)
Definition emap {A B} (f : A -> B) (t : list (V3 A)) : list (V3 B) :=
  v3map f <$> t.

(** Elementwise product and sum of two tensors of shape (N,). *)
Definition tmul (a b : list Q) : list Q := zip_with Qmult a b.
Definition tadd (a b : list Q) : list Q := zip_with Qplus a b.

(** Elementwise product of two tensors of shape (N,) and (M,) under the
    broadcasting rule: the sizes agree, or one of them is 1. *)
Definition bmul (a b : list Q) : result (list Q) :=
  if (length a =? length b)%nat then Ok (zip_with Qmult a b)
  else match a, b with
       | [x], _ => Ok (Qmult x <$> b)
       | _, [y] => Ok ((fun x => Qmult x y) <$> a)
       | _, _ => Raise RuntimeError
       end.

(** [torch.stack([a, b, c], dim=1)]. *)
Definition stack3 (a b c : list Q) : list (V3 Q) :=
  zip_with (fun x yz => mkV3 x (fst yz) (snd yz)) a (zip b c).

(** A boolean mask entry used as a number. *)
Definition b2q (m : bool) : Q := if m then 1%Q else 0%Q.

(** [x < y] and [x >= y] on numbers. *)
Definition Qltb (x y : Q) : bool := negb (Qle_bool y x).
Definition Qgeb (x y : Q) : bool := Qle_bool y x.

(** [torch.round]: to the nearest integer, a tie to the even one. *)
Definition round (q : Q) : Z :=
  let f := Qfloor q in
  match Qcompare (q - inject_Z f) (1 # 2) with
  | Lt => f
  | Gt => f + 1
  | Eq => if Z.even f then f else f + 1
  end.

(** *** Floating-point types

    The type of a tensor decides how its operations round.  A type is
    given by [rnd]: the number of the type nearest to a number, the same
    however the number is written.  [a + b] and [a * b] on entries of a
    tensor of the type are the roundings of the exact sum and product, and
    a Python number that meets the tensor in an operation is converted to
    the type first.  The infinities and the NaN of a type are no numbers
    of this model. *)
Class dtype : Type := mkDtype {
  rnd : Q -> Q;
  rnd_comp : forall q q' : Q, (q == q')%Q -> (rnd q == rnd q')%Q
}.

Definition fadd {dt : dtype} (a b : Q) : Q := rnd (a + b)%Q.
Definition fmul {dt : dtype} (a b : Q) : Q := rnd (a * b)%Q.
Definition of_number {dt : dtype} (c : Q) : Q := rnd c.

(** [2^e], for an exponent of either sign. *)
Definition pow2 (e : Z) : Q :=
  if 0 <=? e then inject_Z (2 ^ e) else (1 / inject_Z (2 ^ (- e)))%Q.

(** The exponent [e] with [2^e <= q < 2^(e+1)], for a positive [q]: the
    difference of the two logarithms, or one below it. *)
Definition exponent (q : Q) : Z :=
  let k := Z.log2 (Qnum q) - Z.log2 (Zpos (Qden q)) in
  if Qle_bool (pow2 k) q then k else k - 1.

(** The nearest multiple of the unit in the last place of [q], a tie to
    the even one, in a binary format of [prec] bits whose smallest
    positive number is [2^emin]. *)
Definition nearest (prec emin : Z) (q : Q) : Q :=
  if Qeq_bool q 0 then 0%Q
  else
    let e := Z.max (exponent (Qabs q) - (prec - 1)) emin in
    (inject_Z (round (q / pow2 e)) * pow2 e)%Q.

(** [torch.float32], the default type of torch: 24 bits, from [2^-149].
    The upper end of the range is left out: beyond the largest number of
    the type torch has an infinity, and what [.long()] makes of it is not
    defined. *)
Definition float32 : dtype.
Proof.
  refine {| rnd := fun q => nearest 24 (-149) (Qred q) |}.
  intros q q' E. rewrite (Qred_complete q q' E). reflexivity.
Defined.

(** [t.clamp_(min=lo, max=hi)] on one entry; when [lo > hi] the result
    is [hi]. *)
Definition clamp (lo hi i : Z) : Z := Z.min (Z.max i lo) hi.

(** [t[idx]] for a one-dimensional tensor [t] and an index tensor of
    shape (N, 3): every entry is looked up as [Py.getitem] does, and one
    entry out of bounds fails the whole lookup. *)
Definition index (t : list Q) (idx : list (V3 Z)) : result (list (V3 Q)) :=
  mapM (fun i =>
          let! a := getitem t (c0 i) in
          let! b := getitem t (c1 i) in
          let! c := getitem t (c2 i) in
          Ok (mkV3 a b c)) idx.

(** [t[mask] = 0.0] for a mask of the shape of [t]. *)
Definition zero_where (t : list (V3 Q)) (mask : list (V3 bool)) : list (V3 Q) :=
  zip_with (v3zip (fun x (m : bool) => if m then 0%Q else x)) t mask.

End Tensor.

Export Tensor.

(* ===================================================================== *)
(** * torch_spsr/bases/bezier_tensor.py                                   *)
(* ===================================================================== *)

Module BezierTensorBasis.

Local Open Scope Q_scope.

(** The class constants that [_initialize_constants] unpickles from
    [data/bezier_integrals.pkl], in the order of the assignment.  The file
    is not part of the sources: the tables are a parameter of the
    integrators. *)
Record integrals : Type := mkIntegrals {
  PARTIAL_INTEGRAL : list (list Q);
  DERIVATIVE_PARTIAL_INTEGRAL : list (list Q);
  INV_PARTIAL_INTEGRAL : list (list Q);
  INV_DERIVATIVE_PARTIAL_INTEGRAL : list (list Q);
  SHIFTED_SELF_INTEGRAL : list (list Q);
  SHIFTED_DERIVATIVE_INTEGRAL : list (list Q);
  SHIFTED_SELF_DERIV_INTEGRAL : list (list Q);
  INV_SHIFTED_SELF_DERIV_INTEGRAL : list (list Q)
}.

(** [evaluate_single], on one entry of the tensor. *)
Definition evaluate_single (x : Q) : Q :=
  let b1 := (x + 1.5) ^ 2 in
  let b2 := -2 * (x ^ 2) + 1.5 in
  let b3 := (x - 1.5) ^ 2 in
  let m1 := Qgeb x (-1.5) && Qltb x (-0.5) in
  let m2 := Qgeb x (-0.5) && Qltb x 0.5 in
  let m3 := Qgeb x 0.5 && Qltb x 1.5 in
  b2q m1 * b1 + b2q m2 * b2 + b2q m3 * b3.

(** [evaluate_derivative_single], on one entry of the tensor. *)
Definition evaluate_derivative_single (x : Q) : Q :=
  let b1 := 2 * x + 3 in
  let b2 := -4 * x in
  let b3 := 2 * x - 3 in
  let m1 := Qgeb x (-1.5) && Qltb x (-0.5) in
  let m2 := Qgeb x (-0.5) && Qltb x 0.5 in
  let m3 := Qgeb x 0.5 && Qltb x 1.5 in
  b2q m1 * b1 + b2q m2 * b2 + b2q m3 * b3.

(** [evaluate]: [feat] and [feat_ids] are not read. *)
Definition evaluate (feat : list (list Q)) (xyz : list (V3 Q))
    (feat_ids : list Z) : list Q :=
  let x := col0 xyz in
  let y := col1 xyz in
  let z := col2 xyz in
  let bx := evaluate_single <$> x in
  let by_ := evaluate_single <$> y in
  let bz := evaluate_single <$> z in
  tmul (tmul bx by_) bz.

(** [evaluate_derivative]. *)
Definition evaluate_derivative (feat : list (list Q)) (xyz : list (V3 Q))
    (feat_ids : list Z) (stride : Z) : list (V3 Q) :=
  let x := col0 xyz in
  let y := col1 xyz in
  let z := col2 xyz in
  let bx := evaluate_single <$> x in
  let by_ := evaluate_single <$> y in
  let bz := evaluate_single <$> z in
  let dx := (fun v => evaluate_derivative_single v / inject_Z stride) <$> x in
  let dy := (fun v => evaluate_derivative_single v / inject_Z stride) <$> y in
  let dz := (fun v => evaluate_derivative_single v / inject_Z stride) <$> z in
  stack3 (tmul (tmul dx by_) bz) (tmul (tmul bx dy) bz) (tmul (tmul bx by_) dz).

(** [integrate_deriv_deriv_product], on a [rel_pos] of type [dt]. *)
Definition integrate_deriv_deriv_product {dt : dtype} (T : integrals)
    (rel_pos : list (V3 Q)) (source_stride target_stride : Z)
    : result (list Q) :=
  let! _ := assert_ (source_stride <=? target_stride)%Z in
  let! mult := floordiv target_stride source_stride in
  let abs_val :=
    emap (fun r => round (fadd (fadd r (of_number (inject_Z (mult * 3) / 2)))
                               (of_number 0.5))) rel_pos in
  let! mult := int_log2 mult in
  let! row := getitem (SHIFTED_SELF_INTEGRAL T) mult in
  let len := Z.of_nat (length row) in
  let invalid_range_val :=
    emap (fun i => negb ((0 <=? i)%Z && (i <? len)%Z)) abs_val in
  let abs_val := emap (clamp 0 (len - 1)) abs_val in
  let! looked := index row abs_val in
  let const_val := emap (fun v => v * inject_Z source_stride) looked in
  let const_val := zero_where const_val invalid_range_val in
  let! drow := getitem (SHIFTED_DERIVATIVE_INTEGRAL T) mult in
  let! dlooked := index drow abs_val in
  let integral_val := emap (fun v => v / inject_Z target_stride) dlooked in
  let integral_val := zero_where integral_val invalid_range_val in
  let res :=
    tadd (tadd
      (tmul (tmul (col0 integral_val) (col1 const_val)) (col2 const_val))
      (tmul (tmul (col0 const_val) (col1 integral_val)) (col2 const_val)))
      (tmul (tmul (col0 const_val) (col1 const_val)) (col2 integral_val)) in
  Ok res.

(** What the two branches of [integrate_const_deriv_product] leave to the
    code below them. *)
Record branch : Type := mkBranch {
  br_abs_val : list (V3 Z);
  br_dpi : list Q;
  br_pi : list Q;
  br_data_stride : Z;
  br_target_stride : Z;
  br_i_mult : Q
}.

(** The [if]/[else] of [integrate_const_deriv_product], on a [rel_pos] of
    type [dt]. *)
Definition const_deriv_branch {dt : dtype} (T : integrals)
    (rel_pos : list (V3 Q)) (data_stride target_stride : Z) : result branch :=
  if (target_stride >=? data_stride)%Z then
    let! mult := floordiv target_stride data_stride in
    let abs_val :=
      emap (fun r => round (fadd r (of_number (inject_Z (3 * mult - 1) / 2))))
           rel_pos in
    let! mult := int_log2 mult in
    let! dpi := getitem (DERIVATIVE_PARTIAL_INTEGRAL T) mult in
    let! pi := getitem (PARTIAL_INTEGRAL T) mult in
    let! i_mult := truediv data_stride target_stride in
    Ok (mkBranch abs_val dpi pi data_stride target_stride i_mult)
  else
    let! mult := floordiv data_stride target_stride in
    let abs_val :=
      emap (fun r => round (fadd (fadd (fmul r (of_number (inject_Z mult)))
                                       (of_number (inject_Z mult / 2)))
                                 (of_number 0.5)))
           rel_pos in
    let! lg := int_log2 mult in
    let mult := (lg - 1)%Z in
    let! dpi := getitem (INV_DERIVATIVE_PARTIAL_INTEGRAL T) mult in
    let! pi := getitem (INV_PARTIAL_INTEGRAL T) mult in
    Ok (mkBranch abs_val dpi pi target_stride data_stride 1).

(** [integrate_const_deriv_product]: [data] has three columns. *)
Definition integrate_const_deriv_product {dt : dtype} (T : integrals)
    (data rel_pos : list (V3 Q)) (data_stride target_stride : Z)
    : result (list Q) :=
  let! br := const_deriv_branch T rel_pos data_stride target_stride in
  let abs_val := br_abs_val br in
  let! looked := index (br_dpi br) abs_val in
  let const_val := emap (fun v => v * inject_Z (br_data_stride br)) looked in
  let! plooked := index (br_pi br) abs_val in
  let integral_val := emap (fun v => v * br_i_mult br) plooked in
  let! t0 := bmul (col0 data) (col0 integral_val) in
  let! t0 := bmul t0 (col1 const_val) in
  let! t0 := bmul t0 (col2 const_val) in
  let! t1 := bmul (col1 data) (col0 const_val) in
  let! t1 := bmul t1 (col1 integral_val) in
  let! t1 := bmul t1 (col2 const_val) in
  let! t2 := bmul (col2 data) (col0 const_val) in
  let! t2 := bmul t2 (col1 const_val) in
  let! t2 := bmul t2 (col2 integral_val) in
  Ok (tadd (tadd t0 t1) t2).

(** [initialize_feature_value]: nothing is done. *)
Definition initialize_feature_value (feat : list (list Q)) : unit := tt.

End BezierTensorBasis.

Export BezierTensorBasis.

(* ===================================================================== *)
(** * The two kernel functions in IEEE 754 arithmetic                     *)
(* ===================================================================== *)

Module IEEE.

Import Stdlib.Floats.SpecFloat.

(** A binary format: the bits of precision and the exponent of the
    infinities.  [torch.float16], [torch.float32] and [torch.float64]. *)
Record format : Type := mkFormat { prec : Z; emax : Z }.

Definition binary16 : format := mkFormat 11 16.
Definition binary32 : format := mkFormat 24 128.
Definition binary64 : format := mkFormat 53 1024.

Section Kernel.

Variable f : format.

(** The entry of a tensor of the format made from the number
    [m * 2^e], and a Python number of that value as an operand. *)
Definition number (m e : Z) : spec_float :=
  binary_normalize (prec f) (emax f) m e false.

Definition add (x y : spec_float) : spec_float := SFadd (prec f) (emax f) x y.
Definition sub (x y : spec_float) : spec_float := SFsub (prec f) (emax f) x y.
Definition mul (x y : spec_float) : spec_float := SFmul (prec f) (emax f) x y.

(** [x >= y] and [x < y]: false when an operand is NaN. *)
Definition geb (x y : spec_float) : bool := SFleb y x.
Definition ltb (x y : spec_float) : bool := SFltb x y.

(** The number a finite entry stands for; 0 for the others. *)
Definition value (x : spec_float) : Q :=
  match x with
  | S754_finite s m e =>
      (inject_Z (if s then Zneg m else Zpos m) * pow2 e)%Q
  | _ => 0%Q
  end.

(** A mask entry as an operand of a product: 1 or 0. *)
Definition of_bool (m : bool) : spec_float :=
  if m then number 1 0 else S754_zero false.

(** [evaluate_single], on one entry; [y ** 2] is the product [y * y]. *)
Definition evaluate_single (x : spec_float) : spec_float :=
  let b1 := mul (add x (number 3 (-1))) (add x (number 3 (-1))) in
  let b2 := add (mul (number (-2) 0) (mul x x)) (number 3 (-1)) in
  let b3 := mul (sub x (number 3 (-1))) (sub x (number 3 (-1))) in
  let m1 := geb x (number (-3) (-1)) && ltb x (number (-1) (-1)) in
  let m2 := geb x (number (-1) (-1)) && ltb x (number 1 (-1)) in
  let m3 := geb x (number 1 (-1)) && ltb x (number 3 (-1)) in
  add (add (mul (of_bool m1) b1) (mul (of_bool m2) b2)) (mul (of_bool m3) b3).

(** [evaluate_derivative_single], on one entry. *)
Definition evaluate_derivative_single (x : spec_float) : spec_float :=
  let b1 := add (mul (number 2 0) x) (number 3 0) in
  let b2 := mul (number (-4) 0) x in
  let b3 := sub (mul (number 2 0) x) (number 3 0) in
  let m1 := geb x (number (-3) (-1)) && ltb x (number (-1) (-1)) in
  let m2 := geb x (number (-1) (-1)) && ltb x (number 1 (-1)) in
  let m3 := geb x (number 1 (-1)) && ltb x (number 3 (-1)) in
  add (add (mul (of_bool m1) b1) (mul (of_bool m2) b2)) (mul (of_bool m3) b3).

End Kernel.

End IEEE.

(* ===================================================================== *)
(** * dataset/base.py                                                     *)
(* ===================================================================== *)

Module Dataset.

Import Stdlib.Strings.Ascii Stdlib.Strings.String.

(** [json.dumps] of a tuple of three integers with the separators
    [(',', ':')]. *)
Definition json_int (z : Z) : String.string :=
  DecimalString.NilZero.string_of_int (Z.to_int z).

Definition json_dumps (data : Z * Z * Z) : String.string :=
  let '(a, b, c) := data in
  String.append "["%string
    (String.append (json_int a)
       (String.append ","%string
          (String.append (json_int b)
             (String.append ","%string
                (String.append (json_int c) "]"%string))))).

(** [zlib.adler32] of a byte string. *)
Definition adler32 (bytes : list Z) : Z :=
  let '(a, b) :=
    fold_left (fun (ab : Z * Z) (x : Z) =>
                 let a' := (fst ab + x) mod 65521 in
                 (a', (snd ab + a') mod 65521))
              bytes (1, 0) in
  b * 65536 + a.

(** [deterministic_hash], on the tuples [get_rng] gives it. *)
Definition deterministic_hash (data : Z * Z * Z) : Z :=
  let jval := json_dumps data in
  adler32 ((fun c => Z.of_nat (Ascii.nat_of_ascii c))
             <$> String.list_ascii_of_string jval).

(** The attributes [__init__] sets; [_read_count] is the manager's
    dictionary, present when [_is_val] is false. *)
Record dataset : Type := mkDataset {
  _seed : Z;
  _is_val : bool;
  skip_on_error : bool;
  _read_count : gmap Z Z
}.

Definition set_read_count (self : dataset) (rc : gmap Z Z) : dataset :=
  mkDataset (_seed self) (_is_val self) (skip_on_error self) rc.

Section RandomSafeDataset.

(** What a subclass and numpy provide: the samples, [_get_item] (it
    may draw from the generator it is given), [__len__], the state of
    a [RandomState], its seeding and the draw of [randint(lo, hi)] for
    [lo < hi]. *)
Variable sample : Type.
Variable rng : Type.
Variable seed_rng : Z -> rng.
Variable draw : rng -> Z -> Z -> Z * rng.
Variable _get_item : Z -> rng -> result sample * rng.
Variable len : Z.

(** [RandomState(seed)]: the seed is between 0 and 2**32 - 1. *)
Definition RandomState (seed : Z) : result rng :=
  if (0 <=? seed) && (seed <? 2 ^ 32) then Ok (seed_rng seed)
  else Raise ValueError.

(** [rng.randint(lo, hi)]: a value of [[lo, hi)]; [lo >= hi] is a
    [ValueError]. *)
Definition randint (r : rng) (lo hi : Z) : result Z * rng :=
  if lo <? hi then (Ok (fst (draw r lo hi)), snd (draw r lo hi))
  else (Raise ValueError, r).

(** [get_rng]. *)
Definition get_rng (self : dataset) (idx : Z) : result rng * dataset :=
  if _is_val self then (RandomState (_seed self), self)
  else
    let rc :=
      match _read_count self !! idx with
      | None => <[idx := 0]> (_read_count self)
      | Some _ => _read_count self
      end in
    let count := default 0 (rc !! idx) in
    match RandomState (deterministic_hash (idx, count, _seed self)) with
    | Raise e => (Raise e, set_read_count self rc)
    | Ok r => (Ok r, set_read_count self (<[idx := count + 1]> rc))
    end.

(** [__getitem__]; [depth] is the number of frames the interpreter's
    recursion limit still allows.  The call of [__getitem__] in a handler
    is outside the [try], so what it returns or raises is the outcome; the
    warning that is printed is not part of the model. *)
Fixpoint __getitem__ (depth : nat) (self : dataset) (data_id : Z)
    : result sample * dataset :=
  match depth with
  | O => (Raise RecursionError, self)
  | S depth' =>
      let retry (self : dataset) (r : rng) :=
        match randint r 0 (len - 1) with
        | (Ok other, _) => __getitem__ depth' self other
        | (Raise e, _) => (Raise e, self)
        end in
      match get_rng self data_id with
      | (Raise e, self) => (Raise e, self)
      | (Ok r, self) =>
          let '(res, r) := _get_item data_id r in
          match res with
          | Ok s => (Ok s, self)
          | Raise e =>
              if skip_on_error self then
                if exn_eqb e ConnectionAbortedError then retry self r
                else if is_Exception e then retry self r
                else (Raise e, self)
              else
                if exn_eqb e ConnectionAbortedError then retry self r
                else (Raise e, self)
          end
      end
  end.

End RandomSafeDataset.

End Dataset.

(* ===================================================================== *)
(** * Notions the properties are stated with                              *)
(* ===================================================================== *)

Module Notions.

Local Open Scope Q_scope.

(** [d] is the derivative of [f] at [x]: the difference quotient is as
    close to [d] as wanted for every small enough non-zero step. *)
Definition derivative_at (f : Q -> Q) (x d : Q) : Prop :=
  forall eps, 0 < eps ->
  exists delta, 0 < delta /\
    forall h, ~ h == 0 -> Qabs h < delta ->
      Qabs ((f (x + h) - f x) / h - d) < eps.

(** An entry on which no polynomial of the kernel overflows, whatever the
    floating-point type of the tensor: the squares of [x + 1.5] and
    [x - 1.5] and [2 * x^2 + 1.5] stay below 65504, the largest number of
    [torch.float16], the narrowest of the types. *)
Definition no_overflow (x : Q) : Prop := Qabs x <= 128.

(** A positive power of two. *)
Definition is_pow2 (n : Z) : bool :=
  ((0 <? n) && (n =? 2 ^ Z.log2 n))%Z.

(** [tab[level]] is there, for a level that is not negative. *)
Definition has_level (tab : list (list Q)) (level : Z) : bool :=
  ((0 <=? level) && (level <? Z.of_nat (length tab)))%Z.

(** [len(tab[level])] and [tab[level][idx]], for a level and an index
    that the table has. *)
Definition row_len (tab : list (list Q)) (level : Z) : Z :=
  Z.of_nat (length (nth (Z.to_nat level) tab [])).

Definition entry (tab : list (list Q)) (level idx : Z) : Q :=
  nth (Z.to_nat idx) (nth (Z.to_nat level) tab []) 0.

(** The entry that [row[i]] reads when [i] is in [[-len, len)]: a
    negative [i] counts from the end. *)
Definition wrapped (row : list Q) (i : Z) : Q :=
  nth (Z.to_nat (if (i <? 0)%Z then (i + Z.of_nat (length row))%Z else i))
      row 0.

(** The indices of a row of an index tensor are all in [[-len, len)]. *)
Definition in_bounds (n : nat) (v : V3 Z) : Prop :=
  (- Z.of_nat n <= c0 v < Z.of_nat n)%Z /\
  (- Z.of_nat n <= c1 v < Z.of_nat n)%Z /\
  (- Z.of_nat n <= c2 v < Z.of_nat n)%Z.

(** *** The gradient-gradient integral, in the words of its description

    The sums and the product of an index are those of the type [dt] of
    [rel_pos], the terms and the value are exact. *)

Definition gg_mult (source_stride target_stride : Z) : Z :=
  (target_stride / source_stride)%Z.

Definition gg_level (source_stride target_stride : Z) : Z :=
  Z.log2 (gg_mult source_stride target_stride).

Definition gg_idx {dt : dtype} (source_stride target_stride : Z) (r : Q)
    : Z :=
  round (fadd (fadd r (of_number
                 (inject_Z (gg_mult source_stride target_stride) * 1.5)))
              (of_number 0.5)).

Definition gg_in_range {dt : dtype} (T : integrals) (s t : Z) (r : Q) : bool :=
  ((0 <=? gg_idx s t r)
   && (gg_idx s t r <? row_len (SHIFTED_SELF_INTEGRAL T) (gg_level s t)))%Z.

Definition gg_plain {dt : dtype} (T : integrals) (s t : Z) (r : Q) : Q :=
  entry (SHIFTED_SELF_INTEGRAL T) (gg_level s t) (gg_idx s t r)
  * inject_Z s.

Definition gg_deriv {dt : dtype} (T : integrals) (s t : Z) (r : Q) : Q :=
  entry (SHIFTED_DERIVATIVE_INTEGRAL T) (gg_level s t) (gg_idx s t r)
  / inject_Z t.

Definition gg_value {dt : dtype} (T : integrals) (s t : Z) (p : V3 Q) : Q :=
  gg_deriv T s t (c0 p) * gg_plain T s t (c1 p) * gg_plain T s t (c2 p)
  + gg_plain T s t (c0 p) * gg_deriv T s t (c1 p) * gg_plain T s t (c2 p)
  + gg_plain T s t (c0 p) * gg_plain T s t (c1 p) * gg_deriv T s t (c2 p).

(** The two shifted tables have a row at the level, the row of the
    self-integrals is not empty and the row of the derivative integrals is
    at least as long: the integrator clamps with the length of the
    former and reads both. *)
Definition shifted_rows_ok (T : integrals) (level : Z) : bool :=
  has_level (SHIFTED_SELF_INTEGRAL T) level
  && has_level (SHIFTED_DERIVATIVE_INTEGRAL T) level
  && ((0 <? row_len (SHIFTED_SELF_INTEGRAL T) level)
      && (row_len (SHIFTED_SELF_INTEGRAL T) level
          <=? row_len (SHIFTED_DERIVATIVE_INTEGRAL T) level))%Z.

(** What one axis contributes under the validity mask: the plain and the
    derivative term, both 0 for an index out of the row. *)
Definition gg_masked_plain {dt : dtype} (T : integrals) (s t : Z) (r : Q) : Q :=
  if gg_in_range T s t r then gg_plain T s t r else 0.

Definition gg_masked_deriv {dt : dtype} (T : integrals) (s t : Z) (r : Q) : Q :=
  if gg_in_range T s t r then gg_deriv T s t r else 0.

Definition gg_masked_value {dt : dtype}
    (T : integrals) (s t : Z) (p : V3 Q) : Q :=
  gg_masked_deriv T s t (c0 p) * gg_masked_plain T s t (c1 p)
    * gg_masked_plain T s t (c2 p)
  + gg_masked_plain T s t (c0 p) * gg_masked_deriv T s t (c1 p)
    * gg_masked_plain T s t (c2 p)
  + gg_masked_plain T s t (c0 p) * gg_masked_plain T s t (c1 p)
    * gg_masked_deriv T s t (c2 p).

(** *** The constant-gradient integral, in the words of its description *)

Definition forward (data_stride target_stride : Z) : bool :=
  (target_stride >=? data_stride)%Z.

Definition cg_mult (ds ts : Z) : Z :=
  if forward ds ts then (ts / ds)%Z else (ds / ts)%Z.

Definition cg_level (ds ts : Z) : Z :=
  if forward ds ts then Z.log2 (cg_mult ds ts)
  else (Z.log2 (cg_mult ds ts) - 1)%Z.

Definition cg_idx {dt : dtype} (ds ts : Z) (r : Q) : Z :=
  if forward ds ts then
    round (fadd r (of_number ((3 * inject_Z (cg_mult ds ts) - 1) / 2)))
  else
    round (fadd (fadd (fmul r (of_number (inject_Z (cg_mult ds ts))))
                      (of_number (inject_Z (cg_mult ds ts) / 2)))
                (of_number 0.5)).

Definition cg_plain_table (T : integrals) (ds ts : Z) : list (list Q) :=
  if forward ds ts then DERIVATIVE_PARTIAL_INTEGRAL T
  else INV_DERIVATIVE_PARTIAL_INTEGRAL T.

Definition cg_deriv_table (T : integrals) (ds ts : Z) : list (list Q) :=
  if forward ds ts then PARTIAL_INTEGRAL T else INV_PARTIAL_INTEGRAL T.

Definition cg_plain {dt : dtype} (T : integrals) (ds ts : Z) (r : Q) : Q :=
  entry (cg_plain_table T ds ts) (cg_level ds ts) (cg_idx ds ts r)
  * (if forward ds ts then inject_Z ds else inject_Z ts).

Definition cg_deriv {dt : dtype} (T : integrals) (ds ts : Z) (r : Q) : Q :=
  entry (cg_deriv_table T ds ts) (cg_level ds ts) (cg_idx ds ts r)
  * (if forward ds ts then inject_Z ds / inject_Z ts else 1).

Definition cg_value {dt : dtype} (T : integrals) (ds ts : Z) (d p : V3 Q) : Q :=
  c0 d * cg_deriv T ds ts (c0 p)
    * (cg_plain T ds ts (c1 p) * cg_plain T ds ts (c2 p))
  + c1 d * cg_deriv T ds ts (c1 p)
    * (cg_plain T ds ts (c0 p) * cg_plain T ds ts (c2 p))
  + c2 d * cg_deriv T ds ts (c2 p)
    * (cg_plain T ds ts (c0 p) * cg_plain T ds ts (c1 p)).

(** The index of an axis is in the row of both tables of the branch. *)
Definition cg_in_range {dt : dtype}
    (T : integrals) (ds ts : Z) (r : Q) : bool :=
  ((0 <=? cg_idx ds ts r)
   && (cg_idx ds ts r <? row_len (cg_plain_table T ds ts) (cg_level ds ts))
   && (cg_idx ds ts r <? row_len (cg_deriv_table T ds ts) (cg_level ds ts)))%Z.

Definition v3all (f : Q -> bool) (p : V3 Q) : bool :=
  f (c0 p) && f (c1 p) && f (c2 p).

(** The two tables of the branch have a row at the level. *)
Definition cg_rows_ok (T : integrals) (ds ts : Z) : bool :=
  has_level (cg_plain_table T ds ts) (cg_level ds ts)
  && has_level (cg_deriv_table T ds ts) (cg_level ds ts).

Definition cg_plain_row (T : integrals) (ds ts : Z) : list Q :=
  nth (Z.to_nat (cg_level ds ts)) (cg_plain_table T ds ts) [].

Definition cg_deriv_row (T : integrals) (ds ts : Z) : list Q :=
  nth (Z.to_nat (cg_level ds ts)) (cg_deriv_table T ds ts) [].

(** The terms and the value with the entries as the lookup reads them,
    a negative index counting from the end of the row. *)
Definition cg_wrapped_plain {dt : dtype}
    (T : integrals) (ds ts : Z) (r : Q) : Q :=
  wrapped (cg_plain_row T ds ts) (cg_idx ds ts r)
  * inject_Z (if forward ds ts then ds else ts).

Definition cg_wrapped_deriv {dt : dtype}
    (T : integrals) (ds ts : Z) (r : Q) : Q :=
  wrapped (cg_deriv_row T ds ts) (cg_idx ds ts r)
  * (if forward ds ts then inject_Z ds / inject_Z ts else 1).

Definition cg_wrapped_value {dt : dtype}
    (T : integrals) (ds ts : Z) (d p : V3 Q) : Q :=
  c0 d * cg_wrapped_deriv T ds ts (c0 p) * cg_wrapped_plain T ds ts (c1 p)
    * cg_wrapped_plain T ds ts (c2 p)
  + c1 d * cg_wrapped_plain T ds ts (c0 p) * cg_wrapped_deriv T ds ts (c1 p)
    * cg_wrapped_plain T ds ts (c2 p)
  + c2 d * cg_wrapped_plain T ds ts (c0 p) * cg_wrapped_plain T ds ts (c1 p)
    * cg_wrapped_deriv T ds ts (c2 p).

(** The index tensor of a batch. *)
Definition cg_indices {dt : dtype}
    (ds ts : Z) (rel_pos : list (V3 Q)) : list (V3 Z) :=
  emap (cg_idx ds ts) rel_pos.

(** *** The type of the closed instances

    Where an instance names no type, [rel_pos] is a [torch.float32]
    tensor. *)
#[export] Existing Instance float32.

(** *** A table for the closed instances

    The pickle the package ships is not in the source tree; the entries
    below are arbitrary and only their positions matter. *)
Definition sample_integrals : integrals :=
  {| PARTIAL_INTEGRAL := [[1; 2; 3]; [4; 5; 6; 7; 8; 9]];
     DERIVATIVE_PARTIAL_INTEGRAL := [[10; 20; 30]; [40; 50; 60; 70; 80; 90]];
     INV_PARTIAL_INTEGRAL := [[1; 3; 5; 7]; [2; 4; 6; 8; 10; 12; 14; 16]];
     INV_DERIVATIVE_PARTIAL_INTEGRAL :=
       [[11; 13; 15; 17]; [12; 14; 16; 18; 20; 22; 24; 26]];
     SHIFTED_SELF_INTEGRAL := [[1; 2; 3; 2; 1]; [1; 2; 3; 4; 4; 3; 2; 1]];
     SHIFTED_DERIVATIVE_INTEGRAL :=
       [[-1; -2; 6; -2; -1]; [-1; -2; -3; 6; 6; -3; -2; -1]];
     SHIFTED_SELF_DERIV_INTEGRAL := [];
     INV_SHIFTED_SELF_DERIV_INTEGRAL := [] |}.

(** *** A dataset for the closed instances

    Three items; fetching item 0 fails, with the error given; the
    generator state is a counter. *)
Definition demo_draw (r : Z) (lo hi : Z) : Z * Z :=
  ((lo + (r + 1) mod (hi - lo))%Z, (r + 1)%Z).

Definition demo_get_item (e : exn) (data_id : Z) (r : Z)
    : result Z * Z :=
  if (data_id =? 0)%Z then (Raise e, r) else (Ok (100 + data_id)%Z, r).

Definition demo_dataset (skip : bool) : Dataset.dataset :=
  Dataset.mkDataset 7 false skip ∅.

Definition demo_getitem (e : exn) (skip : bool) (data_id : Z)
    : result Z * Dataset.dataset :=
  Dataset.__getitem__ Z Z (fun seed => seed) demo_draw (demo_get_item e) 3
    10 (demo_dataset skip) data_id.

End Notions.

Export Notions.

(* ===================================================================== *)
(** * Transformations of batches and conditions on datasets              *)
(* ===================================================================== *)

Module Transforms.

Local Open Scope Q_scope.

(** Two permutations of the axes of a row; they generate all six. *)
Definition swap01 {A} (p : V3 A) : V3 A := mkV3 (c1 p) (c0 p) (c2 p).
Definition rot {A} (p : V3 A) : V3 A := mkV3 (c1 p) (c2 p) (c0 p).

(** The tensor [c * d1 + d2] of two (N, 3) tensors. *)
Definition axpy (c : Q) (d1 d2 : list (V3 Q)) : list (V3 Q) :=
  zip_with (v3zip (fun x y => c * x + y)) d1 d2.

(** The value [evaluate] gives for one point. *)
Definition value_at (feat : list (list Q)) (feat_ids : list Z) (q : V3 Q) : Q :=
  default 0 (evaluate feat [q] feat_ids !! 0%nat).

(** The exceptions of [_get_item] that [__getitem__] answers with the
    fetch of another index: [ConnectionAbortedError] always, the other
    subclasses of [Exception] when [skip_on_error] is set. *)
Definition retried (self : Dataset.dataset) (e : exn) : bool :=
  exn_eqb e ConnectionAbortedError
  || (Dataset.skip_on_error self && is_Exception e).

(** [get_rng] can seed a generator: the dataset is in training mode, where
    the seed is a hash, or its own seed is one [RandomState] accepts. *)
Definition seeded (self : Dataset.dataset) : Prop :=
  Dataset._is_val self = false \/ (0 <= Dataset._seed self < 2 ^ 32)%Z.

End Transforms.

Export Transforms.

(* ===================================================================== *)
(** * dataset/base.py: list_collate                                       *)
(* ===================================================================== *)

Module Collate.

(** The exceptions [list_collate] ends in: the [TypeError] and the
    [KeyError] of subscripts, lengths and iterations, the [StopIteration]
    of [next], and the classes of [Py.exn]. *)
Inductive error : Type :=
| TypeError
| KeyError
| StopIteration
| Builtin (e : exn).

Inductive outcome (A : Type) : Type :=
| Return (a : A)
| Throw (e : error).
Global Arguments Return {A} a.
Global Arguments Throw {A} e.

Definition and_then {A B} (r : outcome A) (k : A -> outcome B) : outcome B :=
  match r with
  | Return a => k a
  | Throw e => Throw e
  end.

Notation "'let?' x ':=' c1 'in' c2" := (and_then c1 (fun x => c2))
  (at level 10, x name, c1 at level 100, c2 at level 200,
   format "'[v' 'let?'  x  :=  c1  'in' '/' c2 ']'").

(** A comprehension: the items in turn, up to the first that raises. *)
Fixpoint each {A B} (f : A -> outcome B) (l : list A) : outcome (list B) :=
  match l with
  | [] => Return []
  | a :: l' =>
      let? b := f a in
      let? bs := each f l' in
      Return (b :: bs)
  end.

(** [m[key]] on the entries of a mapping. *)
Definition assoc {V} (key : String.string) (m : list (String.string * V))
    : option V :=
  snd <$> find (fun kv => String.eqb (fst kv) key) m.

(** The two sequence classes of the batches: a [list], and the [tuple]s
    that [zip] makes. *)
Inductive kind : Type :=
| PyList
| PyTuple.

Section ListCollate.

(** The objects of torch and numpy, and the other objects, are opaque:
    tensors, arrays ([ndarray], [memmap]), numpy scalars (of shape [()]),
    the other numpy objects, and the objects of any other class. *)
Variable tensor : Type.
Variable ndarray : Type.
Variable npscalar : Type.
Variable npobject : Type.
Variable object : Type.

(** The values a batch holds.  A mapping has string keys, each once; a
    sequence is a list or a tuple, and two sequences are equal when they
    are of the same class and hold equal items; [VNpStr] is a
    [numpy.str_], which is a [str]; [bool] counts as [int], as in Python.
    [VNpObject] stands for the numpy objects that are neither arrays nor
    scalars, and [VObject] for the objects that are none of the classes
    [list_collate] tests. *)
#[warnings="-register-all"] Inductive value : Type :=
| VNone
| VTensor (t : tensor)
| VNdarray (a : ndarray)
| VNpScalar (x : npscalar)
| VNpStr (s : String.string)
| VNpObject (o : npobject)
| VFloat (q : Q)
| VInt (z : Z)
| VStr (s : String.string)
| VMap (m : list (String.string * value))
| VSeq (k : kind) (l : list value)
| VObject (o : object).

(** What the libraries do: [torch.as_tensor(x)], [torch.tensor(x)],
    [torch.tensor(x, dtype=torch.float64)], and the subscript [x[key]],
    the length and the iteration of an opaque object (all its items, or
    the exception it raises). *)
Variable as_tensor : value -> outcome tensor.
Variable torch_tensor : value -> outcome tensor.
Variable torch_tensor_float64 : value -> outcome tensor.
Variable opaque_getitem : value -> String.string -> outcome value.
Variable opaque_len : value -> outcome nat.
Variable opaque_iter : value -> outcome (list value).

(** [d[key]] for a string [key]. *)
Definition subscript (d : value) (key : String.string) : outcome value :=
  match d with
  | VMap m =>
      match assoc key m with
      | Some v => Return v
      | None => Throw KeyError
      end
  | VNone | VFloat _ | VInt _ | VStr _ | VNpStr _ | VSeq _ _ =>
      Throw TypeError
  | VTensor _ | VNdarray _ | VNpScalar _ | VNpObject _ | VObject _ =>
      opaque_getitem d key
  end.

(** [len(x)]. *)
Definition len (x : value) : outcome nat :=
  match x with
  | VSeq _ l => Return (length l)
  | VStr s | VNpStr s => Return (String.length s)
  | VMap m => Return (length m)
  | VNone | VFloat _ | VInt _ => Throw TypeError
  | VTensor _ | VNdarray _ | VNpScalar _ | VNpObject _ | VObject _ =>
      opaque_len x
  end.

(** The items [iter(x)] yields. *)
Definition items (x : value) : outcome (list value) :=
  match x with
  | VSeq _ l => Return l
  | VStr s | VNpStr s =>
      Return ((fun c => VStr (String.String c String.EmptyString))
                <$> String.list_ascii_of_string s)
  | VMap m => Return ((fun kv => VStr (fst kv)) <$> m)
  | VNone | VFloat _ | VInt _ => Throw TypeError
  | VTensor _ | VNdarray _ | VNpScalar _ | VNpObject _ | VObject _ =>
      opaque_iter x
  end.

(** The loop that looks for the first element that is not [None]. *)
Fixpoint first_not_none (batch : list value) : value :=
  match batch with
  | [] => VNone
  | VNone :: rest => first_not_none rest
  | e :: _ => e
  end.

(** [all(len(elem) == elem_size for elem in it)], and the [RuntimeError]
    raised when it is false. *)
Fixpoint check_sizes (elem_size : nat) (rest : list value) : outcome unit :=
  match rest with
  | [] => Return tt
  | x :: rest' =>
      let? n := len x in
      if (n =? elem_size)%nat then check_sizes elem_size rest'
      else Throw (Builtin RuntimeError)
  end.

(** [zip] of the rows: the tuples of the items at the same position, as
    many as the shortest row has; none without rows. *)
Definition shortest (rows : list (list value)) : nat :=
  match rows with
  | [] => 0%nat
  | r :: rs => foldr (fun x acc => Nat.min (length x) acc) (length r) rs
  end.

Definition zip_star (rows : list (list value)) : list (list value) :=
  (fun j => omap (fun r => r !! j) rows) <$> seq 0 (shortest rows).

(** [list_collate] on a batch of class [k] holding the items [batch];
    [depth] is the number of frames the recursion limit still allows.
    [return batch] gives the batch back, of its own class; a
    comprehension makes a list, and [zip] makes tuples. *)
Fixpoint list_collate (depth : nat) (k : kind) (batch : list value)
    : outcome value :=
  match depth with
  | O => Throw (Builtin RecursionError)
  | S depth' =>
      let elem := first_not_none batch in
      match elem with
      | VTensor _ => Return (VSeq k batch)
      | VNdarray _ =>
          let? converted :=
            each (fun b => match b with
                           | VNone => Return VNone
                           | _ => let? t := as_tensor b in Return (VTensor t)
                           end) batch in
          list_collate depth' PyList converted
      | VNpScalar _ =>
          let? t := as_tensor (VSeq k batch) in Return (VTensor t)
      | VFloat _ =>
          let? t := torch_tensor_float64 (VSeq k batch) in Return (VTensor t)
      | VInt _ =>
          let? t := torch_tensor (VSeq k batch) in Return (VTensor t)
      | VStr _ | VNpStr _ => Return (VSeq k batch)
      | VMap m =>
          let? collated :=
            each (fun kv =>
                    let key := fst kv in
                    let? column := each (fun d => subscript d key) batch in
                    let? v := list_collate depth' PyList column in
                    Return (key, v)) m in
          Return (VMap collated)
      | VSeq _ _ =>
          match batch with
          | [] => Throw StopIteration
          | first :: rest =>
              let? elem_size := len first in
              let? _ := check_sizes elem_size rest in
              let? rows := each items batch in
              let? columns :=
                each (list_collate depth' PyTuple) (zip_star rows) in
              Return (VSeq PyList columns)
          end
      | VNone | VNpObject _ | VObject _ => Return (VSeq k batch)
      end
  end.

(** Batches of tensors, for the statements: sequences, each of its own
    class; sequences of tensors; the tuples of tensors that [zip] makes;
    the entries of a mapping of tensors; an optional array; and the
    transposition of rows of length [m]. *)
Definition sequences (rows : list (kind * list value)) : list value :=
  (fun r => VSeq (fst r) (snd r)) <$> rows.

Definition tensor_rows (rows : list (kind * list tensor)) : list value :=
  (fun r => VSeq (fst r) (VTensor <$> snd r)) <$> rows.

Definition tensor_tuples (rows : list (list tensor)) : list value :=
  (fun r => VSeq PyTuple (VTensor <$> r)) <$> rows.

Definition tensor_entries (m : list (String.string * tensor))
    : list (String.string * value) :=
  (fun kv => (fst kv, VTensor (snd kv))) <$> m.

Definition tensor_maps (maps : list (list (String.string * tensor)))
    : list value :=
  (fun m => VMap (tensor_entries m)) <$> maps.

Definition optional_array (o : option ndarray) : value :=
  match o with
  | None => VNone
  | Some a => VNdarray a
  end.

Definition optional_tensor (conv : ndarray -> tensor) (o : option ndarray)
    : value :=
  match o with
  | None => VNone
  | Some a => VTensor (conv a)
  end.

Definition transpose {A} (m : nat) (rows : list (list A)) : list (list A) :=
  (fun j => omap (fun r => r !! j) rows) <$> seq 0 m.

End ListCollate.

(** A stand-in for the libraries, for closed instances: tensors and arrays
    are integers, [torch.as_tensor] of an array keeps the integer, and
    everything else is refused with a [TypeError]. *)
Definition demo_value : Type := value Z Z unit unit unit.

Definition demo_as_tensor (v : demo_value) : outcome Z :=
  match v with
  | VNdarray _ _ _ _ _ a => Return a
  | _ => Throw TypeError
  end.

Definition demo_refuse {A} (v : demo_value) : outcome A := Throw TypeError.

Definition demo_collate (depth : nat) (k : kind) (batch : list demo_value)
    : outcome demo_value :=
  list_collate Z Z unit unit unit demo_as_tensor demo_refuse demo_refuse
    (fun _ _ => Throw TypeError) demo_refuse demo_refuse depth k batch.

End Collate.

(* ===================================================================== *)
(** * Properties                                                          *)
(* ===================================================================== *)

Local Open Scope Q_scope.

(** ** Comparisons and masks *)

Lemma Qgeb_true (x y : Q) : Qgeb x y = true <-> y <= x.
Proof. unfold Qgeb. apply Qle_bool_iff. Qed.

Lemma Qgeb_false (x y : Q) : Qgeb x y = false <-> x < y.
Proof.
  unfold Qgeb. split; intros H.
  - apply Qnot_le_lt. intros Hle. apply Qle_bool_iff in Hle. congruence.
  - destruct (Qle_bool y x) eqn:E; [|reflexivity].
    apply Qle_bool_iff in E. lra.
Qed.

Lemma Qltb_true (x y : Q) : Qltb x y = true <-> x < y.
Proof.
  unfold Qltb. rewrite negb_true_iff. apply (Qgeb_false x y).
Qed.

Lemma Qltb_false (x y : Q) : Qltb x y = false <-> y <= x.
Proof.
  unfold Qltb. rewrite negb_false_iff. apply (Qgeb_true x y).
Qed.

Lemma Qsquare (x : Q) : x ^ 2 == x * x.
Proof. reflexivity. Qed.

(** Every comparison of the goal is decided both ways and turned into an
    order fact. *)
Ltac split_masks :=
  repeat match goal with
    | |- context [Qgeb ?a ?b] =>
        let E := fresh "E" in
        destruct (Qgeb a b) eqn:E;
        [apply Qgeb_true in E | apply Qgeb_false in E]
    | |- context [Qltb ?a ?b] =>
        let E := fresh "E" in
        destruct (Qltb a b) eqn:E;
        [apply Qltb_true in E | apply Qltb_false in E]
    end.

Ltac kernel_cases :=
  split_masks; cbn [andb b2q]; rewrite ?Qsquare; try lra; try ring.

(** The three pieces and the zero outside, for the value and for the
    derivative. *)
Lemma evaluate_single_piece1 (x : Q) :
  -1.5 <= x -> x < -0.5 -> evaluate_single x == (x + 1.5) ^ 2.
Proof. intros H1 H2. unfold evaluate_single. kernel_cases. Qed.

Lemma evaluate_single_piece2 (x : Q) :
  -0.5 <= x -> x < 0.5 -> evaluate_single x == -2 * x ^ 2 + 1.5.
Proof. intros H1 H2. unfold evaluate_single. kernel_cases. Qed.

Lemma evaluate_single_piece3 (x : Q) :
  0.5 <= x -> x < 1.5 -> evaluate_single x == (x - 1.5) ^ 2.
Proof. intros H1 H2. unfold evaluate_single. kernel_cases. Qed.

Lemma evaluate_single_outside (x : Q) :
  x < -1.5 \/ 1.5 <= x -> evaluate_single x == 0.
Proof. intros [H|H]; unfold evaluate_single; kernel_cases. Qed.

Lemma evaluate_derivative_single_piece1 (x : Q) :
  -1.5 <= x -> x < -0.5 -> evaluate_derivative_single x == 2 * x + 3.
Proof. intros H1 H2. unfold evaluate_derivative_single. kernel_cases. Qed.

Lemma evaluate_derivative_single_piece2 (x : Q) :
  -0.5 <= x -> x < 0.5 -> evaluate_derivative_single x == -4 * x.
Proof. intros H1 H2. unfold evaluate_derivative_single. kernel_cases. Qed.

Lemma evaluate_derivative_single_piece3 (x : Q) :
  0.5 <= x -> x < 1.5 -> evaluate_derivative_single x == 2 * x - 3.
Proof. intros H1 H2. unfold evaluate_derivative_single. kernel_cases. Qed.

Lemma evaluate_derivative_single_outside (x : Q) :
  x < -1.5 \/ 1.5 <= x -> evaluate_derivative_single x == 0.
Proof. intros [H|H]; unfold evaluate_derivative_single; kernel_cases. Qed.

(** ** The basis evaluator *)

(** In exact arithmetic [evaluate_single x] is [(x+1.5)^2] on
    [[-1.5,-0.5)], [-2x^2+1.5] on [[-0.5,0.5)], [(x-1.5)^2] on [[0.5,1.5)]
    and 0 elsewhere, every piece owning its left endpoint and not its
    right one; this is what the code computes, up to the rounding of the
    value, on the entries where nothing overflows. *)
Lemma evaluate_single_piecewise (x : Q) :
  no_overflow x ->
  (-1.5 <= x /\ x < -0.5 -> evaluate_single x == (x + 1.5) ^ 2) /\
  (-0.5 <= x /\ x < 0.5 -> evaluate_single x == -2 * x ^ 2 + 1.5) /\
  (0.5 <= x /\ x < 1.5 -> evaluate_single x == (x - 1.5) ^ 2) /\
  (x < -1.5 \/ 1.5 <= x -> evaluate_single x == 0) /\
  (1.5 <= Qabs x -> evaluate_single x == 0).
Proof.
  intros _. repeat split.
  - intros [H1 H2]. now apply evaluate_single_piece1.
  - intros [H1 H2]. now apply evaluate_single_piece2.
  - intros [H1 H2]. now apply evaluate_single_piece3.
  - apply evaluate_single_outside.
  - intros H. destruct (Qlt_le_dec x 0) as [Hneg|Hpos].
    + rewrite Qabs_neg in H by lra.
      destruct (Qeq_dec x (-1.5)) as [E|E].
      * rewrite evaluate_single_piece1 by lra.
        rewrite E. reflexivity.
      * apply evaluate_single_outside. left. lra.
    + rewrite Qabs_pos in H by lra.
      apply evaluate_single_outside. now right.
Qed.

(** A function whose difference quotient at [x] is off [d] by [c * h], for
    every step [h] that stays in an open interval around [x], has the
    derivative [d] at [x]. *)
Lemma derivative_at_quadratic (f : Q -> Q) (x d a b c : Q) :
  a < x -> x < b -> c == 1 \/ c == -2 ->
  (forall h, ~ h == 0 -> a < x + h -> x + h < b ->
     (f (x + h) - f x) / h - d == c * h) ->
  derivative_at f x d.
Proof.
  intros Ha Hb Hc Hq eps Heps.
  exists (Qmin (eps * 0.5) (Qmin (x - a) (b - x))). split.
  - repeat apply Q.min_glb_lt; lra.
  - intros h Hh Hlt.
    apply Qabs_Qlt_condition in Hlt. destruct Hlt as [Hlo Hhi].
    pose proof (Q.le_min_l (eps * 0.5) (Qmin (x - a) (b - x))) as M1.
    pose proof (Q.le_min_r (eps * 0.5) (Qmin (x - a) (b - x))) as M2.
    pose proof (Q.le_min_l (x - a) (b - x)) as M3.
    pose proof (Q.le_min_r (x - a) (b - x)) as M4.
    rewrite Hq by (try assumption; lra).
    apply Qabs_Qlt_condition.
    destruct Hc as [Hc|Hc]; rewrite Hc; lra.
Qed.

(** In exact arithmetic [evaluate_derivative_single x] is [2x+3] on
    [[-1.5,-0.5)], [-4x] on [[-0.5,0.5)], [2x-3] on [[0.5,1.5)] and 0
    elsewhere, on the partition of [evaluate_single]; inside each open
    interval it is the derivative of [evaluate_single]. *)
Lemma evaluate_derivative_single_piecewise (x : Q) :
  no_overflow x ->
  (-1.5 <= x /\ x < -0.5 -> evaluate_derivative_single x == 2 * x + 3) /\
  (-0.5 <= x /\ x < 0.5 -> evaluate_derivative_single x == -4 * x) /\
  (0.5 <= x /\ x < 1.5 -> evaluate_derivative_single x == 2 * x - 3) /\
  (x < -1.5 \/ 1.5 <= x -> evaluate_derivative_single x == 0) /\
  ((-1.5 < x /\ x < -0.5) \/ (-0.5 < x /\ x < 0.5) \/ (0.5 < x /\ x < 1.5) ->
   derivative_at evaluate_single x (evaluate_derivative_single x)).
Proof.
  intros _. repeat split.
  - intros [H1 H2]. now apply evaluate_derivative_single_piece1.
  - intros [H1 H2]. now apply evaluate_derivative_single_piece2.
  - intros [H1 H2]. now apply evaluate_derivative_single_piece3.
  - apply evaluate_derivative_single_outside.
  - intros [[H1 H2]|[[H1 H2]|[H1 H2]]].
    + apply (derivative_at_quadratic _ x _ (-1.5) (-0.5) 1);
        [assumption | assumption | now left |].
      intros h Hh Hlo Hhi.
      rewrite (evaluate_single_piece1 (x + h)) by lra.
      rewrite (evaluate_single_piece1 x) by lra.
      rewrite (evaluate_derivative_single_piece1 x) by lra.
      rewrite !Qsquare. field. exact Hh.
    + apply (derivative_at_quadratic _ x _ (-0.5) 0.5 (-2));
        [assumption | assumption | now right |].
      intros h Hh Hlo Hhi.
      rewrite (evaluate_single_piece2 (x + h)) by lra.
      rewrite (evaluate_single_piece2 x) by lra.
      rewrite (evaluate_derivative_single_piece2 x) by lra.
      rewrite !Qsquare. field. exact Hh.
    + apply (derivative_at_quadratic _ x _ 0.5 1.5 1);
        [assumption | assumption | now left |].
      intros h Hh Hlo Hhi.
      rewrite (evaluate_single_piece3 (x + h)) by lra.
      rewrite (evaluate_single_piece3 x) by lra.
      rewrite (evaluate_derivative_single_piece3 x) by lra.
      rewrite !Qsquare. field. exact Hh.
Qed.

(** ** The two models of [torch.float32] *)

(** [float32] rounds a number [m * 2^e] to the entry that the IEEE format
    makes of it: exactly when the number fits 24 bits, to the nearest
    entry and at a tie to the even one when it does not, down to the
    subnormal numbers. *)
Example float32_rounds_as_binary32 :
  Forall (fun me : Z * Z =>
            rnd (inject_Z (fst me) * pow2 (snd me))
            == IEEE.value (IEEE.number IEEE.binary32 (fst me) (snd me)))
    [(1, 0); (3, -1); (-3, -1); (5, -1); (16777215, 0); (16777217, 0);
     (16777219, 0); (-16777219, 0); (33554433, -25); (2 ^ 25 + 1, -24);
     (2 ^ 26 - 3, -26); (11184811, -25); (11184811, -150);
     (-11184811, -170); (3, -150); (5, -150); (1, -150); (10 ^ 20, 0)]%Z.
Proof. repeat constructor; vm_compute; reflexivity. Qed.

(** ** The kernel where a polynomial overflows *)

(** A sum with a NaN term is NaN. *)
Lemma add_nan_r (f : IEEE.format) (a : SpecFloat.spec_float) :
  IEEE.add f a SpecFloat.S754_nan = SpecFloat.S754_nan.
Proof. destruct a; reflexivity. Qed.

(** The mechanism: the masks are factors, not selections.  An entry at or
    beyond 1.5 has the third mask entry 0, and when the square of
    [x - 1.5] is infinite there the product of the two is NaN, and so is
    the value returned, for every format. *)
Lemma evaluate_single_masked_infinity (f : IEEE.format)
    (x : SpecFloat.spec_float) (s : bool) :
  IEEE.ltb x (IEEE.number f 3 (-1)) = false ->
  IEEE.mul f (IEEE.sub f x (IEEE.number f 3 (-1)))
             (IEEE.sub f x (IEEE.number f 3 (-1)))
  = SpecFloat.S754_infinity s ->
  IEEE.evaluate_single f x = SpecFloat.S754_nan.
Proof.
  intros Hlt Hinf. unfold IEEE.evaluate_single.
  rewrite Hlt, Hinf, andb_false_r.
  change (IEEE.mul f (IEEE.of_bool f false) (SpecFloat.S754_infinity s))
    with SpecFloat.S754_nan.
  apply add_nan_r.
Qed.

(** C4 fails on the code, against the class comment: at [1e20] in
    [torch.float32], at [1e200] in [torch.float64] and at [300] in
    [torch.float16], entries that are at least 1.5, the value returned is
    NaN and not 0. *)
Theorem evaluate_single_overflow :
  let x32 := IEEE.number IEEE.binary32 (10 ^ 20) 0 in
  let x64 := IEEE.number IEEE.binary64 (10 ^ 200) 0 in
  let x16 := IEEE.number IEEE.binary16 300 0 in
  (IEEE.geb x32 (IEEE.number IEEE.binary32 3 (-1)) = true /\
   IEEE.evaluate_single IEEE.binary32 x32 = SpecFloat.S754_nan) /\
  (IEEE.geb x64 (IEEE.number IEEE.binary64 3 (-1)) = true /\
   IEEE.evaluate_single IEEE.binary64 x64 = SpecFloat.S754_nan) /\
  (IEEE.geb x16 (IEEE.number IEEE.binary16 3 (-1)) = true /\
   IEEE.evaluate_single IEEE.binary16 x16 = SpecFloat.S754_nan).
Proof.
  cbv zeta. repeat split; vm_compute; reflexivity.
Qed.

(** C5 fails on the code in the same way, by the same products of mask
    entries and polynomials: at [3e38] in [torch.float32], at [1e308] in
    [torch.float64] and at [30000] in [torch.float16], entries that are at
    least 1.5, [-4 * x] is infinite and the derivative returned is NaN and
    not 0. *)
Theorem evaluate_derivative_single_overflow :
  let x32 := IEEE.number IEEE.binary32 (3 * 10 ^ 38) 0 in
  let x64 := IEEE.number IEEE.binary64 (10 ^ 308) 0 in
  let x16 := IEEE.number IEEE.binary16 30000 0 in
  (IEEE.geb x32 (IEEE.number IEEE.binary32 3 (-1)) = true /\
   IEEE.mul IEEE.binary32 (IEEE.number IEEE.binary32 (-4) 0) x32
   = SpecFloat.S754_infinity true /\
   IEEE.evaluate_derivative_single IEEE.binary32 x32 = SpecFloat.S754_nan) /\
  (IEEE.geb x64 (IEEE.number IEEE.binary64 3 (-1)) = true /\
   IEEE.mul IEEE.binary64 (IEEE.number IEEE.binary64 (-4) 0) x64
   = SpecFloat.S754_infinity true /\
   IEEE.evaluate_derivative_single IEEE.binary64 x64 = SpecFloat.S754_nan) /\
  (IEEE.geb x16 (IEEE.number IEEE.binary16 3 (-1)) = true /\
   IEEE.mul IEEE.binary16 (IEEE.number IEEE.binary16 (-4) 0) x16
   = SpecFloat.S754_infinity true /\
   IEEE.evaluate_derivative_single IEEE.binary16 x16 = SpecFloat.S754_nan).
Proof.
  cbv zeta. repeat split; vm_compute; reflexivity.
Qed.

(** Inside the support, and at the bound of [no_overflow], the code's
    value is the exact one: 0.25 at 1, 1.375 at 0.25, and 0 at 128 and at
    -128 in the narrowest format. *)
Example evaluate_single_in_range :
  IEEE.evaluate_single IEEE.binary32 (IEEE.number IEEE.binary32 1 0)
  = IEEE.number IEEE.binary32 1 (-2) /\
  IEEE.evaluate_single IEEE.binary32 (IEEE.number IEEE.binary32 1 (-2))
  = IEEE.number IEEE.binary32 11 (-3) /\
  IEEE.evaluate_single IEEE.binary16 (IEEE.number IEEE.binary16 128 0)
  = SpecFloat.S754_zero false /\
  IEEE.evaluate_derivative_single IEEE.binary16
    (IEEE.number IEEE.binary16 (-128) 0)
  = SpecFloat.S754_zero false.
Proof. repeat split; vm_compute; reflexivity. Qed.

(** ** Entries of elementwise results *)

Lemma tmul_lookup (a b : list Q) (i : nat) (x y : Q) :
  a !! i = Some x -> b !! i = Some y -> tmul a b !! i = Some (x * y).
Proof.
  intros Ha Hb. unfold tmul. rewrite lookup_zip_with, Ha, Hb. reflexivity.
Qed.

Lemma tadd_lookup (a b : list Q) (i : nat) (x y : Q) :
  a !! i = Some x -> b !! i = Some y -> tadd a b !! i = Some (x + y).
Proof.
  intros Ha Hb. unfold tadd. rewrite lookup_zip_with, Ha, Hb. reflexivity.
Qed.

Lemma stack3_lookup (a b c : list Q) (i : nat) (x y z : Q) :
  a !! i = Some x -> b !! i = Some y -> c !! i = Some z ->
  stack3 a b c !! i = Some (mkV3 x y z).
Proof.
  intros Ha Hb Hc. unfold stack3.
  rewrite lookup_zip_with, Ha. cbn.
  rewrite lookup_zip_with, Hb, Hc. reflexivity.
Qed.

Lemma col_lookup {A} (t : list (V3 A)) (i : nat) (p : V3 A) :
  t !! i = Some p ->
  col0 t !! i = Some (c0 p) /\ col1 t !! i = Some (c1 p) /\
  col2 t !! i = Some (c2 p).
Proof.
  intros H. unfold col0, col1, col2.
  rewrite !list_lookup_fmap, H. auto.
Qed.

(** C6: [evaluate] is the product of the three per-axis kernel values, and
    component [i] of [evaluate_derivative], for a non-zero stride, is the
    kernel derivative along axis [i] over the stride, times the kernel
    values along the two other axes. *)
Theorem evaluate_separable (feat : list (list Q)) (xyz : list (V3 Q))
    (feat_ids : list Z) (stride : Z) (i : nat) (p : V3 Q) :
  stride <> 0%Z ->
  xyz !! i = Some p ->
  evaluate feat xyz feat_ids !! i =
    Some (evaluate_single (c0 p) * evaluate_single (c1 p)
          * evaluate_single (c2 p)) /\
  exists g : V3 Q,
    evaluate_derivative feat xyz feat_ids stride !! i = Some g /\
    c0 g == evaluate_derivative_single (c0 p) / inject_Z stride
            * (evaluate_single (c1 p) * evaluate_single (c2 p)) /\
    c1 g == evaluate_derivative_single (c1 p) / inject_Z stride
            * (evaluate_single (c0 p) * evaluate_single (c2 p)) /\
    c2 g == evaluate_derivative_single (c2 p) / inject_Z stride
            * (evaluate_single (c0 p) * evaluate_single (c1 p)).
Proof.
  intros _ Hp.
  destruct (col_lookup xyz i p Hp) as (Hx & Hy & Hz).
  split.
  - unfold evaluate.
    apply tmul_lookup; [apply tmul_lookup|];
      rewrite list_lookup_fmap; (rewrite Hx || rewrite Hy || rewrite Hz);
      reflexivity.
  - eexists. split.
    + unfold evaluate_derivative.
      apply stack3_lookup;
        (apply tmul_lookup; [apply tmul_lookup|]);
        rewrite list_lookup_fmap; (rewrite Hx || rewrite Hy || rewrite Hz);
        reflexivity.
    + cbn [c0 c1 c2]. repeat split; ring.
Qed.

Lemma evaluate_separable_witness :
  evaluate [] [mkV3 0 0.25 (-1)] [] !! 0%nat =
    Some (evaluate_single 0 * evaluate_single 0.25 * evaluate_single (-1)) /\
  exists g : V3 Q,
    evaluate_derivative [] [mkV3 0 0.25 (-1)] [] 2 !! 0%nat = Some g /\
    c0 g == evaluate_derivative_single 0 / inject_Z 2
            * (evaluate_single 0.25 * evaluate_single (-1)) /\
    c1 g == evaluate_derivative_single 0.25 / inject_Z 2
            * (evaluate_single 0 * evaluate_single (-1)) /\
    c2 g == evaluate_derivative_single (-1) / inject_Z 2
            * (evaluate_single 0 * evaluate_single 0.25).
Proof.
  apply (evaluate_separable [] [mkV3 0 0.25 (-1)] [] 2 0 (mkV3 0 0.25 (-1)));
    [lia | reflexivity].
Defined.

(** ** Results, lookups and indexing *)

Lemma round_comp (q q' : Q) : q == q' -> round q = round q'.
Proof.
  intros E. unfold round.
  rewrite (Qfloor_comp _ _ E).
  assert (E' : q - inject_Z (Qfloor q') == q' - inject_Z (Qfloor q'))
    by (rewrite E; reflexivity).
  rewrite (Qcompare_comp _ _ E' (1 # 2) (1 # 2) (Qeq_refl _)).
  reflexivity.
Qed.

Lemma getitem_wrapped (row : list Q) (i : Z) :
  (- Z.of_nat (length row) <= i < Z.of_nat (length row))%Z ->
  getitem row i = Ok (wrapped row i).
Proof.
  intros Hi. unfold getitem, wrapped.
  set (j := if (i <? 0)%Z then (i + Z.of_nat (length row))%Z else i).
  assert (Hj : (0 <= j < Z.of_nat (length row))%Z).
  { subst j. destruct (Z.ltb_spec i 0); lia. }
  destruct (Z.leb_spec 0 j); [|lia].
  destruct (Z.ltb_spec j (Z.of_nat (length row))); [|lia].
  cbn [andb].
  destruct (lookup_lt_is_Some_2 row (Z.to_nat j)) as [a Ha]; [lia|].
  rewrite Ha. f_equal. symmetry. now apply nth_lookup_Some.
Qed.

Lemma getitem_out_of_bounds {A} (l : list A) (i : Z) :
  (i < - Z.of_nat (length l) \/ Z.of_nat (length l) <= i)%Z ->
  getitem l i = Raise IndexError.
Proof.
  intros Hi. unfold getitem.
  destruct (Z.ltb_spec i 0);
    destruct (Z.leb_spec 0 (i + Z.of_nat (length l)));
    destruct (Z.leb_spec 0 i);
    destruct (Z.ltb_spec (i + Z.of_nat (length l)) (Z.of_nat (length l)));
    destruct (Z.ltb_spec i (Z.of_nat (length l)));
    cbn [andb]; try reflexivity; lia.
Qed.

Lemma getitem_level (tab : list (list Q)) (level : Z) :
  has_level tab level = true ->
  getitem tab level = Ok (nth (Z.to_nat level) tab []).
Proof.
  unfold has_level. intros H.
  apply andb_true_iff in H. destruct H as [H0 H1].
  apply Z.leb_le in H0. apply Z.ltb_lt in H1.
  unfold getitem.
  destruct (Z.ltb_spec level 0); [lia|].
  destruct (Z.leb_spec 0 level); [|lia].
  destruct (Z.ltb_spec level (Z.of_nat (length tab))); [|lia].
  cbn [andb].
  destruct (lookup_lt_is_Some_2 tab (Z.to_nat level)) as [a Ha]; [lia|].
  rewrite Ha. f_equal. symmetry. now apply nth_lookup_Some.
Qed.

Lemma getitem_level_missing (tab : list (list Q)) (level : Z) :
  (Z.of_nat (length tab) <= level)%Z ->
  getitem tab level = Raise IndexError.
Proof. intros H. apply getitem_out_of_bounds. now right. Qed.

Lemma mapM_ok {A B} (f : A -> result B) (g : A -> B) (l : list A) :
  Forall (fun a => f a = Ok (g a)) l -> mapM f l = Ok (g <$> l).
Proof.
  induction 1 as [|a l Ha _ IH]; [reflexivity|].
  cbn. rewrite Ha. cbn. rewrite IH. reflexivity.
Qed.

Lemma index_wrapped (row : list Q) (idx : list (V3 Z)) :
  Forall (in_bounds (length row)) idx ->
  index row idx = Ok (v3map (wrapped row) <$> idx).
Proof.
  intros H. unfold index. apply mapM_ok.
  eapply Forall_impl; [exact H|].
  intros v (H0 & H1 & H2). cbn beta.
  rewrite !getitem_wrapped by assumption. reflexivity.
Qed.

Lemma index_out_of_bounds (row : list Q) (idx : list (V3 Z)) :
  Exists (fun v => ~ in_bounds (length row) v) idx ->
  index row idx = Raise IndexError.
Proof.
  unfold index.
  induction idx as [|v idx IH]; intros H; [inversion H|].
  cbn [mapM].
  assert (D : forall i, getitem row i = Ok (wrapped row i)
                        \/ getitem row i = Raise IndexError).
  { intros i.
    destruct (Z_lt_dec i (- Z.of_nat (length row)));
      [right; apply getitem_out_of_bounds; lia|].
    destruct (Z_le_dec (Z.of_nat (length row)) i);
      [right; apply getitem_out_of_bounds; lia|].
    left. apply getitem_wrapped. lia. }
  destruct (D (c0 v)) as [E0|E0]; rewrite E0; [|reflexivity].
  destruct (D (c1 v)) as [E1|E1]; cbn [bind]; rewrite E1; [|reflexivity].
  destruct (D (c2 v)) as [E2|E2]; cbn [bind]; rewrite E2; [|reflexivity].
  cbn [bind].
  assert (Hv : in_bounds (length row) v).
  { assert (B : forall i, getitem row i = Ok (wrapped row i) ->
                 (- Z.of_nat (length row) <= i < Z.of_nat (length row))%Z).
    { intros i E.
      destruct (Z_lt_dec i (- Z.of_nat (length row))) as [L|L];
        [rewrite getitem_out_of_bounds in E by lia; discriminate|].
      destruct (Z_le_dec (Z.of_nat (length row)) i) as [G|G];
        [rewrite getitem_out_of_bounds in E by lia; discriminate|].
      lia. }
    repeat split; apply B; assumption. }
  inversion H as [? ? Hbad|? ? Htl]; subst; [contradiction|].
  rewrite (IH Htl). reflexivity.
Qed.

Lemma zip_with_fmap_same {A B C D} (f : B -> C -> D) (g : A -> B)
    (h : A -> C) (l : list A) :
  zip_with f (g <$> l) (h <$> l) = (fun x => f (g x) (h x)) <$> l.
Proof. induction l as [|a l IH]; [reflexivity|]. cbn. now rewrite IH. Qed.

(** ** The gradient-gradient integrator *)

Lemma gg_idx_code {dt : dtype} (s t : Z) (r : Q) :
  round (fadd (fadd r (of_number (inject_Z (t / s * 3) / 2))) (of_number 0.5))
  = gg_idx s t r.
Proof.
  unfold gg_idx, gg_mult, fadd, of_number.
  apply round_comp, rnd_comp, Qplus_comp; [|reflexivity].
  apply rnd_comp, Qplus_comp; [reflexivity|].
  apply rnd_comp. rewrite inject_Z_mult. field.
Qed.

Lemma clamp_id (n i : Z) :
  (0 <= i < n)%Z -> clamp 0 (n - 1) i = i.
Proof. unfold clamp. lia. Qed.

Lemma shifted_rows_ok_inv (T : integrals) (level : Z) :
  shifted_rows_ok T level = true ->
  has_level (SHIFTED_SELF_INTEGRAL T) level = true /\
  has_level (SHIFTED_DERIVATIVE_INTEGRAL T) level = true /\
  (0 < row_len (SHIFTED_SELF_INTEGRAL T) level
     <= row_len (SHIFTED_DERIVATIVE_INTEGRAL T) level)%Z.
Proof.
  unfold shifted_rows_ok.
  rewrite !andb_true_iff, Z.ltb_lt, Z.leb_le.
  intros [[HS HD] [H0 H1]]. auto.
Qed.

Lemma clamped_in_bounds (n : nat) (m : Z) (idx : list (V3 Z)) :
  (0 < m <= Z.of_nat n)%Z ->
  Forall (in_bounds n) (emap (clamp 0 (m - 1)) idx).
Proof.
  intros Hm. unfold emap. apply Forall_fmap, Forall_true.
  intros v. unfold in_bounds, v3map, clamp. cbn. lia.
Qed.

Lemma wrapped_nonneg (row : list Q) (i : Z) :
  (0 <= i)%Z -> wrapped row i = nth (Z.to_nat i) row 0.
Proof.
  intros H. unfold wrapped. destruct (Z.ltb_spec i 0); [lia|reflexivity].
Qed.

Lemma gg_masked_plain_code {dt : dtype} (T : integrals) (s t : Z) (r : Q) :
  (if negb ((0 <=? gg_idx s t r)%Z
            && (gg_idx s t r
                <? Z.of_nat (length (nth (Z.to_nat (gg_level s t))
                                         (SHIFTED_SELF_INTEGRAL T) [])))%Z)
   then 0
   else wrapped (nth (Z.to_nat (gg_level s t)) (SHIFTED_SELF_INTEGRAL T) [])
          (clamp 0
             (Z.of_nat (length (nth (Z.to_nat (gg_level s t))
                                    (SHIFTED_SELF_INTEGRAL T) [])) - 1)
             (gg_idx s t r))
        * inject_Z s)
  = gg_masked_plain T s t r.
Proof.
  unfold gg_masked_plain, gg_in_range, gg_plain, entry, row_len.
  destruct (Z.leb_spec 0 (gg_idx s t r));
    destruct (Z.ltb_spec (gg_idx s t r)
                (Z.of_nat (length (nth (Z.to_nat (gg_level s t))
                                       (SHIFTED_SELF_INTEGRAL T) []))));
    cbn [andb negb]; try reflexivity.
  rewrite clamp_id by lia. rewrite wrapped_nonneg by lia. reflexivity.
Qed.

Lemma gg_masked_deriv_code {dt : dtype} (T : integrals) (s t : Z) (r : Q) :
  (if negb ((0 <=? gg_idx s t r)%Z
            && (gg_idx s t r
                <? Z.of_nat (length (nth (Z.to_nat (gg_level s t))
                                         (SHIFTED_SELF_INTEGRAL T) [])))%Z)
   then 0
   else wrapped
          (nth (Z.to_nat (gg_level s t)) (SHIFTED_DERIVATIVE_INTEGRAL T) [])
          (clamp 0
             (Z.of_nat (length (nth (Z.to_nat (gg_level s t))
                                    (SHIFTED_SELF_INTEGRAL T) [])) - 1)
             (gg_idx s t r))
        / inject_Z t)
  = gg_masked_deriv T s t r.
Proof.
  unfold gg_masked_deriv, gg_in_range, gg_deriv, entry, row_len.
  destruct (Z.leb_spec 0 (gg_idx s t r));
    destruct (Z.ltb_spec (gg_idx s t r)
                (Z.of_nat (length (nth (Z.to_nat (gg_level s t))
                                       (SHIFTED_SELF_INTEGRAL T) []))));
    cbn [andb negb]; try reflexivity.
  rewrite clamp_id by lia. rewrite wrapped_nonneg by lia. reflexivity.
Qed.

(** With strides [0 < s <= t] and rows at the level, the call returns, and
    the entry of every query is the masked sum of products. *)
Lemma integrate_deriv_deriv_product_value {dt : dtype} (T : integrals)
    (rel_pos : list (V3 Q)) (s t : Z) :
  (0 < s <= t)%Z ->
  shifted_rows_ok T (gg_level s t) = true ->
  integrate_deriv_deriv_product T rel_pos s t
  = Ok (gg_masked_value T s t <$> rel_pos).
Proof.
  intros Hst Hrows.
  apply shifted_rows_ok_inv in Hrows. destruct Hrows as (HS & HD & Hlen).
  unfold integrate_deriv_deriv_product.
  assert (Hle : (s <=? t)%Z = true) by (apply Z.leb_le; lia).
  rewrite Hle. cbn [assert_ bind].
  unfold floordiv. destruct (Z.eqb_spec s 0) as [|_]; [lia|]. cbn [bind].
  assert (Hm : (1 <= t / s)%Z).
  { apply Z.div_le_lower_bound; lia. }
  unfold int_log2. destruct (Z.leb_spec (t / s) 0) as [|_]; [lia|].
  cbn [bind]. fold (gg_mult s t). fold (gg_level s t).
  rewrite (getitem_level _ _ HS). cbn [bind].
  unfold row_len in Hlen.
  rewrite index_wrapped by (apply clamped_in_bounds; lia). cbn [bind].
  rewrite (getitem_level _ _ HD). cbn [bind].
  rewrite index_wrapped by (apply clamped_in_bounds; lia). cbn [bind].
  f_equal.
  unfold tadd, tmul, col0, col1, col2, zero_where, emap.
  rewrite <- !list_fmap_compose.
  rewrite !zip_with_fmap_same.
  rewrite <- !list_fmap_compose.
  rewrite !zip_with_fmap_same.
  apply list_fmap_ext. intros i p _.
  unfold compose, gg_mult. cbn [v3zip v3map c0 c1 c2].
  rewrite !gg_idx_code.
  rewrite !gg_masked_plain_code, !gg_masked_deriv_code.
  reflexivity.
Qed.

Lemma is_pow2_inv (n : Z) :
  is_pow2 n = true -> (0 < n)%Z /\ n = (2 ^ Z.log2 n)%Z.
Proof.
  unfold is_pow2. rewrite andb_true_iff, Z.ltb_lt, Z.eqb_eq. tauto.
Qed.

(** For powers of two [s <= t], the quotient [t / s] is exact and a power
    of two, whose exponent is the level. *)
Lemma pow2_ratio (s t : Z) :
  is_pow2 s = true -> is_pow2 t = true -> (s <= t)%Z ->
  (gg_mult s t * s = t)%Z /\ (2 ^ gg_level s t = gg_mult s t)%Z.
Proof.
  intros Hs Ht Hst.
  apply is_pow2_inv in Hs. destruct Hs as [Hs0 Hs].
  apply is_pow2_inv in Ht. destruct Ht as [Ht0 Ht].
  pose proof (Z.log2_nonneg s) as Ha.
  pose proof (Z.log2_le_mono s t Hst) as Hab.
  unfold gg_level, gg_mult.
  assert (E : (t / s = 2 ^ (Z.log2 t - Z.log2 s))%Z).
  { rewrite Hs at 1. rewrite Ht at 1.
    rewrite Z.pow_sub_r by lia. reflexivity. }
  rewrite E. split.
  - rewrite Hs at 2. rewrite <- Z.pow_add_r by lia.
    replace (Z.log2 t - Z.log2 s + Z.log2 s)%Z with (Z.log2 t) by lia.
    now symmetry.
  - rewrite Z.log2_pow2 by lia. reflexivity.
Qed.

Lemma v3all_inv (f : Q -> bool) (p : V3 Q) :
  v3all f p = true ->
  f (c0 p) = true /\ f (c1 p) = true /\ f (c2 p) = true.
Proof. unfold v3all. rewrite !andb_true_iff. tauto. Qed.

Lemma gg_masked_value_in_range {dt : dtype}
    (T : integrals) (s t : Z) (p : V3 Q) :
  v3all (gg_in_range T s t) p = true ->
  gg_masked_value T s t p = gg_value T s t p.
Proof.
  intros H. apply v3all_inv in H. destruct H as (H0 & H1 & H2).
  unfold gg_masked_value, gg_masked_plain, gg_masked_deriv.
  rewrite H0, H1, H2. reflexivity.
Qed.

(** C1: for power-of-two strides [s <= t], with [mult = t / s],
    [level = log2 mult] and the index [round (r + mult * 1.5 + 0.5)] of
    every axis, the two sums taken in the type [dt] of [rel_pos], inside
    the row of [SHIFTED_SELF_INTEGRAL] at the level, the scalar returned
    for the query is the sum of the three products of one derivative term
    ([SHIFTED_DERIVATIVE_INTEGRAL[level][idx] / t]) and two plain terms
    ([SHIFTED_SELF_INTEGRAL[level][idx] * s]).  The two tables are taken to
    have a row at the level, the second at least as long as the first. *)
Theorem integrate_deriv_deriv_product_in_range {dt : dtype} (T : integrals)
    (rel_pos : list (V3 Q)) (s t : Z) (i : nat) (p : V3 Q) :
  is_pow2 s = true -> is_pow2 t = true -> (s <= t)%Z ->
  shifted_rows_ok T (gg_level s t) = true ->
  rel_pos !! i = Some p ->
  v3all (gg_in_range T s t) p = true ->
  (gg_mult s t * s = t)%Z /\ (2 ^ gg_level s t = gg_mult s t)%Z /\
  exists res,
    integrate_deriv_deriv_product T rel_pos s t = Ok res /\
    length res = length rel_pos /\
    res !! i = Some (gg_value T s t p).
Proof.
  intros Hs Ht Hst Hrows Hp Hin.
  destruct (pow2_ratio s t Hs Ht Hst) as [Hm Hl].
  split; [exact Hm|]. split; [exact Hl|].
  apply is_pow2_inv in Hs. destruct Hs as [Hs0 _].
  exists (gg_masked_value T s t <$> rel_pos). split; [|split].
  - apply integrate_deriv_deriv_product_value; [lia|assumption].
  - apply length_fmap.
  - rewrite list_lookup_fmap, Hp. cbn.
    now rewrite gg_masked_value_in_range.
Qed.

Lemma integrate_deriv_deriv_product_in_range_witness :
  (gg_mult 1 2 * 1 = 2)%Z /\ (2 ^ gg_level 1 2 = gg_mult 1 2)%Z /\
  exists res,
    integrate_deriv_deriv_product sample_integrals
      [mkV3 0 1 (-1); mkV3 9 0 0] 1 2 = Ok res /\
    length res = 2%nat /\
    res !! 0%nat = Some (gg_value sample_integrals 1 2 (mkV3 0 1 (-1))).
Proof.
  apply (integrate_deriv_deriv_product_in_range sample_integrals
           [mkV3 0 1 (-1); mkV3 9 0 0] 1 2 0 (mkV3 0 1 (-1)));
    first [reflexivity | lia].
Defined.

(** C7: with [source_stride > target_stride] the call raises the
    assertion's error, whatever the batch and the tables, and computes
    nothing. *)
Theorem integrate_deriv_deriv_product_rejects {dt : dtype} (T : integrals)
    (rel_pos : list (V3 Q)) (s t : Z) :
  (s > t)%Z ->
  integrate_deriv_deriv_product T rel_pos s t = Raise AssertionError.
Proof.
  intros H. unfold integrate_deriv_deriv_product.
  destruct (Z.leb_spec s t); [lia|]. reflexivity.
Qed.

Lemma integrate_deriv_deriv_product_rejects_witness :
  integrate_deriv_deriv_product sample_integrals [mkV3 0 0 0] 2 1
  = Raise AssertionError.
Proof.
  apply (integrate_deriv_deriv_product_rejects sample_integrals
           [mkV3 0 0 0] 2 1).
  lia.
Defined.

Lemma gg_masked_value_out_of_range {dt : dtype}
    (T : integrals) (s t : Z) (p : V3 Q) :
  v3all (gg_in_range T s t) p = false ->
  gg_masked_value T s t p == 0.
Proof.
  unfold v3all, gg_masked_value, gg_masked_plain, gg_masked_deriv.
  destruct (gg_in_range T s t (c0 p));
    destruct (gg_in_range T s t (c1 p));
    destruct (gg_in_range T s t (c2 p));
    cbn [andb]; intros H; try discriminate; ring.
Qed.

(** A level past the last row of [SHIFTED_SELF_INTEGRAL] is an indexing
    error: for every table there are power-of-two strides [s <= t] the call
    fails on. *)
Lemma integrate_deriv_deriv_product_level_missing {dt : dtype} (T : integrals)
    (rel_pos : list (V3 Q)) :
  integrate_deriv_deriv_product T rel_pos 1
    (2 ^ Z.of_nat (length (SHIFTED_SELF_INTEGRAL T)))
  = Raise IndexError.
Proof.
  set (k := Z.of_nat (length (SHIFTED_SELF_INTEGRAL T))).
  assert (Hk : (0 <= k)%Z) by (subst k; lia).
  assert (Hp : (0 < 2 ^ k)%Z) by (apply Z.pow_pos_nonneg; lia).
  unfold integrate_deriv_deriv_product.
  destruct (Z.leb_spec 1 (2 ^ k)); [|lia]. cbn [assert_ bind].
  unfold floordiv. cbn [Z.eqb bind]. rewrite Z.div_1_r.
  unfold int_log2. destruct (Z.leb_spec (2 ^ k) 0); [lia|]. cbn [bind].
  rewrite Z.log2_pow2 by lia.
  rewrite getitem_level_missing by (subst k; lia). reflexivity.
Qed.

(** Whatever the strides [0 < s <= t], a level past the last row of
    [SHIFTED_SELF_INTEGRAL] ends the call in an indexing error. *)
Lemma integrate_deriv_deriv_product_no_level {dt : dtype} (T : integrals)
    (rel_pos : list (V3 Q)) (s t : Z) :
  (0 < s <= t)%Z ->
  (Z.of_nat (length (SHIFTED_SELF_INTEGRAL T)) <= gg_level s t)%Z ->
  integrate_deriv_deriv_product T rel_pos s t = Raise IndexError.
Proof.
  intros Hst Hlevel. unfold integrate_deriv_deriv_product.
  destruct (Z.leb_spec s t); [|lia]. cbn [assert_ bind].
  unfold floordiv. destruct (Z.eqb_spec s 0) as [|_]; [lia|]. cbn [bind].
  assert (Hm : (1 <= t / s)%Z) by (apply Z.div_le_lower_bound; lia).
  unfold int_log2. destruct (Z.leb_spec (t / s) 0) as [|_]; [lia|].
  cbn [bind]. fold (gg_mult s t). fold (gg_level s t).
  now rewrite getitem_level_missing.
Qed.

(** C3, as the code has it, for a call with [0 < s <= t].  When the two
    shifted tables have rows at the level (the first not empty, the second
    at least as long), the call raises nothing; every axis whose index,
    computed in the type of [rel_pos], is out of the row has its plain and
    its derivative term set to 0, axis by axis, the other axes keeping
    their table terms; and a query with an axis out of the row gets
    exactly 0.  When the level is past the last row of
    [SHIFTED_SELF_INTEGRAL], the call ends in an indexing error. *)
Theorem integrate_deriv_deriv_product_masked {dt : dtype} (T : integrals)
    (rel_pos : list (V3 Q)) (s t : Z) :
  (0 < s <= t)%Z ->
  (shifted_rows_ok T (gg_level s t) = true ->
   exists res,
     integrate_deriv_deriv_product T rel_pos s t = Ok res /\
     length res = length rel_pos /\
     forall i p, rel_pos !! i = Some p ->
       res !! i = Some (gg_masked_value T s t p) /\
       (forall r, r = c0 p \/ r = c1 p \/ r = c2 p ->
          (gg_in_range T s t r = false ->
             gg_masked_plain T s t r = 0 /\ gg_masked_deriv T s t r = 0) /\
          (gg_in_range T s t r = true ->
             gg_masked_plain T s t r = gg_plain T s t r /\
             gg_masked_deriv T s t r = gg_deriv T s t r)) /\
       (v3all (gg_in_range T s t) p = false ->
          gg_masked_value T s t p == 0)) /\
  ((Z.of_nat (length (SHIFTED_SELF_INTEGRAL T)) <= gg_level s t)%Z ->
   integrate_deriv_deriv_product T rel_pos s t = Raise IndexError).
Proof.
  intros Hst. split.
  - intros Hrows.
    exists (gg_masked_value T s t <$> rel_pos). split; [|split].
    + now apply integrate_deriv_deriv_product_value.
    + apply length_fmap.
    + intros i p Hp. split; [|split].
      * rewrite list_lookup_fmap, Hp. reflexivity.
      * intros r _. unfold gg_masked_plain, gg_masked_deriv.
        split; intros E; rewrite E; split; reflexivity.
      * apply gg_masked_value_out_of_range.
  - now apply integrate_deriv_deriv_product_no_level.
Qed.

Lemma integrate_deriv_deriv_product_masked_witness :
  (shifted_rows_ok sample_integrals (gg_level 1 1) = true ->
   exists res,
     integrate_deriv_deriv_product sample_integrals
       [mkV3 0 7 0; mkV3 0 0 0] 1 1 = Ok res /\
     length res = 2%nat /\
     forall i p, [mkV3 0 7 0; mkV3 0 0 0] !! i = Some p ->
       res !! i = Some (gg_masked_value sample_integrals 1 1 p) /\
       (forall r, r = c0 p \/ r = c1 p \/ r = c2 p ->
          (gg_in_range sample_integrals 1 1 r = false ->
             gg_masked_plain sample_integrals 1 1 r = 0 /\
             gg_masked_deriv sample_integrals 1 1 r = 0) /\
          (gg_in_range sample_integrals 1 1 r = true ->
             gg_masked_plain sample_integrals 1 1 r
             = gg_plain sample_integrals 1 1 r /\
             gg_masked_deriv sample_integrals 1 1 r
             = gg_deriv sample_integrals 1 1 r)) /\
       (v3all (gg_in_range sample_integrals 1 1) p = false ->
          gg_masked_value sample_integrals 1 1 p == 0)) /\
  ((Z.of_nat (length (SHIFTED_SELF_INTEGRAL sample_integrals))
    <= gg_level 1 1)%Z ->
   integrate_deriv_deriv_product sample_integrals
     [mkV3 0 7 0; mkV3 0 0 0] 1 1 = Raise IndexError).
Proof.
  apply (integrate_deriv_deriv_product_masked sample_integrals
           [mkV3 0 7 0; mkV3 0 0 0] 1 1).
  lia.
Defined.

(** C3 fails as stated: power-of-two strides [1 <= 4] select level 2, which
    a table of two levels does not have, and the call ends in an indexing
    error. *)
Lemma integrate_deriv_deriv_product_index_error :
  is_pow2 1 = true /\ is_pow2 4 = true /\ (1 <= 4)%Z /\
  integrate_deriv_deriv_product sample_integrals [mkV3 0 0 0] 1 4
  = Raise IndexError.
Proof. repeat split; try reflexivity. lia. Qed.

(** *** Which errors the table lookups can raise *)

Lemma bind_only (A B : Type) (r : result A) (k : A -> result B) (e0 : exn) :
  (forall e, r = Raise e -> e = e0) ->
  (forall a e, k a = Raise e -> e = e0) ->
  forall e, bind r k = Raise e -> e = e0.
Proof.
  intros Hr Hk e. destruct r as [a|e']; cbn.
  - apply Hk.
  - intros E. injection E as <-. now apply Hr.
Qed.

Lemma getitem_only {A} (l : list A) (i : Z) (e : exn) :
  getitem l i = Raise e -> e = IndexError.
Proof.
  unfold getitem.
  destruct (_ && _); [destruct (l !! _)|]; intros E;
    try discriminate; now injection E as <-.
Qed.

Lemma mapM_only {A B} (f : A -> result B) (l : list A) (e0 : exn) :
  (forall a e, f a = Raise e -> e = e0) ->
  forall e, mapM f l = Raise e -> e = e0.
Proof.
  intros Hf. induction l as [|a l IH]; intros e; cbn [mapM].
  - discriminate.
  - apply bind_only; [apply Hf|]. intros b.
    apply bind_only; [apply IH|]. discriminate.
Qed.

Lemma index_only (row : list Q) (idx : list (V3 Z)) (e : exn) :
  index row idx = Raise e -> e = IndexError.
Proof.
  unfold index. apply mapM_only. intros v.
  apply bind_only; [apply getitem_only|]. intros a.
  apply bind_only; [apply getitem_only|]. intros b.
  apply bind_only; [apply getitem_only|]. discriminate.
Qed.

(** C8, as the code has it: a ratio that is not a power of two is not
    refused.  For every [0 < s <= t] the call goes on with
    [mult = t // s] and [level = int(log2(mult))], the integer parts; the
    only error it can end in is an indexing error of a table lookup, and it
    returns the masked sums, read at the indices computed in the type of
    [rel_pos], whenever the two shifted tables have rows at that level. *)
Theorem integrate_deriv_deriv_product_any_ratio {dt : dtype} (T : integrals)
    (rel_pos : list (V3 Q)) (s t : Z) :
  (0 < s <= t)%Z ->
  (forall e, integrate_deriv_deriv_product T rel_pos s t = Raise e ->
     e = IndexError) /\
  (shifted_rows_ok T (Z.log2 (t / s)) = true ->
   integrate_deriv_deriv_product T rel_pos s t
   = Ok (gg_masked_value T s t <$> rel_pos)).
Proof.
  intros Hst. split.
  - unfold integrate_deriv_deriv_product.
    destruct (Z.leb_spec s t); [|lia]. cbn [assert_ bind].
    unfold floordiv. destruct (Z.eqb_spec s 0) as [|_]; [lia|]. cbn [bind].
    assert (Hm : (1 <= t / s)%Z) by (apply Z.div_le_lower_bound; lia).
    unfold int_log2. destruct (Z.leb_spec (t / s) 0) as [|_]; [lia|].
    cbn [bind].
    apply bind_only; [apply getitem_only|]. intros row.
    apply bind_only; [apply index_only|]. intros looked.
    apply bind_only; [apply getitem_only|]. intros drow.
    apply bind_only; [apply index_only|]. discriminate.
  - intros Hrows. now apply integrate_deriv_deriv_product_value.
Qed.

Lemma integrate_deriv_deriv_product_any_ratio_witness :
  (forall e, integrate_deriv_deriv_product sample_integrals
               [mkV3 0 0 0; mkV3 (-6) 0 0] 1 3 = Raise e ->
     e = IndexError) /\
  (shifted_rows_ok sample_integrals (Z.log2 (3 / 1)) = true ->
   integrate_deriv_deriv_product sample_integrals
     [mkV3 0 0 0; mkV3 (-6) 0 0] 1 3
   = Ok (gg_masked_value sample_integrals 1 3
           <$> [mkV3 0 0 0; mkV3 (-6) 0 0])).
Proof.
  apply (integrate_deriv_deriv_product_any_ratio sample_integrals
           [mkV3 0 0 0; mkV3 (-6) 0 0] 1 3).
  lia.
Defined.

(** C8 fails as stated: with [source_stride = 1] and [target_stride = 3]
    the call returns a value, read at level 1 and index 5 of the tables. *)
Lemma integrate_deriv_deriv_product_ratio_three :
  is_pow2 (3 / 1) = false /\
  exists v,
    integrate_deriv_deriv_product sample_integrals [mkV3 0 0 0] 1 3
    = Ok [v] /\
    v == -27.
Proof.
  split; [reflexivity|].
  eexists. split; [vm_compute; reflexivity|]. reflexivity.
Qed.

(** ** The constant-gradient integrator *)

Lemma cg_indices_code_forward {dt : dtype} (ds ts : Z) (rel_pos : list (V3 Q)) :
  forward ds ts = true ->
  emap (fun r => round (fadd r (of_number (inject_Z (3 * (ts / ds) - 1) / 2))))
       rel_pos
  = cg_indices ds ts rel_pos.
Proof.
  intros F. unfold cg_indices, emap. apply list_fmap_ext. intros _ p _.
  unfold v3map, cg_idx, cg_mult, fadd, of_number. rewrite F.
  f_equal; apply round_comp, rnd_comp, Qplus_comp; try reflexivity;
    apply rnd_comp;
    rewrite <- Z.add_opp_r, inject_Z_plus, inject_Z_mult;
    change (inject_Z 3) with 3; change (inject_Z (- (1))) with (-1); field.
Qed.

Lemma cg_indices_code_inverse {dt : dtype} (ds ts : Z) (rel_pos : list (V3 Q)) :
  forward ds ts = false ->
  emap (fun r => round (fadd (fadd (fmul r (of_number (inject_Z (ds / ts))))
                                   (of_number (inject_Z (ds / ts) / 2)))
                             (of_number 0.5)))
       rel_pos
  = cg_indices ds ts rel_pos.
Proof.
  intros F. unfold cg_indices, emap, cg_idx, cg_mult. rewrite F.
  reflexivity.
Qed.

Lemma cg_rows_ok_inv (T : integrals) (ds ts : Z) :
  cg_rows_ok T ds ts = true ->
  has_level (cg_plain_table T ds ts) (cg_level ds ts) = true /\
  has_level (cg_deriv_table T ds ts) (cg_level ds ts) = true.
Proof. unfold cg_rows_ok. now rewrite andb_true_iff. Qed.

(** With positive strides and rows at the level, the branch returns the
    index tensor, the two rows and the two factors. *)
Lemma const_deriv_branch_value {dt : dtype}
    (T : integrals) (rel_pos : list (V3 Q))
    (ds ts : Z) :
  (0 < ds)%Z -> (0 < ts)%Z ->
  cg_rows_ok T ds ts = true ->
  const_deriv_branch T rel_pos ds ts
  = Ok (mkBranch (cg_indices ds ts rel_pos)
          (cg_plain_row T ds ts) (cg_deriv_row T ds ts)
          (if forward ds ts then ds else ts)
          (if forward ds ts then ts else ds)
          (if forward ds ts then inject_Z ds / inject_Z ts else 1)).
Proof.
  intros Hds Hts Hrows.
  apply cg_rows_ok_inv in Hrows. destruct Hrows as [HP HD].
  unfold cg_plain_row, cg_deriv_row.
  unfold const_deriv_branch. fold (forward ds ts).
  unfold cg_level, cg_plain_table, cg_deriv_table, cg_mult in *.
  destruct (forward ds ts) eqn:F.
  - unfold forward in F. rewrite Z.geb_leb in F. apply Z.leb_le in F.
    unfold floordiv. destruct (Z.eqb_spec ds 0) as [|_]; [lia|]. cbn [bind].
    assert (Hm : (1 <= ts / ds)%Z) by (apply Z.div_le_lower_bound; lia).
    unfold int_log2. destruct (Z.leb_spec (ts / ds) 0) as [|_]; [lia|].
    cbn [bind].
    rewrite (getitem_level _ _ HP). cbn [bind].
    rewrite (getitem_level _ _ HD). cbn [bind].
    unfold truediv. destruct (Z.eqb_spec ts 0) as [|_]; [lia|]. cbn [bind].
    rewrite cg_indices_code_forward
      by (unfold forward; rewrite Z.geb_leb; now apply Z.leb_le).
    reflexivity.
  - unfold forward in F. rewrite Z.geb_leb in F. apply Z.leb_gt in F.
    unfold floordiv. destruct (Z.eqb_spec ts 0) as [|_]; [lia|]. cbn [bind].
    assert (Hm : (1 <= ds / ts)%Z) by (apply Z.div_le_lower_bound; lia).
    unfold int_log2. destruct (Z.leb_spec (ds / ts) 0) as [|_]; [lia|].
    cbn [bind].
    rewrite (getitem_level _ _ HP). cbn [bind].
    rewrite (getitem_level _ _ HD). cbn [bind].
    rewrite cg_indices_code_inverse
      by (unfold forward; rewrite Z.geb_leb; now apply Z.leb_gt).
    reflexivity.
Qed.

Lemma bmul_fmap_same {A} (g h : A -> Q) (l : list A) :
  bmul (g <$> l) (h <$> l) = Ok ((fun x => g x * h x) <$> l).
Proof.
  unfold bmul. rewrite !length_fmap, Nat.eqb_refl.
  now rewrite zip_with_fmap_same.
Qed.

(** With positive strides, rows at the level and every index of the batch
    in [[-len, len)] for both rows, the call returns, and the entry of
    every query is the sum of products of the entries the lookups read. *)
Lemma integrate_const_deriv_product_pairs {dt : dtype} (T : integrals)
    (qs : list (V3 Q * V3 Q)) (ds ts : Z) :
  (0 < ds)%Z -> (0 < ts)%Z ->
  cg_rows_ok T ds ts = true ->
  Forall (in_bounds (length (cg_plain_row T ds ts)))
         (cg_indices ds ts (snd <$> qs)) ->
  Forall (in_bounds (length (cg_deriv_row T ds ts)))
         (cg_indices ds ts (snd <$> qs)) ->
  integrate_const_deriv_product T (fst <$> qs) (snd <$> qs) ds ts
  = Ok ((fun q => cg_wrapped_value T ds ts (fst q) (snd q)) <$> qs).
Proof.
  intros Hds Hts Hrows HP HD.
  unfold integrate_const_deriv_product.
  rewrite const_deriv_branch_value by assumption.
  cbn [bind br_abs_val br_dpi br_pi br_data_stride br_i_mult].
  rewrite (index_wrapped _ _ HP). cbn [bind].
  rewrite (index_wrapped _ _ HD). cbn [bind].
  unfold cg_indices, emap, col0, col1, col2.
  rewrite <- !list_fmap_compose.
  repeat (rewrite bmul_fmap_same; cbn [bind]).
  f_equal. unfold tadd. rewrite !zip_with_fmap_same.
  apply list_fmap_ext. intros _ [d p] _.
  unfold compose. cbn [fst snd v3map c0 c1 c2].
  reflexivity.
Qed.

Lemma fmap_zip_with {A B C} (f : A -> B -> C) (l : list A) (k : list B) :
  (fun q => f (fst q) (snd q)) <$> zip l k = zip_with f l k.
Proof.
  revert k. induction l as [|a l IH]; intros [|b k]; cbn;
    try reflexivity.
  now rewrite IH.
Qed.

Lemma integrate_const_deriv_product_value {dt : dtype} (T : integrals)
    (data rel_pos : list (V3 Q)) (ds ts : Z) :
  (0 < ds)%Z -> (0 < ts)%Z ->
  cg_rows_ok T ds ts = true ->
  length data = length rel_pos ->
  Forall (in_bounds (length (cg_plain_row T ds ts)))
         (cg_indices ds ts rel_pos) ->
  Forall (in_bounds (length (cg_deriv_row T ds ts)))
         (cg_indices ds ts rel_pos) ->
  integrate_const_deriv_product T data rel_pos ds ts
  = Ok (zip_with (cg_wrapped_value T ds ts) data rel_pos).
Proof.
  intros Hds Hts Hrows Hlen HP HD.
  assert (E1 : fst <$> zip data rel_pos = data) by (apply fst_zip; lia).
  assert (E2 : snd <$> zip data rel_pos = rel_pos) by (apply snd_zip; lia).
  pose proof (integrate_const_deriv_product_pairs T (zip data rel_pos)
                ds ts Hds Hts Hrows) as H.
  rewrite E1, E2 in H. rewrite (H HP HD).
  now rewrite fmap_zip_with.
Qed.

Lemma cg_in_range_inv {dt : dtype} (T : integrals) (ds ts : Z) (r : Q) :
  cg_in_range T ds ts r = true ->
  (0 <= cg_idx ds ts r < Z.of_nat (length (cg_plain_row T ds ts)))%Z /\
  (0 <= cg_idx ds ts r < Z.of_nat (length (cg_deriv_row T ds ts)))%Z.
Proof.
  unfold cg_in_range, row_len, cg_plain_row, cg_deriv_row.
  rewrite !andb_true_iff, Z.leb_le, !Z.ltb_lt. lia.
Qed.

Lemma cg_wrapped_in_range {dt : dtype} (T : integrals) (ds ts : Z) (r : Q) :
  cg_in_range T ds ts r = true ->
  cg_wrapped_plain T ds ts r = cg_plain T ds ts r /\
  cg_wrapped_deriv T ds ts r = cg_deriv T ds ts r.
Proof.
  intros H. apply cg_in_range_inv in H. destruct H as [HP HD].
  unfold cg_wrapped_plain, cg_wrapped_deriv, cg_plain, cg_deriv, entry,
    cg_plain_row, cg_deriv_row.
  rewrite !wrapped_nonneg by lia.
  destruct (forward ds ts); split; reflexivity.
Qed.

Lemma cg_in_range_bounds {dt : dtype} (T : integrals) (ds ts : Z)
    (rel_pos : list (V3 Q)) :
  forallb (v3all (cg_in_range T ds ts)) rel_pos = true ->
  Forall (in_bounds (length (cg_plain_row T ds ts)))
         (cg_indices ds ts rel_pos) /\
  Forall (in_bounds (length (cg_deriv_row T ds ts)))
         (cg_indices ds ts rel_pos).
Proof.
  intros H. rewrite forallb_forall in H.
  unfold cg_indices, emap.
  split; apply Forall_fmap, Forall_forall; intros p Hp;
    apply list_elem_of_In, H, v3all_inv in Hp;
    destruct Hp as (H0 & H1 & H2);
    apply cg_in_range_inv in H0, H1, H2;
    unfold compose, in_bounds, v3map; cbn [c0 c1 c2]; lia.
Qed.

(** For powers of two, the quotient of the larger stride by the smaller is
    exact and a power of two, and the level of the branch is not negative. *)
Lemma cg_pow2_ratio (ds ts : Z) :
  is_pow2 ds = true -> is_pow2 ts = true ->
  (cg_mult ds ts * Z.min ds ts = Z.max ds ts)%Z /\
  (2 ^ Z.log2 (cg_mult ds ts) = cg_mult ds ts)%Z /\
  (0 <= cg_level ds ts)%Z.
Proof.
  intros Hd Ht. unfold cg_level, cg_mult, forward.
  rewrite Z.geb_leb.
  destruct (Z.leb_spec ds ts) as [L|L].
  - destruct (pow2_ratio ds ts Hd Ht L) as [E1 E2].
    unfold gg_level, gg_mult in *.
    rewrite Z.min_l, Z.max_r by lia.
    repeat split; try assumption. apply Z.log2_nonneg.
  - destruct (pow2_ratio ts ds Ht Hd) as [E1 E2]; [lia|].
    unfold gg_level, gg_mult in *.
    rewrite Z.min_r, Z.max_l by lia.
    repeat split; try assumption.
    apply is_pow2_inv in Ht. destruct Ht as [Ht0 _].
    assert (Hm : (2 <= ds / ts)%Z).
    { destruct (Z_le_dec 2 (ds / ts)) as [|N]; [assumption|].
      assert (Hm1 : (1 <= ds / ts)%Z)
        by (apply Z.div_le_lower_bound; lia).
      assert (E : (ds / ts = 1)%Z) by lia.
      rewrite E in E1. lia. }
    pose proof (Z.log2_le_mono 2 (ds / ts) Hm) as Hl.
    change (Z.log2 2) with 1%Z in Hl. lia.
Qed.

(** C2: for power-of-two strides and every index of the batch inside the
    rows of the branch, the scalar of a query is the sum over the axes of
    [data_i * derivTerm_i] times the plain terms of the two other axes.
    With [target_stride >= data_stride] the terms are read from
    [DERIVATIVE_PARTIAL_INTEGRAL] and [PARTIAL_INTEGRAL] at
    [level = log2 (ts / ds)] and [round (r + (3 * mult - 1) / 2)], scaled
    by [ds] and by [ds / ts]; otherwise from the two inverse tables at
    [level = log2 (ds / ts) - 1] and [round (r * mult + mult / 2 + 0.5)],
    scaled by [ts] and by 1.  The sums and the product of an index are
    those of the type [dt] of [rel_pos]. *)
Theorem integrate_const_deriv_product_in_range {dt : dtype} (T : integrals)
    (data rel_pos : list (V3 Q)) (ds ts : Z) (i : nat) (d p : V3 Q) :
  is_pow2 ds = true -> is_pow2 ts = true ->
  cg_rows_ok T ds ts = true ->
  length data = length rel_pos ->
  forallb (v3all (cg_in_range T ds ts)) rel_pos = true ->
  data !! i = Some d ->
  rel_pos !! i = Some p ->
  (cg_mult ds ts * Z.min ds ts = Z.max ds ts)%Z /\
  (2 ^ Z.log2 (cg_mult ds ts) = cg_mult ds ts)%Z /\
  exists res v,
    integrate_const_deriv_product T data rel_pos ds ts = Ok res /\
    length res = length rel_pos /\
    res !! i = Some v /\
    v == cg_value T ds ts d p.
Proof.
  intros Hd Ht Hrows Hlen Hin Hdi Hpi.
  destruct (cg_pow2_ratio ds ts Hd Ht) as (E1 & E2 & _).
  split; [exact E1|]. split; [exact E2|].
  destruct (cg_in_range_bounds T ds ts rel_pos Hin) as [HP HD].
  apply is_pow2_inv in Hd, Ht. destruct Hd as [Hd _], Ht as [Ht _].
  exists (zip_with (cg_wrapped_value T ds ts) data rel_pos),
         (cg_wrapped_value T ds ts d p).
  split; [|split; [|split]].
  - now apply integrate_const_deriv_product_value.
  - rewrite length_zip_with. lia.
  - rewrite lookup_zip_with, Hdi, Hpi. reflexivity.
  - rewrite forallb_forall in Hin.
    assert (Hp : v3all (cg_in_range T ds ts) p = true).
    { apply Hin, list_elem_of_In. eapply list_elem_of_lookup_2, Hpi. }
    apply v3all_inv in Hp. destruct Hp as (H0 & H1 & H2).
    destruct (cg_wrapped_in_range T ds ts _ H0) as [P0 D0].
    destruct (cg_wrapped_in_range T ds ts _ H1) as [P1 D1].
    destruct (cg_wrapped_in_range T ds ts _ H2) as [P2 D2].
    unfold cg_wrapped_value, cg_value.
    rewrite P0, P1, P2, D0, D1, D2. ring.
Qed.

Lemma integrate_const_deriv_product_in_range_witness :
  (cg_mult 4 1 * Z.min 4 1 = Z.max 4 1)%Z /\
  (2 ^ Z.log2 (cg_mult 4 1) = cg_mult 4 1)%Z /\
  exists res v,
    integrate_const_deriv_product sample_integrals
      [mkV3 1 2 3; mkV3 (-1) 0 5] [mkV3 0 0.25 0.5; mkV3 1 (-0.5) 0] 4 1
    = Ok res /\
    length res = 2%nat /\
    res !! 1%nat = Some v /\
    v == cg_value sample_integrals 4 1 (mkV3 (-1) 0 5) (mkV3 1 (-0.5) 0).
Proof.
  apply (integrate_const_deriv_product_in_range sample_integrals
           [mkV3 1 2 3; mkV3 (-1) 0 5] [mkV3 0 0.25 0.5; mkV3 1 (-0.5) 0]
           4 1 1 (mkV3 (-1) 0 5) (mkV3 1 (-0.5) 0));
    reflexivity.
Defined.

Lemma wrapped_negative (row : list Q) (i : Z) :
  (- Z.of_nat (length row) <= i < 0)%Z ->
  wrapped row i = nth (Z.to_nat (Z.of_nat (length row) + i)) row 0.
Proof.
  intros H. unfold wrapped. destruct (Z.ltb_spec i 0); [|lia].
  now rewrite Z.add_comm.
Qed.

(** C9: [integrate_const_deriv_product] neither masks nor clamps its
    indices, which it computes in the type [dt] of [rel_pos].  With
    positive strides and rows at the level: when every
    index of the batch is in [[-len, len)], the call returns the sums of
    products of the entries read, and a negative index [i] reads the entry
    [len + i], counted from the end of the row; when some index is outside
    [[-len, len)], the call ends in an indexing error. *)
Theorem integrate_const_deriv_product_unmasked {dt : dtype} (T : integrals)
    (data rel_pos : list (V3 Q)) (ds ts : Z) :
  (0 < ds)%Z -> (0 < ts)%Z ->
  cg_rows_ok T ds ts = true ->
  length data = length rel_pos ->
  (Forall (in_bounds (length (cg_plain_row T ds ts)))
          (cg_indices ds ts rel_pos) ->
   Forall (in_bounds (length (cg_deriv_row T ds ts)))
          (cg_indices ds ts rel_pos) ->
   integrate_const_deriv_product T data rel_pos ds ts
   = Ok (zip_with (cg_wrapped_value T ds ts) data rel_pos)) /\
  (forall (row : list Q) (i : Z),
     (- Z.of_nat (length row) <= i < 0)%Z ->
     wrapped row i = nth (Z.to_nat (Z.of_nat (length row) + i)) row 0) /\
  (Exists (fun v => ~ in_bounds (length (cg_plain_row T ds ts)) v)
          (cg_indices ds ts rel_pos)
   \/ Exists (fun v => ~ in_bounds (length (cg_deriv_row T ds ts)) v)
             (cg_indices ds ts rel_pos) ->
   integrate_const_deriv_product T data rel_pos ds ts = Raise IndexError).
Proof.
  intros Hds Hts Hrows Hlen. split; [|split].
  - intros HP HD. now apply integrate_const_deriv_product_value.
  - apply wrapped_negative.
  - intros H. unfold integrate_const_deriv_product.
    rewrite const_deriv_branch_value by assumption.
    cbn [bind br_abs_val br_dpi br_pi br_data_stride br_i_mult].
    destruct (index (cg_plain_row T ds ts) (cg_indices ds ts rel_pos))
      as [looked|e] eqn:E1; cbn [bind].
    + destruct H as [H|H].
      * rewrite (index_out_of_bounds _ _ H) in E1. discriminate.
      * rewrite (index_out_of_bounds _ _ H). reflexivity.
    + apply index_only in E1. now subst e.
Qed.

Lemma integrate_const_deriv_product_unmasked_witness :
  (Forall (in_bounds (length (cg_plain_row sample_integrals 1 1)))
          (cg_indices 1 1 [mkV3 (-2) 0 0]) ->
   Forall (in_bounds (length (cg_deriv_row sample_integrals 1 1)))
          (cg_indices 1 1 [mkV3 (-2) 0 0]) ->
   integrate_const_deriv_product sample_integrals
     [mkV3 1 1 1] [mkV3 (-2) 0 0] 1 1
   = Ok (zip_with (cg_wrapped_value sample_integrals 1 1)
           [mkV3 1 1 1] [mkV3 (-2) 0 0])) /\
  (forall (row : list Q) (i : Z),
     (- Z.of_nat (length row) <= i < 0)%Z ->
     wrapped row i = nth (Z.to_nat (Z.of_nat (length row) + i)) row 0) /\
  (Exists (fun v => ~ in_bounds (length (cg_plain_row sample_integrals 1 1)) v)
          (cg_indices 1 1 [mkV3 (-2) 0 0])
   \/ Exists
        (fun v => ~ in_bounds (length (cg_deriv_row sample_integrals 1 1)) v)
        (cg_indices 1 1 [mkV3 (-2) 0 0]) ->
   integrate_const_deriv_product sample_integrals
     [mkV3 1 1 1] [mkV3 (-2) 0 0] 1 1 = Raise IndexError).
Proof.
  apply (integrate_const_deriv_product_unmasked sample_integrals
           [mkV3 1 1 1] [mkV3 (-2) 0 0] 1 1);
    first [reflexivity | lia].
Defined.

(** Two closed instances with equal strides: the index [-1] of the first
    query reads the last entry of the rows and the result is not 0; the
    index 6 of the second is past the rows of length 3. *)
Example integrate_const_deriv_product_wraps :
  cg_idx 1 1 (-2) = (-1)%Z /\
  exists v,
    integrate_const_deriv_product sample_integrals
      [mkV3 1 1 1] [mkV3 (-2) 0 0] 1 1 = Ok [v] /\
    v == 3600 /\ ~ v == 0.
Proof.
  split; [reflexivity|].
  eexists. split; [vm_compute; reflexivity|].
  split; [reflexivity|discriminate].
Qed.

Example integrate_const_deriv_product_raises :
  cg_idx 1 1 5 = 6%Z /\
  integrate_const_deriv_product sample_integrals
    [mkV3 1 1 1] [mkV3 5 0 0] 1 1 = Raise IndexError.
Proof. split; reflexivity. Qed.

(** The type of [rel_pos] matters next to a tie of [round].  In
    [torch.float32] the sum [r + 1.5] at [r = 0.5 + 2^-24] is 2 and the
    index is [round 2.5 = 2], where the exact sum rounds to 3; [r + 1] at
    [r = 0.5 - 2^-25] is 1.5 and the index is 2, not 1; and at
    [r = 3 - 2^-22], with strides 1 and 2, the index is 6, past a row of
    length 6, not 5. *)
Example indices_next_to_a_tie :
  let eps (k : Z) : Q := 1 / inject_Z (2 ^ k) in
  (gg_idx 1 1 (0.5 + eps 24%Z) = 2%Z /\
   round (0.5 + eps 24%Z + 1.5 + 0.5) = 3%Z) /\
  (cg_idx 1 1 (0.5 - eps 25%Z) = 2%Z /\
   round (0.5 - eps 25%Z + 1) = 1%Z) /\
  (cg_idx 1 2 (3 - eps 22%Z) = 6%Z /\
   round (3 - eps 22%Z + 2.5) = 5%Z /\
   integrate_const_deriv_product sample_integrals
     [mkV3 1 1 1] [mkV3 (3 - eps 22%Z) 0 0] 1 2 = Raise IndexError).
Proof. cbv zeta. repeat split; vm_compute; reflexivity. Qed.

(** ** The random-safe dataset *)

Section RandomSafeDatasetProperties.

Import Dataset.

Variable sample : Type.
Variable rng : Type.
Variable seed_rng : Z -> rng.
Variable draw : rng -> Z -> Z -> Z * rng.
Variable _get_item : Z -> rng -> result sample * rng.
Variable len : Z.

Local Abbreviation getitem_ :=
  (__getitem__ sample rng seed_rng draw _get_item len).
Local Abbreviation get_rng_ := (get_rng rng seed_rng).

(** [get_rng] leaves the flags of the dataset as they are. *)
Lemma get_rng_skip_on_error (self self' : dataset) (idx : Z)
    (r : result rng) :
  get_rng_ self idx = (r, self') ->
  skip_on_error self' = skip_on_error self.
Proof.
  unfold get_rng. destruct (_is_val self).
  - intros E. injection E as _ <-. reflexivity.
  - destruct (RandomState _ _ _); intros E; injection E as _ <-;
      reflexivity.
Qed.

(** C10, as the code has it: with [skip_on_error] disabled, an exception
    of [_get_item] other than [ConnectionAbortedError] reaches the caller
    unchanged, with nothing fetched besides; a [ConnectionAbortedError]
    is not propagated: another index is drawn and fetched instead, as it
    is with the flag set. *)
Theorem getitem_skip_disabled (depth : nat) (self self' : dataset)
    (data_id : Z) (r r' : rng) (e : exn) :
  skip_on_error self = false ->
  get_rng_ self data_id = (Ok r, self') ->
  _get_item data_id r = (Raise e, r') ->
  (e <> ConnectionAbortedError ->
   getitem_ (S depth) self data_id = (Raise e, self')) /\
  (e = ConnectionAbortedError ->
   getitem_ (S depth) self data_id =
     match randint rng draw r' 0 (len - 1) with
     | (Ok other, _) => getitem_ depth self' other
     | (Raise e', _) => (Raise e', self')
     end).
Proof.
  intros Hskip Hrng Hget.
  pose proof (get_rng_skip_on_error _ _ _ _ Hrng) as Hskip'.
  rewrite Hskip in Hskip'.
  split; intros He; cbn [__getitem__]; rewrite Hrng, Hget, Hskip'.
  - destruct e; try reflexivity. now contradiction He.
  - subst e. reflexivity.
Qed.

End RandomSafeDatasetProperties.

Lemma getitem_skip_disabled_witness :
  (ValueError <> ConnectionAbortedError ->
   demo_getitem ValueError false 0
   = (Raise ValueError, Dataset.mkDataset 7 false false (<[0%Z := 1%Z]> ∅)))
  /\
  (ValueError = ConnectionAbortedError ->
   demo_getitem ValueError false 0 =
     match
       Dataset.randint Z demo_draw (Dataset.deterministic_hash (0, 0, 7)%Z)
         0 (3 - 1)
     with
     | (Ok other, _) =>
         Dataset.__getitem__ Z Z (fun seed => seed) demo_draw
           (demo_get_item ValueError) 3 9
           (Dataset.mkDataset 7 false false (<[0%Z := 1%Z]> ∅)) other
     | (Raise e', _) =>
         (Raise e', Dataset.mkDataset 7 false false (<[0%Z := 1%Z]> ∅))
     end).
Proof.
  apply (getitem_skip_disabled Z Z (fun seed => seed) demo_draw
           (demo_get_item ValueError) 3 9 (demo_dataset false)
           (Dataset.mkDataset 7 false false (<[0%Z := 1%Z]> ∅)) 0%Z
           (Dataset.deterministic_hash (0, 0, 7)%Z)
           (Dataset.deterministic_hash (0, 0, 7)%Z) ValueError);
    reflexivity.
Defined.

(** C10 fails as stated: with [skip_on_error] disabled and item 0 failing
    with [ConnectionAbortedError], fetching item 0 returns the sample of
    item 1, and both items have been read once. *)
Lemma getitem_substitutes_when_disabled :
  Dataset.skip_on_error (demo_dataset false) = false /\
  fst (demo_get_item ConnectionAbortedError 0
         (Dataset.deterministic_hash (0, 0, 7)%Z))
  = Raise ConnectionAbortedError /\
  fst (demo_getitem ConnectionAbortedError false 0) = Ok 101%Z /\
  Dataset._read_count (snd (demo_getitem ConnectionAbortedError false 0))
  = <[1%Z := 1%Z]> (<[0%Z := 1%Z]> ∅).
Proof. repeat split; vm_compute; reflexivity. Qed.

(** With the flag set, every exception that derives from [Exception] is
    answered by the fetch of another index, and the others reach the
    caller. *)
Example getitem_skip_enabled :
  fst (demo_getitem ValueError true 0) = Ok 101%Z /\
  fst (demo_getitem KeyboardInterrupt true 0) = Raise KeyboardInterrupt.
Proof. split; vm_compute; reflexivity. Qed.

(* ===================================================================== *)
(** * Further properties of the basis evaluator                           *)
(* ===================================================================== *)

(** On the closed intervals the kernel is the polynomial of the piece: the
    value at a right endpoint is the one the next piece gives. *)
Lemma evaluate_single_closed1 (x : Q) :
  -1.5 <= x -> x <= -0.5 -> evaluate_single x == (x + 1.5) * (x + 1.5).
Proof.
  intros H1 H2. destruct (Qlt_le_dec x (-0.5)) as [L|L].
  - rewrite evaluate_single_piece1 by lra. apply Qsquare.
  - rewrite evaluate_single_piece2 by lra. rewrite Qsquare.
    assert (E : x == -0.5) by lra. rewrite E. reflexivity.
Qed.

Lemma evaluate_single_closed2 (x : Q) :
  -0.5 <= x -> x <= 0.5 -> evaluate_single x == -2 * (x * x) + 1.5.
Proof.
  intros H1 H2. destruct (Qlt_le_dec x 0.5) as [L|L].
  - rewrite evaluate_single_piece2 by lra. now rewrite Qsquare.
  - rewrite evaluate_single_piece3 by lra. rewrite Qsquare.
    assert (E : x == 0.5) by lra. rewrite E. reflexivity.
Qed.

Lemma evaluate_single_closed3 (x : Q) :
  0.5 <= x -> x <= 1.5 -> evaluate_single x == (x - 1.5) * (x - 1.5).
Proof.
  intros H1 H2. destruct (Qlt_le_dec x 1.5) as [L|L].
  - rewrite evaluate_single_piece3 by lra. apply Qsquare.
  - rewrite evaluate_single_outside by (right; lra).
    assert (E : x == 1.5) by lra. rewrite E. reflexivity.
Qed.

Lemma evaluate_single_closed0 (x : Q) :
  x <= -1.5 \/ 1.5 <= x -> evaluate_single x == 0.
Proof.
  intros [H|H].
  - destruct (Qlt_le_dec x (-1.5)) as [L|L].
    + apply evaluate_single_outside. now left.
    + rewrite evaluate_single_piece1 by lra. rewrite Qsquare.
      assert (E : x == -1.5) by lra. rewrite E. reflexivity.
  - apply evaluate_single_outside. now right.
Qed.

Lemma evaluate_derivative_single_closed1 (x : Q) :
  -1.5 <= x -> x <= -0.5 -> evaluate_derivative_single x == 2 * x + 3.
Proof.
  intros H1 H2. destruct (Qlt_le_dec x (-0.5)) as [L|L].
  - now apply evaluate_derivative_single_piece1.
  - rewrite evaluate_derivative_single_piece2 by lra. lra.
Qed.

Lemma evaluate_derivative_single_closed2 (x : Q) :
  -0.5 <= x -> x <= 0.5 -> evaluate_derivative_single x == -4 * x.
Proof.
  intros H1 H2. destruct (Qlt_le_dec x 0.5) as [L|L].
  - now apply evaluate_derivative_single_piece2.
  - rewrite evaluate_derivative_single_piece3 by lra. lra.
Qed.

Lemma evaluate_derivative_single_closed3 (x : Q) :
  0.5 <= x -> x <= 1.5 -> evaluate_derivative_single x == 2 * x - 3.
Proof.
  intros H1 H2. destruct (Qlt_le_dec x 1.5) as [L|L].
  - now apply evaluate_derivative_single_piece3.
  - rewrite evaluate_derivative_single_outside by (right; lra). lra.
Qed.

Lemma evaluate_derivative_single_closed0 (x : Q) :
  x <= -1.5 \/ 1.5 <= x -> evaluate_derivative_single x == 0.
Proof.
  intros [H|H].
  - destruct (Qlt_le_dec x (-1.5)) as [L|L].
    + apply evaluate_derivative_single_outside. now left.
    + rewrite evaluate_derivative_single_piece1 by lra. lra.
  - apply evaluate_derivative_single_outside. now right.
Qed.

(** The five closed regions cover the line. *)
Lemma kernel_regions (x : Q) :
  x <= -1.5 \/ (-1.5 <= x /\ x <= -0.5) \/ (-0.5 <= x /\ x <= 0.5)
  \/ (0.5 <= x /\ x <= 1.5) \/ 1.5 <= x.
Proof.
  destruct (Qlt_le_dec x (-1.5)); [left; lra|].
  destruct (Qlt_le_dec x (-0.5)); [right; left; lra|].
  destruct (Qlt_le_dec x 0.5); [right; right; left; lra|].
  destruct (Qlt_le_dec x 1.5); [right; right; right; left; lra|].
  right; right; right; right; lra.
Qed.

(** The value, and the derivative, at [x] replaced by the polynomial of the
    region of [x], one goal per region. *)
Ltac kernel_poly x :=
  destruct (kernel_regions x) as [?|[[? ?]|[[? ?]|[[? ?]|?]]]];
  [ rewrite (evaluate_single_closed0 x) by (left; lra)
  | rewrite (evaluate_single_closed1 x) by lra
  | rewrite (evaluate_single_closed2 x) by lra
  | rewrite (evaluate_single_closed3 x) by lra
  | rewrite (evaluate_single_closed0 x) by (right; lra) ].

Ltac kernel_deriv_poly x :=
  destruct (kernel_regions x) as [?|[[? ?]|[[? ?]|[[? ?]|?]]]];
  [ rewrite (evaluate_derivative_single_closed0 x) by (left; lra)
  | rewrite (evaluate_derivative_single_closed1 x) by lra
  | rewrite (evaluate_derivative_single_closed2 x) by lra
  | rewrite (evaluate_derivative_single_closed3 x) by lra
  | rewrite (evaluate_derivative_single_closed0 x) by (right; lra) ].

Lemma evaluate_single_comp (x y : Q) :
  x == y -> evaluate_single x == evaluate_single y.
Proof.
  intros E.
  kernel_poly x.
  - rewrite (evaluate_single_closed0 y) by (left; lra). reflexivity.
  - rewrite (evaluate_single_closed1 y) by lra. rewrite E. reflexivity.
  - rewrite (evaluate_single_closed2 y) by lra. rewrite E. reflexivity.
  - rewrite (evaluate_single_closed3 y) by lra. rewrite E. reflexivity.
  - rewrite (evaluate_single_closed0 y) by (right; lra). reflexivity.
Qed.

(** X1: the kernel is an even function, the half-open masks
    notwithstanding. *)
Theorem evaluate_single_even (x : Q) :
  evaluate_single (- x) == evaluate_single x.
Proof.
  kernel_poly x.
  - rewrite evaluate_single_closed0 by (right; lra). reflexivity.
  - rewrite evaluate_single_closed3 by lra. ring.
  - rewrite evaluate_single_closed2 by lra. ring.
  - rewrite evaluate_single_closed1 by lra. ring.
  - rewrite evaluate_single_closed0 by (left; lra). reflexivity.
Qed.

(** The entries of the closed instances are in [no_overflow]. *)
Ltac closed_no_overflow := unfold no_overflow; vm_compute; discriminate.

(** X2: on an entry where nothing overflows the kernel takes its values
    between 0 and 1.5, and 1.5 is the value at 0. *)
Theorem evaluate_single_bounds (x : Q) :
  no_overflow x ->
  0 <= evaluate_single x /\ evaluate_single x <= 1.5 /\
  evaluate_single 0 == 1.5.
Proof.
  intros _.
  split; [|split]; [| |reflexivity]; kernel_poly x; try nra; lra.
Qed.

Lemma evaluate_single_bounds_witness :
  0 <= evaluate_single (-0.75) /\ evaluate_single (-0.75) <= 1.5 /\
  evaluate_single 0 == 1.5.
Proof.
  apply (evaluate_single_bounds (-0.75)). closed_no_overflow.
Defined.

Lemma evaluate_single_lipschitz (x y : Q) :
  x <= y ->
  - (2 * (y - x)) <= evaluate_single y - evaluate_single x /\
  evaluate_single y - evaluate_single x <= 2 * (y - x).
Proof.
  intros Hxy.
  kernel_poly x; kernel_poly y; try lra; try nra.
Qed.

(** X3: the kernel has no jump, at the ends of the pieces or elsewhere:
    on entries where nothing overflows, two values differ by at most twice
    the distance of the points. *)
Theorem evaluate_single_continuous (x y : Q) :
  no_overflow x -> no_overflow y ->
  Qabs (evaluate_single y - evaluate_single x) <= 2 * Qabs (y - x).
Proof.
  intros _ _.
  destruct (Qlt_le_dec y x) as [L|L].
  - destruct (evaluate_single_lipschitz y x) as [A B]; [lra|].
    rewrite (Qabs_neg (y - x)) by lra.
    apply Qabs_Qle_condition. lra.
  - destruct (evaluate_single_lipschitz x y L) as [A B].
    rewrite (Qabs_pos (y - x)) by lra.
    apply Qabs_Qle_condition. lra.
Qed.

Lemma evaluate_single_continuous_witness :
  Qabs (evaluate_single 0.5 - evaluate_single 0.4375)
  <= 2 * Qabs (0.5 - 0.4375).
Proof.
  apply (evaluate_single_continuous 0.4375 0.5); closed_no_overflow.
Defined.

(** X4: the kernel derivative is an odd function and, on entries where
    nothing overflows, has no jump either: two values differ by at most
    four times the distance of the points. *)
Theorem evaluate_derivative_single_odd_continuous (x y : Q) :
  evaluate_derivative_single (- x) == - evaluate_derivative_single x /\
  (no_overflow x -> no_overflow y ->
   Qabs (evaluate_derivative_single y - evaluate_derivative_single x)
   <= 4 * Qabs (y - x)).
Proof.
  split.
  - kernel_deriv_poly x.
    + rewrite evaluate_derivative_single_closed0 by (right; lra). lra.
    + rewrite evaluate_derivative_single_closed3 by lra. lra.
    + rewrite evaluate_derivative_single_closed2 by lra. lra.
    + rewrite evaluate_derivative_single_closed1 by lra. lra.
    + rewrite evaluate_derivative_single_closed0 by (left; lra). lra.
  - intros _ _. apply Qabs_Qle_condition.
    destruct (Qlt_le_dec y x) as [L|L];
      [rewrite (Qabs_neg (y - x)) by lra | rewrite (Qabs_pos (y - x)) by lra];
      kernel_deriv_poly x; kernel_deriv_poly y; lra.
Qed.

(** X5: the kernels centred at the integers add up to 2 at every point
    (the scale the class comment announces): with [n] the integer nearest
    to [x], the three kernels centred at [n-1], [n] and [n+1] add up to 2,
    and every other one whose argument does not overflow vanishes at
    [x]. *)
Theorem evaluate_single_partition (x : Q) :
  let n := Qfloor (x + 0.5) in
  evaluate_single (x - inject_Z (n - 1)) + evaluate_single (x - inject_Z n)
    + evaluate_single (x - inject_Z (n + 1)) == 2
  /\ (forall k : Z, (k < n - 1 \/ n + 1 < k)%Z ->
        no_overflow (x - inject_Z k) ->
        evaluate_single (x - inject_Z k) == 0).
Proof.
  cbn zeta.
  pose proof (Qfloor_le (x + 0.5)) as Hlo.
  pose proof (Qlt_floor (x + 0.5)) as Hhi.
  set (n := Qfloor (x + 0.5)) in *.
  rewrite inject_Z_plus in Hhi. change (inject_Z 1) with 1 in Hhi.
  split.
  - unfold Z.sub. rewrite !inject_Z_plus.
    change (inject_Z (- (1))) with (-1). change (inject_Z 1) with 1.
    rewrite (evaluate_single_closed3 (x - (inject_Z n + -1))) by lra.
    rewrite (evaluate_single_closed2 (x - inject_Z n)) by lra.
    rewrite (evaluate_single_closed1 (x - (inject_Z n + 1))) by lra.
    ring.
  - intros k Hk _. apply evaluate_single_closed0.
    destruct Hk as [Hk|Hk].
    + right. assert (H : (k <= n - 2)%Z) by lia.
      rewrite Zle_Qle in H. unfold Z.sub in H. rewrite inject_Z_plus in H.
      change (inject_Z (- (2))) with (-2) in H. lra.
    + left. assert (H : (n + 2 <= k)%Z) by lia.
      rewrite Zle_Qle in H. rewrite inject_Z_plus in H.
      change (inject_Z 2) with 2 in H. lra.
Qed.

(** The value at [y] is off the tangent at [x] by at most twice the square
    of the step. *)
Lemma evaluate_single_taylor (x y : Q) :
  - (2 * ((y - x) * (y - x)))
  <= evaluate_single y - evaluate_single x
     - (y - x) * evaluate_derivative_single x /\
  evaluate_single y - evaluate_single x
     - (y - x) * evaluate_derivative_single x
  <= 2 * ((y - x) * (y - x)).
Proof.
  assert (Hsq : forall a : Q, 0 <= a * a) by (intros a; nra).
  specialize (Hsq (y - x)).
  kernel_poly x; kernel_deriv_poly x; try lra;
    kernel_poly y; try lra; split; first [lra | nra].
Qed.

Lemma evaluate_single_derivative_everywhere (x : Q) :
  derivative_at evaluate_single x (evaluate_derivative_single x).
Proof.
  intros eps Heps. exists (eps * 0.5). split; [lra|].
  intros h Hh Hlt.
  apply Qabs_Qlt_condition in Hlt. destruct Hlt as [Hlo Hhi].
  destruct (evaluate_single_taylor x (x + h)) as [T1 T2].
  set (D := evaluate_single (x + h) - evaluate_single x) in *.
  set (d := evaluate_derivative_single x) in *.
  assert (E : D / h - d == (D - (x + h - x) * d) / h) by (field; exact Hh).
  rewrite E.
  apply Qabs_Qlt_condition.
  destruct (Qlt_le_dec 0 h) as [P|N].
  - split.
    + apply Qlt_shift_div_l; [exact P|]. nra.
    + apply Qlt_shift_div_r; [exact P|]. nra.
  - assert (N' : h < 0) by (destruct (Qeq_dec h 0); [contradiction|lra]).
    assert (E2 : (D - (x + h - x) * d) / h
                 == (- (D - (x + h - x) * d)) / (- h))
      by (field; exact Hh).
    rewrite E2. split.
    + apply Qlt_shift_div_l; [lra|]. nra.
    + apply Qlt_shift_div_r; [lra|]. nra.
Qed.

(** X6: [evaluate_derivative_single x] is the derivative of
    [evaluate_single] at every [x] where nothing overflows, the ends of
    the pieces included. *)
Theorem evaluate_single_differentiable (x : Q) :
  no_overflow x ->
  derivative_at evaluate_single x (evaluate_derivative_single x).
Proof. intros _. apply evaluate_single_derivative_everywhere. Qed.

Lemma evaluate_single_differentiable_witness :
  derivative_at evaluate_single 0.5 (evaluate_derivative_single 0.5).
Proof.
  apply (evaluate_single_differentiable 0.5). closed_no_overflow.
Defined.

(** ** Batches of points *)

Lemma evaluate_lookup (feat : list (list Q)) (xyz : list (V3 Q))
    (feat_ids : list Z) (i : nat) (p : V3 Q) :
  xyz !! i = Some p ->
  evaluate feat xyz feat_ids !! i
  = Some (evaluate_single (c0 p) * evaluate_single (c1 p)
          * evaluate_single (c2 p)).
Proof.
  intros Hp. destruct (col_lookup xyz i p Hp) as (Hx & Hy & Hz).
  unfold evaluate.
  apply tmul_lookup; [apply tmul_lookup|];
    rewrite list_lookup_fmap; (rewrite Hx || rewrite Hy || rewrite Hz);
    reflexivity.
Qed.

Lemma evaluate_derivative_lookup (feat : list (list Q)) (xyz : list (V3 Q))
    (feat_ids : list Z) (stride : Z) (i : nat) (p : V3 Q) :
  xyz !! i = Some p ->
  evaluate_derivative feat xyz feat_ids stride !! i
  = Some (mkV3
      (evaluate_derivative_single (c0 p) / inject_Z stride
       * evaluate_single (c1 p) * evaluate_single (c2 p))
      (evaluate_single (c0 p)
       * (evaluate_derivative_single (c1 p) / inject_Z stride)
       * evaluate_single (c2 p))
      (evaluate_single (c0 p) * evaluate_single (c1 p)
       * (evaluate_derivative_single (c2 p) / inject_Z stride))).
Proof.
  intros Hp. destruct (col_lookup xyz i p Hp) as (Hx & Hy & Hz).
  unfold evaluate_derivative.
  apply stack3_lookup;
    (apply tmul_lookup; [apply tmul_lookup|]);
    rewrite list_lookup_fmap; (rewrite Hx || rewrite Hy || rewrite Hz);
    reflexivity.
Qed.

Lemma evaluate_length (feat : list (list Q)) (xyz : list (V3 Q))
    (feat_ids : list Z) (stride : Z) :
  length (evaluate feat xyz feat_ids) = length xyz /\
  length (evaluate_derivative feat xyz feat_ids stride) = length xyz.
Proof.
  unfold evaluate, evaluate_derivative, tmul, stack3, col0, col1, col2.
  repeat (rewrite length_zip_with || rewrite length_zip
          || rewrite length_fmap).
  lia.
Qed.

Lemma stride_nonzero (stride : Z) :
  stride <> 0%Z -> ~ inject_Z stride == 0.
Proof. intros Hs E. apply Hs. now apply (inject_Z_injective stride 0). Qed.

(** X7: a point with a coordinate outside [[-1.5, 1.5)], and no
    coordinate that overflows, is outside the support of the basis: its
    value is 0 and so are the three components of its gradient. *)
Theorem evaluate_outside_support (feat : list (list Q)) (xyz : list (V3 Q))
    (feat_ids : list Z) (stride : Z) (i : nat) (p : V3 Q) (c : Q) :
  stride <> 0%Z ->
  xyz !! i = Some p ->
  no_overflow (c0 p) -> no_overflow (c1 p) -> no_overflow (c2 p) ->
  c = c0 p \/ c = c1 p \/ c = c2 p ->
  c < -1.5 \/ 1.5 <= c ->
  exists v g,
    evaluate feat xyz feat_ids !! i = Some v /\ v == 0 /\
    evaluate_derivative feat xyz feat_ids stride !! i = Some g /\
    c0 g == 0 /\ c1 g == 0 /\ c2 g == 0.
Proof.
  intros Hs Hp _ _ _ Hc Hout.
  pose proof (stride_nonzero stride Hs) as Hz.
  do 2 eexists.
  split; [exact (evaluate_lookup _ _ _ _ _ Hp)|].
  split; [|split; [exact (evaluate_derivative_lookup _ _ _ _ _ _ Hp)|]].
  - destruct Hc as [-> | [-> | ->]];
      rewrite (evaluate_single_outside _ Hout); ring.
  - cbn [c0 c1 c2].
    destruct Hc as [-> | [-> | ->]];
      rewrite (evaluate_single_outside _ Hout),
        (evaluate_derivative_single_outside _ Hout);
      repeat split; field; exact Hz.
Qed.

Lemma evaluate_outside_support_witness :
  exists v g,
    evaluate [] [mkV3 0 2 0.25] [] !! 0%nat = Some v /\ v == 0 /\
    evaluate_derivative [] [mkV3 0 2 0.25] [] 4 !! 0%nat = Some g /\
    c0 g == 0 /\ c1 g == 0 /\ c2 g == 0.
Proof.
  apply (evaluate_outside_support [] [mkV3 0 2 0.25] [] 4 0
           (mkV3 0 2 0.25) 2);
    [lia | reflexivity | closed_no_overflow | closed_no_overflow
    | closed_no_overflow | right; left; reflexivity | right; lra].
Defined.

(** X8: both evaluators return one entry for every row of [xyz], and the
    gradient for a non-zero stride is the gradient for stride 1 divided by
    the stride. *)
Theorem evaluate_derivative_stride (feat : list (list Q)) (xyz : list (V3 Q))
    (feat_ids : list Z) (stride : Z) (i : nat) (p : V3 Q) :
  stride <> 0%Z ->
  xyz !! i = Some p ->
  length (evaluate feat xyz feat_ids) = length xyz /\
  length (evaluate_derivative feat xyz feat_ids stride) = length xyz /\
  exists g g1,
    evaluate_derivative feat xyz feat_ids stride !! i = Some g /\
    evaluate_derivative feat xyz feat_ids 1 !! i = Some g1 /\
    c0 g == c0 g1 / inject_Z stride /\
    c1 g == c1 g1 / inject_Z stride /\
    c2 g == c2 g1 / inject_Z stride.
Proof.
  intros Hs Hp.
  pose proof (stride_nonzero stride Hs) as Hz.
  destruct (evaluate_length feat xyz feat_ids stride) as [L1 L2].
  split; [exact L1|]. split; [exact L2|].
  do 2 eexists.
  split; [exact (evaluate_derivative_lookup _ _ _ _ _ _ Hp)|].
  split; [exact (evaluate_derivative_lookup _ _ _ _ _ _ Hp)|].
  cbn [c0 c1 c2]. change (inject_Z 1) with 1.
  repeat split; field; exact Hz.
Qed.

Lemma evaluate_derivative_stride_witness :
  length (evaluate [] [mkV3 0 1 0.25; mkV3 1 1 1] []) = 2%nat /\
  length (evaluate_derivative [] [mkV3 0 1 0.25; mkV3 1 1 1] [] 4) = 2%nat /\
  exists g g1,
    evaluate_derivative [] [mkV3 0 1 0.25; mkV3 1 1 1] [] 4 !! 1%nat = Some g /\
    evaluate_derivative [] [mkV3 0 1 0.25; mkV3 1 1 1] [] 1 !! 1%nat = Some g1 /\
    c0 g == c0 g1 / inject_Z 4 /\
    c1 g == c1 g1 / inject_Z 4 /\
    c2 g == c2 g1 / inject_Z 4.
Proof.
  apply (evaluate_derivative_stride [] [mkV3 0 1 0.25; mkV3 1 1 1] [] 4 1
           (mkV3 1 1 1));
    [lia | reflexivity].
Defined.

(** ** The gradient as a derivative *)

Lemma derivative_at_ext (f g : Q -> Q) (x d d' : Q) :
  (forall w, f w == g w) -> d == d' ->
  derivative_at f x d -> derivative_at g x d'.
Proof.
  intros Hfg Hd H eps Heps.
  destruct (H eps Heps) as (delta & Hdelta & Hlim).
  exists delta. split; [exact Hdelta|].
  intros h Hh Hlt. rewrite <- !Hfg, <- Hd. now apply Hlim.
Qed.

(** The chain rule for an argument divided by [s] and a constant factor. *)
Lemma derivative_at_chain (f : Q -> Q) (x d s c : Q) :
  (forall a b, a == b -> f a == f b) ->
  ~ s == 0 ->
  derivative_at f x d ->
  derivative_at (fun w => f (w / s) * c) (x * s) (d / s * c).
Proof.
  intros Hf Hs Hd eps Heps.
  assert (HS : 0 < Qabs s).
  { destruct (Qlt_le_dec 0 s); [rewrite Qabs_pos; lra|].
    rewrite Qabs_neg by lra.
    destruct (Qeq_dec s 0); [contradiction|lra]. }
  assert (HA : 0 <= Qabs c) by apply Qabs_nonneg.
  set (A := Qabs c) in *. set (S := Qabs s) in *.
  assert (HA1 : ~ A + 1 == 0) by lra.
  destruct (Hd (eps * S / (A + 1))) as (delta & Hdelta & Hlim).
  { apply Qlt_shift_div_l; [lra|]. nra. }
  exists (delta * S). split; [nra|].
  intros h Hh Hlt.
  assert (Hk : ~ h / s == 0).
  { intros E. apply Hh.
    assert (E' : h == h / s * s) by (field; exact Hs).
    rewrite E', E. ring. }
  assert (Hkabs : Qabs (h / s) < delta).
  { unfold Qdiv. rewrite Qabs_Qmult, Qabs_Qinv. fold S.
    apply Qlt_shift_div_r; [exact HS|]. exact Hlt. }
  specialize (Hlim (h / s) Hk Hkabs).
  rewrite (Hf ((x * s + h) / s) (x + h / s)) by (field; exact Hs).
  rewrite (Hf (x * s / s) x) by (field; exact Hs).
  set (u := (f (x + h / s) - f x) / (h / s) - d) in *.
  assert (EX : (f (x + h / s) * c - f x * c) / h - d / s * c == u * c / s).
  { subst u. field. split; assumption. }
  rewrite EX.
  assert (HB : Qabs u * (A + 1) < eps * S).
  { assert (E1 : eps * S == eps * S / (A + 1) * (A + 1))
      by (field; exact HA1).
    rewrite E1. apply Qmult_lt_compat_r; [lra|exact Hlim]. }
  pose proof (Qabs_nonneg u) as HU.
  unfold Qdiv. rewrite !Qabs_Qmult, Qabs_Qinv. fold A. fold S.
  apply Qlt_shift_div_r; [exact HS|]. nra.
Qed.

(** X9: at a point where nothing overflows, [evaluate_derivative] is the
    gradient of [evaluate] in the coordinates before the division by the
    stride: along every axis, the component is the derivative, at [stride]
    times the coordinate, of the value [evaluate] gives at the coordinate
    divided by [stride]. *)
Theorem evaluate_derivative_gradient (feat : list (list Q))
    (xyz : list (V3 Q)) (feat_ids : list Z) (stride : Z) (i : nat)
    (p g : V3 Q) :
  stride <> 0%Z ->
  xyz !! i = Some p ->
  no_overflow (c0 p) -> no_overflow (c1 p) -> no_overflow (c2 p) ->
  evaluate_derivative feat xyz feat_ids stride !! i = Some g ->
  let s := inject_Z stride in
  derivative_at
    (fun w => value_at feat feat_ids (mkV3 (w / s) (c1 p) (c2 p)))
    (c0 p * s) (c0 g) /\
  derivative_at
    (fun w => value_at feat feat_ids (mkV3 (c0 p) (w / s) (c2 p)))
    (c1 p * s) (c1 g) /\
  derivative_at
    (fun w => value_at feat feat_ids (mkV3 (c0 p) (c1 p) (w / s)))
    (c2 p * s) (c2 g).
Proof.
  intros Hs Hp _ _ _ Hg. cbn zeta.
  rewrite (evaluate_derivative_lookup _ _ _ _ _ _ Hp) in Hg.
  injection Hg as <-. cbn [c0 c1 c2].
  pose proof (stride_nonzero stride Hs) as Hz.
  pose proof evaluate_single_comp as Hcomp.
  repeat split.
  - eapply derivative_at_ext;
      [| |apply (derivative_at_chain evaluate_single (c0 p)
                   (evaluate_derivative_single (c0 p)) (inject_Z stride)
                   (evaluate_single (c1 p) * evaluate_single (c2 p))
                   Hcomp Hz (evaluate_single_derivative_everywhere _))].
    + intros w. unfold value_at. cbn. ring.
    + ring.
  - eapply derivative_at_ext;
      [| |apply (derivative_at_chain evaluate_single (c1 p)
                   (evaluate_derivative_single (c1 p)) (inject_Z stride)
                   (evaluate_single (c0 p) * evaluate_single (c2 p))
                   Hcomp Hz (evaluate_single_derivative_everywhere _))].
    + intros w. unfold value_at. cbn. ring.
    + ring.
  - eapply derivative_at_ext;
      [| |apply (derivative_at_chain evaluate_single (c2 p)
                   (evaluate_derivative_single (c2 p)) (inject_Z stride)
                   (evaluate_single (c0 p) * evaluate_single (c1 p))
                   Hcomp Hz (evaluate_single_derivative_everywhere _))].
    + intros w. unfold value_at. cbn. ring.
    + ring.
Qed.

Lemma evaluate_derivative_gradient_witness :
  derivative_at
    (fun w => value_at [] [] (mkV3 (w / inject_Z 2) 0 0.25))
    (0.5 * inject_Z 2)
    (evaluate_derivative_single 0.5 / inject_Z 2
     * evaluate_single 0 * evaluate_single 0.25) /\
  derivative_at
    (fun w => value_at [] [] (mkV3 0.5 (w / inject_Z 2) 0.25))
    (0 * inject_Z 2)
    (evaluate_single 0.5 * (evaluate_derivative_single 0 / inject_Z 2)
     * evaluate_single 0.25) /\
  derivative_at
    (fun w => value_at [] [] (mkV3 0.5 0 (w / inject_Z 2)))
    (0.25 * inject_Z 2)
    (evaluate_single 0.5 * evaluate_single 0
     * (evaluate_derivative_single 0.25 / inject_Z 2)).
Proof.
  apply (evaluate_derivative_gradient [] [mkV3 0.5 0 0.25] [] 2 0
           (mkV3 0.5 0 0.25)
           (mkV3
              (evaluate_derivative_single 0.5 / inject_Z 2
               * evaluate_single 0 * evaluate_single 0.25)
              (evaluate_single 0.5
               * (evaluate_derivative_single 0 / inject_Z 2)
               * evaluate_single 0.25)
              (evaluate_single 0.5 * evaluate_single 0
               * (evaluate_derivative_single 0.25 / inject_Z 2))));
    [lia | reflexivity | closed_no_overflow | closed_no_overflow
    | closed_no_overflow | reflexivity].
Defined.

(* ===================================================================== *)
(** * Further properties of the integrators                               *)
(* ===================================================================== *)

Lemma div_nonpos_of_neg (s t : Z) :
  (s < 0)%Z -> (s < t)%Z -> (t / s <= 0)%Z.
Proof.
  intros Hs Hst.
  pose proof (Z.div_mod t s ltac:(lia)) as E.
  pose proof (Z.mod_neg_bound t s Hs) as B.
  nia.
Qed.

(** X10: the strides the gradient-gradient integrator cannot work with,
    besides [source_stride > target_stride]: a zero source stride is a
    division by zero, and a negative source stride below the target
    stride is a domain error of the logarithm. *)
Theorem integrate_deriv_deriv_product_bad_strides {dt : dtype} (T : integrals)
    (rel_pos : list (V3 Q)) (s t : Z) :
  (s = 0%Z -> (0 <= t)%Z ->
   integrate_deriv_deriv_product T rel_pos s t = Raise ZeroDivisionError) /\
  ((s < 0)%Z -> (s < t)%Z ->
   integrate_deriv_deriv_product T rel_pos s t = Raise ValueError).
Proof.
  split.
  - intros -> Ht. unfold integrate_deriv_deriv_product.
    destruct (Z.leb_spec 0 t); [|lia]. reflexivity.
  - intros Hs Hst. unfold integrate_deriv_deriv_product.
    destruct (Z.leb_spec s t); [|lia]. cbn [assert_ bind].
    unfold floordiv. destruct (Z.eqb_spec s 0); [lia|]. cbn [bind].
    pose proof (div_nonpos_of_neg s t Hs Hst).
    unfold int_log2. destruct (Z.leb_spec (t / s) 0); [|lia]. reflexivity.
Qed.

Lemma getitem_cases {A} (l : list A) (i : Z) :
  (exists a, getitem l i = Ok a) \/ getitem l i = Raise IndexError.
Proof.
  destruct (getitem l i) as [a|e] eqn:E; [left; eauto|right].
  apply getitem_only in E. now subst.
Qed.

Lemma index_cases (row : list Q) (idx : list (V3 Z)) :
  (exists v, index row idx = Ok v) \/ index row idx = Raise IndexError.
Proof.
  destruct (index row idx) as [a|e] eqn:E; [left; eauto|right].
  apply index_only in E. now subst.
Qed.

Lemma index_cons (row : list Q) (v : V3 Z) (idx : list (V3 Z)) :
  index row (v :: idx)
  = (let! a := index row [v] in let! b := index row idx in Ok (a ++ b)).
Proof.
  unfold index. cbn [mapM].
  destruct (getitem row (c0 v)); cbn [bind]; [|reflexivity].
  destruct (getitem row (c1 v)); cbn [bind]; [|reflexivity].
  destruct (getitem row (c2 v)); cbn [bind]; [|reflexivity].
  destruct (mapM _ idx); reflexivity.
Qed.

Lemma index_singleton (row : list Q) (v : V3 Z) (a : list (V3 Q)) :
  index row [v] = Ok a -> exists x, a = [x].
Proof.
  unfold index. cbn [mapM].
  destruct (getitem row (c0 v)); cbn [bind]; [|discriminate].
  destruct (getitem row (c1 v)); cbn [bind]; [|discriminate].
  destruct (getitem row (c2 v)); cbn [bind]; [|discriminate].
  intros E. injection E as <-. eauto.
Qed.

Lemma integrate_deriv_deriv_product_cons {dt : dtype} (T : integrals) (p : V3 Q)
    (l : list (V3 Q)) (s t : Z) :
  integrate_deriv_deriv_product T (p :: l) s t
  = (let! a := integrate_deriv_deriv_product T [p] s t in
     let! b := integrate_deriv_deriv_product T l s t in
     Ok (a ++ b)).
Proof.
  unfold integrate_deriv_deriv_product.
  destruct (assert_ _); cbn [bind]; [|reflexivity].
  destruct (floordiv t s) as [mult|]; cbn [bind]; [|reflexivity].
  destruct (int_log2 mult) as [level|]; cbn [bind]; [|reflexivity].
  destruct (getitem (SHIFTED_SELF_INTEGRAL T) level) as [row|];
    cbn [bind]; [|reflexivity].
  unfold emap. cbn [fmap list_fmap].
  rewrite index_cons.
  set (f := fun r : Q =>
              round (fadd (fadd r (of_number (inject_Z (mult * 3) / 2)))
                          (of_number 0.5))).
  set (g := clamp 0 (Z.of_nat (length row) - 1)).
  destruct (index_cases row [v3map g (v3map f p)]) as [[a0 Ea]|Ea];
    rewrite Ea; cbn [bind]; [|reflexivity].
  destruct (index_singleton _ _ _ Ea) as [x ->].
  destruct (index_cases row (v3map g <$> (v3map f <$> l))) as [[b0 Eb]|Eb];
    rewrite Eb; cbn [bind].
  2:{ destruct (getitem_cases (SHIFTED_DERIVATIVE_INTEGRAL T) level)
        as [[drow Ed]|Ed]; rewrite Ed; cbn [bind]; [|reflexivity].
      destruct (index_cases drow [v3map g (v3map f p)]) as [[a1 Ea']|Ea'];
        rewrite Ea'; reflexivity. }
  destruct (getitem_cases (SHIFTED_DERIVATIVE_INTEGRAL T) level)
    as [[drow Ed]|Ed]; rewrite Ed; cbn [bind]; [|reflexivity].
  rewrite index_cons.
  destruct (index_cases drow [v3map g (v3map f p)]) as [[a1 Ea']|Ea'];
    rewrite Ea'; cbn [bind]; [|reflexivity].
  destruct (index_singleton _ _ _ Ea') as [x' ->].
  destruct (index_cases drow (v3map g <$> (v3map f <$> l))) as [[b1 Eb']|Eb'];
    rewrite Eb'; cbn [bind]; [|reflexivity].
  reflexivity.
Qed.

Lemma integrate_deriv_deriv_product_nil {dt : dtype}
    (T : integrals) (l : list (V3 Q))
    (s t : Z) :
  match integrate_deriv_deriv_product T [] s t with
  | Ok a => a = []
  | Raise e => integrate_deriv_deriv_product T l s t = Raise e
  end.
Proof.
  unfold integrate_deriv_deriv_product.
  destruct (assert_ _); cbn [bind]; [|reflexivity].
  destruct (floordiv t s) as [mult|]; cbn [bind]; [|reflexivity].
  destruct (int_log2 mult) as [level|]; cbn [bind]; [|reflexivity].
  destruct (getitem (SHIFTED_SELF_INTEGRAL T) level) as [row|];
    cbn [bind]; [|reflexivity].
  destruct (getitem_cases (SHIFTED_DERIVATIVE_INTEGRAL T) level)
    as [[drow Ed]|Ed]; rewrite Ed; cbn; [reflexivity|].
  match goal with |- context [index ?r ?i] =>
    destruct (index_cases r i) as [[a0 Ea]|Ea]; rewrite Ea end;
    reflexivity.
Qed.

(** X11: the queries of a batch do not influence one another: the call on
    two batches put end to end is the call on the first followed by the
    call on the second, with the results put end to end, and it raises
    what the first of the two raises. *)
Theorem integrate_deriv_deriv_product_app {dt : dtype} (T : integrals)
    (l1 l2 : list (V3 Q)) (s t : Z) :
  integrate_deriv_deriv_product T (l1 ++ l2) s t
  = (let! a := integrate_deriv_deriv_product T l1 s t in
     let! b := integrate_deriv_deriv_product T l2 s t in
     Ok (a ++ b)).
Proof.
  induction l1 as [|p l1 IH].
  - pose proof (integrate_deriv_deriv_product_nil T l2 s t) as N.
    cbn [app]. destruct (integrate_deriv_deriv_product T [] s t) as [a|e].
    + subst a. cbn [bind].
      now destruct (integrate_deriv_deriv_product T l2 s t).
    + exact N.
  - cbn [app]. rewrite (integrate_deriv_deriv_product_cons T p (l1 ++ l2)).
    rewrite IH. rewrite (integrate_deriv_deriv_product_cons T p l1).
    destruct (integrate_deriv_deriv_product T [p] s t) as [a|]; cbn [bind];
      [|reflexivity].
    destruct (integrate_deriv_deriv_product T l1 s t) as [b|]; cbn [bind];
      [|reflexivity].
    destruct (integrate_deriv_deriv_product T l2 s t) as [c|]; cbn [bind];
      [|reflexivity].
    now rewrite app_assoc.
Qed.

(** X12: on an empty batch, with [0 < s <= t], the call returns the empty
    result when both shifted tables have a row at the level, whatever the
    rows hold, and ends in an indexing error when one has not. *)
Theorem integrate_deriv_deriv_product_empty {dt : dtype}
    (T : integrals) (s t : Z) :
  (0 < s <= t)%Z ->
  integrate_deriv_deriv_product T [] s t
  = if has_level (SHIFTED_SELF_INTEGRAL T) (gg_level s t)
       && has_level (SHIFTED_DERIVATIVE_INTEGRAL T) (gg_level s t)
    then Ok [] else Raise IndexError.
Proof.
  intros Hst. unfold integrate_deriv_deriv_product.
  destruct (Z.leb_spec s t); [|lia]. cbn [assert_ bind].
  unfold floordiv. destruct (Z.eqb_spec s 0) as [|_]; [lia|]. cbn [bind].
  assert (Hm : (1 <= t / s)%Z) by (apply Z.div_le_lower_bound; lia).
  unfold int_log2. destruct (Z.leb_spec (t / s) 0) as [|_]; [lia|].
  cbn [bind]. fold (gg_mult s t). fold (gg_level s t).
  pose proof (Z.log2_nonneg (gg_mult s t)) as Hl. fold (gg_level s t) in Hl.
  destruct (has_level (SHIFTED_SELF_INTEGRAL T) (gg_level s t)) eqn:HS.
  - rewrite (getitem_level _ _ HS). cbn.
    destruct (has_level (SHIFTED_DERIVATIVE_INTEGRAL T) (gg_level s t))
      eqn:HD.
    + rewrite (getitem_level _ _ HD). reflexivity.
    + rewrite getitem_level_missing; [reflexivity|].
      unfold has_level in HD. apply andb_false_iff in HD.
      destruct HD as [HD|HD]; [apply Z.leb_gt in HD|apply Z.ltb_ge in HD];
        lia.
  - rewrite getitem_level_missing; [reflexivity|].
    unfold has_level in HS. apply andb_false_iff in HS.
    destruct HS as [HS|HS]; [apply Z.leb_gt in HS|apply Z.ltb_ge in HS]; lia.
Qed.

Lemma integrate_deriv_deriv_product_empty_witness :
  integrate_deriv_deriv_product sample_integrals [] 1 8
  = if has_level (SHIFTED_SELF_INTEGRAL sample_integrals) (gg_level 1 8)
       && has_level (SHIFTED_DERIVATIVE_INTEGRAL sample_integrals)
            (gg_level 1 8)
    then Ok [] else Raise IndexError.
Proof.
  apply (integrate_deriv_deriv_product_empty sample_integrals 1 8). lia.
Defined.

(** X13: the gradient-gradient integral does not depend on the order of
    the axes: exchanging two axes of every query, or rotating the three,
    leaves every entry of the result as it is. *)
Theorem integrate_deriv_deriv_product_axes {dt : dtype} (T : integrals)
    (rel_pos : list (V3 Q)) (s t : Z) :
  (0 < s <= t)%Z ->
  shifted_rows_ok T (gg_level s t) = true ->
  exists res res1 res2,
    integrate_deriv_deriv_product T rel_pos s t = Ok res /\
    integrate_deriv_deriv_product T (swap01 <$> rel_pos) s t = Ok res1 /\
    integrate_deriv_deriv_product T (rot <$> rel_pos) s t = Ok res2 /\
    Forall2 Qeq res res1 /\ Forall2 Qeq res res2.
Proof.
  intros Hst Hrows.
  exists (gg_masked_value T s t <$> rel_pos),
         (gg_masked_value T s t <$> (swap01 <$> rel_pos)),
         (gg_masked_value T s t <$> (rot <$> rel_pos)).
  repeat split; try now apply integrate_deriv_deriv_product_value.
  - rewrite <- list_fmap_compose. apply Forall2_fmap, Forall_Forall2_diag.
    apply Forall_true. intros p. unfold compose, gg_masked_value, swap01.
    cbn [c0 c1 c2]. ring.
  - rewrite <- list_fmap_compose. apply Forall2_fmap, Forall_Forall2_diag.
    apply Forall_true. intros p. unfold compose, gg_masked_value, rot.
    cbn [c0 c1 c2]. ring.
Qed.

Lemma integrate_deriv_deriv_product_axes_witness :
  exists res res1 res2,
    integrate_deriv_deriv_product sample_integrals
      [mkV3 0 1 (-1); mkV3 2 0 9] 1 1 = Ok res /\
    integrate_deriv_deriv_product sample_integrals
      (swap01 <$> [mkV3 0 1 (-1); mkV3 2 0 9]) 1 1 = Ok res1 /\
    integrate_deriv_deriv_product sample_integrals
      (rot <$> [mkV3 0 1 (-1); mkV3 2 0 9]) 1 1 = Ok res2 /\
    Forall2 Qeq res res1 /\ Forall2 Qeq res res2.
Proof.
  apply (integrate_deriv_deriv_product_axes sample_integrals
           [mkV3 0 1 (-1); mkV3 2 0 9] 1 1);
    first [reflexivity | lia].
Defined.

(** X14: the strides the constant-gradient integrator cannot work with: a
    zero stride in the divisor of its branch is a division by zero, and a
    negative stride below the other one is a domain error of the
    logarithm. *)
Theorem integrate_const_deriv_product_bad_strides {dt : dtype} (T : integrals)
    (data rel_pos : list (V3 Q)) (ds ts : Z) :
  (ds = 0%Z -> (0 <= ts)%Z ->
   integrate_const_deriv_product T data rel_pos ds ts
   = Raise ZeroDivisionError) /\
  (ts = 0%Z -> (0 < ds)%Z ->
   integrate_const_deriv_product T data rel_pos ds ts
   = Raise ZeroDivisionError) /\
  ((ds < 0)%Z -> (ds < ts)%Z ->
   integrate_const_deriv_product T data rel_pos ds ts = Raise ValueError) /\
  ((ts < 0)%Z -> (ts < ds)%Z ->
   integrate_const_deriv_product T data rel_pos ds ts = Raise ValueError).
Proof.
  unfold integrate_const_deriv_product, const_deriv_branch.
  repeat split.
  - intros -> Ht. destruct (Z.geb_spec ts 0); [|lia]. reflexivity.
  - intros -> Hd. destruct (Z.geb_spec 0 ds); [lia|]. reflexivity.
  - intros Hd Hlt. destruct (Z.geb_spec ts ds); [|lia].
    unfold floordiv. destruct (Z.eqb_spec ds 0); [lia|]. cbn [bind].
    pose proof (div_nonpos_of_neg ds ts Hd Hlt).
    unfold int_log2. destruct (Z.leb_spec (ts / ds) 0); [|lia]. reflexivity.
  - intros Hd Hlt. destruct (Z.geb_spec ts ds); [lia|].
    unfold floordiv. destruct (Z.eqb_spec ts 0); [lia|]. cbn [bind].
    pose proof (div_nonpos_of_neg ts ds Hd Hlt).
    unfold int_log2. destruct (Z.leb_spec (ds / ts) 0); [|lia]. reflexivity.
Qed.

(** X15: the constant-gradient integral is linear in the data: on the same
    queries, whose indices as the code computes them are in the rows, the
    result for [c * data1 + data2] is [c] times the result for [data1]
    plus the result for [data2], entry by entry. *)
Theorem integrate_const_deriv_product_linear {dt : dtype} (T : integrals)
    (data1 data2 rel_pos : list (V3 Q)) (ds ts : Z) (c : Q) :
  (0 < ds)%Z -> (0 < ts)%Z ->
  cg_rows_ok T ds ts = true ->
  length data1 = length rel_pos ->
  length data2 = length rel_pos ->
  Forall (in_bounds (length (cg_plain_row T ds ts)))
         (cg_indices ds ts rel_pos) ->
  Forall (in_bounds (length (cg_deriv_row T ds ts)))
         (cg_indices ds ts rel_pos) ->
  exists r1 r2 r,
    integrate_const_deriv_product T data1 rel_pos ds ts = Ok r1 /\
    integrate_const_deriv_product T data2 rel_pos ds ts = Ok r2 /\
    integrate_const_deriv_product T (axpy c data1 data2) rel_pos ds ts
    = Ok r /\
    length r = length rel_pos /\
    forall i v1 v2, r1 !! i = Some v1 -> r2 !! i = Some v2 ->
      exists v, r !! i = Some v /\ v == c * v1 + v2.
Proof.
  intros Hds Hts Hrows L1 L2 HP HD.
  assert (L : length (axpy c data1 data2) = length rel_pos).
  { unfold axpy. rewrite length_zip_with. lia. }
  do 3 eexists.
  split; [now apply integrate_const_deriv_product_value|].
  split; [now apply integrate_const_deriv_product_value|].
  split; [now apply integrate_const_deriv_product_value|].
  split; [rewrite length_zip_with; lia|].
  intros i v1 v2 H1 H2.
  rewrite lookup_zip_with in H1, H2 |- *.
  destruct (data1 !! i) as [d1|] eqn:E1; [|discriminate].
  destruct (data2 !! i) as [d2|] eqn:E2; [|discriminate].
  destruct (rel_pos !! i) as [p|] eqn:E3; [|discriminate].
  cbn in H1, H2. injection H1 as <-. injection H2 as <-.
  unfold axpy. rewrite lookup_zip_with, E1, E2. cbn.
  eexists. split; [reflexivity|].
  unfold cg_wrapped_value, v3zip. cbn [c0 c1 c2]. ring.
Qed.

(** The bounds of a closed index tensor, decided by evaluation. *)
Ltac closed_in_bounds := repeat constructor; vm_compute; easy.

Lemma integrate_const_deriv_product_linear_witness :
  exists r1 r2 r,
    integrate_const_deriv_product sample_integrals
      [mkV3 1 2 3; mkV3 0 1 0] [mkV3 0 (-2) 1; mkV3 1 1 1] 1 2 = Ok r1 /\
    integrate_const_deriv_product sample_integrals
      [mkV3 4 5 6; mkV3 1 0 1] [mkV3 0 (-2) 1; mkV3 1 1 1] 1 2 = Ok r2 /\
    integrate_const_deriv_product sample_integrals
      (axpy 3 [mkV3 1 2 3; mkV3 0 1 0] [mkV3 4 5 6; mkV3 1 0 1])
      [mkV3 0 (-2) 1; mkV3 1 1 1] 1 2 = Ok r /\
    length r = 2%nat /\
    forall i v1 v2, r1 !! i = Some v1 -> r2 !! i = Some v2 ->
      exists v, r !! i = Some v /\ v == 3 * v1 + v2.
Proof.
  apply (integrate_const_deriv_product_linear sample_integrals
           [mkV3 1 2 3; mkV3 0 1 0] [mkV3 4 5 6; mkV3 1 0 1]
           [mkV3 0 (-2) 1; mkV3 1 1 1] 1 2 3);
    first [reflexivity | lia | closed_in_bounds].
Defined.

(** X16: with the indices of the queries, as the code computes them, in
    the rows, a data tensor of one row is used for every query of the
    batch; a data tensor whose number of rows is neither 1 nor the number
    of queries, the latter not being 1, makes the call fail on the first
    product. *)
Theorem integrate_const_deriv_product_broadcast {dt : dtype} (T : integrals)
    (data rel_pos : list (V3 Q)) (ds ts : Z) :
  (0 < ds)%Z -> (0 < ts)%Z ->
  cg_rows_ok T ds ts = true ->
  Forall (in_bounds (length (cg_plain_row T ds ts)))
         (cg_indices ds ts rel_pos) ->
  Forall (in_bounds (length (cg_deriv_row T ds ts)))
         (cg_indices ds ts rel_pos) ->
  (forall d, data = [d] ->
     integrate_const_deriv_product T data rel_pos ds ts
     = Ok (cg_wrapped_value T ds ts d <$> rel_pos)) /\
  (length data <> length rel_pos -> length data <> 1%nat ->
   length rel_pos <> 1%nat ->
   integrate_const_deriv_product T data rel_pos ds ts = Raise RuntimeError).
Proof.
  intros Hds Hts Hrows HP HD.
  unfold integrate_const_deriv_product.
  rewrite const_deriv_branch_value by assumption.
  cbn [bind br_abs_val br_dpi br_pi br_data_stride br_i_mult].
  rewrite (index_wrapped _ _ HP). cbn [bind].
  rewrite (index_wrapped _ _ HD). cbn [bind].
  unfold cg_indices, emap, col0, col1, col2.
  rewrite <- !list_fmap_compose.
  split.
  - intros d ->. cbn [fmap list_fmap].
    destruct (decide (length rel_pos = 1%nat)) as [E|N].
    + destruct rel_pos as [|p [|q l]]; try discriminate. reflexivity.
    + assert (B : forall (x : Q) (g : V3 Q -> Q),
                bmul [x] (g <$> rel_pos)
                = Ok ((fun p => x * g p) <$> rel_pos)).
      { intros x g. unfold bmul. rewrite length_fmap.
        cbn [length]. destruct (Nat.eqb_spec 1 (length rel_pos)); [lia|].
        now rewrite <- list_fmap_compose. }
      rewrite !B. cbn [bind].
      repeat (rewrite bmul_fmap_same; cbn [bind]).
      f_equal. unfold tadd. rewrite !zip_with_fmap_same.
      apply list_fmap_ext. intros _ p _. reflexivity.
  - intros N N1 N2. unfold bmul at 1. rewrite !length_fmap.
    destruct (Nat.eqb_spec (length data) (length rel_pos)); [lia|].
    destruct data as [|d [|d' data]]; cbn [fmap list_fmap length] in *;
      try lia;
      destruct rel_pos as [|p [|p' rel_pos]];
      cbn [fmap list_fmap length] in *;
      try lia; reflexivity.
Qed.

Lemma integrate_const_deriv_product_broadcast_witness :
  (forall d, [mkV3 1 2 3] = [d] ->
     integrate_const_deriv_product sample_integrals [mkV3 1 2 3]
       [mkV3 0 (-2) 1; mkV3 1 1 1; mkV3 0 0 0] 1 2
     = Ok (cg_wrapped_value sample_integrals 1 2 d
             <$> [mkV3 0 (-2) 1; mkV3 1 1 1; mkV3 0 0 0])) /\
  (length [mkV3 1 2 3]
     <> length [mkV3 0 (-2) 1; mkV3 1 1 1; mkV3 0 0 0] ->
   length [mkV3 1 2 3] <> 1%nat ->
   length [mkV3 0 (-2) 1; mkV3 1 1 1; mkV3 0 0 0] <> 1%nat ->
   integrate_const_deriv_product sample_integrals [mkV3 1 2 3]
     [mkV3 0 (-2) 1; mkV3 1 1 1; mkV3 0 0 0] 1 2 = Raise RuntimeError).
Proof.
  apply (integrate_const_deriv_product_broadcast sample_integrals
           [mkV3 1 2 3] [mkV3 0 (-2) 1; mkV3 1 1 1; mkV3 0 0 0] 1 2);
    first [reflexivity | lia | closed_in_bounds].
Defined.

Lemma getitem_minus_one {A} (l : list A) :
  getitem l (-1)
  = match last l with Some a => Ok a | None => Raise IndexError end.
Proof.
  unfold getitem. change (-1 <? 0)%Z with true. cbn match.
  rewrite last_lookup.
  destruct l as [|a l].
  - reflexivity.
  - destruct (Z.leb_spec 0 (-1 + Z.of_nat (length (a :: l)))) as [_|H];
      [|cbn [length] in H; lia].
    destruct (Z.ltb_spec (-1 + Z.of_nat (length (a :: l)))
                (Z.of_nat (length (a :: l)))) as [_|H]; [|lia].
    cbn [andb].
    replace (Z.to_nat (-1 + Z.of_nat (length (a :: l))))
      with (Nat.pred (length (a :: l))) by (cbn [length]; lia).
    destruct ((a :: l) !! Nat.pred (length (a :: l))) eqn:E; [reflexivity|].
    apply lookup_ge_None in E. cbn [length] in E. lia.
Qed.

(** X17: with [target_stride < data_stride < 2 * target_stride] the
    quotient of the strides is 1, the level is [-1], and the branch takes
    the last row of each inverse table, with the strides exchanged and
    the indices of the inverse branch, computed in the type of [rel_pos];
    it ends in an indexing error only when one of the tables is empty. *)
Theorem const_deriv_branch_level_wraps {dt : dtype} (T : integrals)
    (rel_pos : list (V3 Q)) (ds ts : Z) :
  (0 < ts < ds)%Z -> (ds < 2 * ts)%Z ->
  cg_mult ds ts = 1%Z /\ cg_level ds ts = (-1)%Z /\
  const_deriv_branch T rel_pos ds ts
  = match last (INV_DERIVATIVE_PARTIAL_INTEGRAL T),
          last (INV_PARTIAL_INTEGRAL T) with
    | Some dpi, Some pi =>
        Ok (mkBranch (cg_indices ds ts rel_pos) dpi pi ts ds 1)
    | _, _ => Raise IndexError
    end.
Proof.
  intros H1 H2.
  assert (F : forward ds ts = false).
  { unfold forward. destruct (Z.geb_spec ts ds); [lia|reflexivity]. }
  assert (E : (ds / ts = 1)%Z).
  { symmetry. apply (Z.div_unique_pos ds ts 1 (ds - ts)); lia. }
  split; [unfold cg_mult; now rewrite F|].
  split; [unfold cg_level, cg_mult; rewrite F, E; reflexivity|].
  unfold const_deriv_branch. fold (forward ds ts). rewrite F.
  unfold floordiv. destruct (Z.eqb_spec ts 0); [lia|]. cbn [bind].
  rewrite (cg_indices_code_inverse ds ts rel_pos F).
  rewrite E.
  cbn [int_log2 Z.leb Z.compare bind Z.log2 Z.sub Z.add Z.opp Z.pos_sub].
  rewrite !getitem_minus_one.
  destruct (last (INV_DERIVATIVE_PARTIAL_INTEGRAL T)); cbn [bind];
    [|reflexivity].
  destruct (last (INV_PARTIAL_INTEGRAL T)); reflexivity.
Qed.

Lemma const_deriv_branch_level_wraps_witness :
  cg_mult 3 2 = 1%Z /\ cg_level 3 2 = (-1)%Z /\
  const_deriv_branch sample_integrals [mkV3 0 1 (-1)] 3 2
  = match last (INV_DERIVATIVE_PARTIAL_INTEGRAL sample_integrals),
          last (INV_PARTIAL_INTEGRAL sample_integrals) with
    | Some dpi, Some pi =>
        Ok (mkBranch (cg_indices 3 2 [mkV3 0 1 (-1)]) dpi pi 2 3 1)
    | _, _ => Raise IndexError
    end.
Proof.
  apply (const_deriv_branch_level_wraps sample_integrals [mkV3 0 1 (-1)] 3 2);
    lia.
Defined.

(* ===================================================================== *)
(** * Further properties of the random-safe dataset                       *)
(* ===================================================================== *)

Lemma adler32_fold_bounds (bytes : list Z) (ab : Z * Z) :
  (0 <= fst ab < 65521)%Z -> (0 <= snd ab < 65521)%Z ->
  let r := fold_left (fun (ab : Z * Z) (x : Z) =>
                 let a' := ((fst ab + x) mod 65521)%Z in
                 (a', ((snd ab + a') mod 65521)%Z)) bytes ab in
  (0 <= fst r < 65521)%Z /\ (0 <= snd r < 65521)%Z.
Proof.
  revert ab. induction bytes as [|x bytes IH]; intros ab Ha Hb; cbn.
  - auto.
  - apply IH; cbn; apply Z.mod_pos_bound; lia.
Qed.

Lemma adler32_range (bytes : list Z) :
  (0 <= Dataset.adler32 bytes < 2 ^ 32)%Z.
Proof.
  unfold Dataset.adler32.
  generalize (adler32_fold_bounds bytes (1, 0)%Z). cbn zeta. cbn [fst snd].
  destruct (fold_left _ bytes (1, 0)%Z) as [a b]. cbn [fst snd].
  intros H. destruct H as [Ha Hb]; [lia|lia|].
  change (2 ^ 32)%Z with 4294967296%Z. lia.
Qed.

(** X18: a hash is an unsigned 32-bit integer, whatever is hashed. *)
Theorem deterministic_hash_range (data : Z * Z * Z) :
  (0 <= Dataset.deterministic_hash data < 2 ^ 32)%Z.
Proof. unfold Dataset.deterministic_hash. apply adler32_range. Qed.

Section RandomSafeDatasetInvariants.

Import Dataset.

Variable sample : Type.
Variable rng : Type.
Variable seed_rng : Z -> rng.
Variable draw : rng -> Z -> Z -> Z * rng.
Variable _get_item : Z -> rng -> result sample * rng.
Variable len : Z.

Local Abbreviation getitem_ :=
  (__getitem__ sample rng seed_rng draw _get_item len).
Local Abbreviation get_rng_ := (get_rng rng seed_rng).

Lemma RandomState_hash (data : Z * Z * Z) :
  RandomState rng seed_rng (deterministic_hash data)
  = Ok (seed_rng (deterministic_hash data)).
Proof.
  unfold RandomState.
  pose proof (adler32_range
                ((fun c => Z.of_nat (Ascii.nat_of_ascii c))
                   <$> String.list_ascii_of_string (json_dumps data)))
    as [H0 H1].
  fold (deterministic_hash data) in H0, H1.
  destruct (Z.leb_spec 0 (deterministic_hash data)); [|lia].
  destruct (Z.ltb_spec (deterministic_hash data) (2 ^ 32)); [|lia].
  reflexivity.
Qed.

Lemma get_rng_training (self : dataset) (idx : Z) :
  _is_val self = false ->
  exists self',
    get_rng_ self idx
    = (Ok (seed_rng (deterministic_hash
                       (idx, default 0%Z (_read_count self !! idx),
                        _seed self))), self') /\
    _read_count self' !! idx
    = Some (default 0%Z (_read_count self !! idx) + 1)%Z /\
    (forall j, j <> idx -> _read_count self' !! j = _read_count self !! j) /\
    _seed self' = _seed self /\ _is_val self' = false /\
    skip_on_error self' = skip_on_error self.
Proof.
  intros Hval. unfold get_rng. rewrite Hval.
  destruct (_read_count self !! idx) as [n|] eqn:E; cbn [default].
  - rewrite E. cbn [default]. rewrite RandomState_hash.
    eexists. split; [reflexivity|]. cbn.
    rewrite lookup_insert_eq. repeat split; try assumption.
    intros j Hj. now rewrite lookup_insert_ne.
  - rewrite lookup_insert_eq. cbn [default]. rewrite RandomState_hash.
    eexists. split; [reflexivity|]. cbn.
    rewrite lookup_insert_eq. repeat split; try assumption.
    intros j Hj. rewrite !lookup_insert_ne by congruence. reflexivity.
Qed.

(** X19: in training mode [get_rng] never raises: it seeds the generator
    with the hash of the index, of the number [n] of earlier reads of the
    index and of the seed, sets the read count of the index to [n + 1],
    and leaves the counts of the other indices, the seed and the flags as
    they are. *)
Theorem get_rng_counts (self : dataset) (idx : Z) :
  _is_val self = false ->
  let n := default 0%Z (_read_count self !! idx) in
  exists self',
    get_rng_ self idx
    = (Ok (seed_rng (deterministic_hash (idx, n, _seed self))), self') /\
    _read_count self' !! idx = Some (n + 1)%Z /\
    (forall j, j <> idx -> _read_count self' !! j = _read_count self !! j) /\
    _seed self' = _seed self /\ _is_val self' = false /\
    skip_on_error self' = skip_on_error self.
Proof. intros Hval. cbn zeta. now apply get_rng_training. Qed.

Lemma get_rng_validation (self : dataset) (idx : Z) :
  _is_val self = true ->
  get_rng_ self idx = (RandomState rng seed_rng (_seed self), self).
Proof. intros H. unfold get_rng. now rewrite H. Qed.

Lemma get_rng_seeded (self : dataset) (idx : Z) :
  seeded self ->
  exists r self',
    get_rng_ self idx = (Ok r, self') /\ seeded self' /\
    skip_on_error self' = skip_on_error self.
Proof.
  intros Hs. destruct (_is_val self) eqn:Hval.
  - destruct Hs as [Hs|Hs]; [congruence|].
    unfold get_rng. rewrite Hval. unfold RandomState.
    destruct (Z.leb_spec 0 (_seed self)); [|lia].
    destruct (Z.ltb_spec (_seed self) (2 ^ 32)); [|lia].
    do 2 eexists. split; [reflexivity|]. split; [now right|reflexivity].
  - destruct (get_rng_training self idx Hval)
      as (self' & E & _ & _ & _ & Hval' & Hskip).
    do 2 eexists. split; [exact E|]. split; [now left|exact Hskip].
Qed.

(** One frame of [__getitem__] when the fetch fails. *)
Lemma getitem_step (depth : nat) (self self' : dataset) (data_id : Z)
    (r r' : rng) (e : exn) :
  get_rng_ self data_id = (Ok r, self') ->
  skip_on_error self' = skip_on_error self ->
  _get_item data_id r = (Raise e, r') ->
  getitem_ (S depth) self data_id =
    if retried self e then
      match randint rng draw r' 0 (len - 1) with
      | (Ok other, _) => getitem_ depth self' other
      | (Raise e', _) => (Raise e', self')
      end
    else (Raise e, self').
Proof.
  intros Hrng Hskip Hget. cbn [__getitem__].
  rewrite Hrng, Hget, Hskip. unfold retried.
  destruct (skip_on_error self), (exn_eqb e ConnectionAbortedError),
    (is_Exception e); reflexivity.
Qed.

(** X20: with [skip_on_error] set, every exception of [_get_item] that
    derives from [Exception] is answered by the fetch of another index,
    drawn from the generator [_get_item] was given; only an exception
    outside [Exception] reaches the caller. *)
Theorem getitem_skip_enabled_general (depth : nat) (self self' : dataset)
    (data_id : Z) (r r' : rng) (e : exn) :
  skip_on_error self = true ->
  get_rng_ self data_id = (Ok r, self') ->
  _get_item data_id r = (Raise e, r') ->
  (e <> KeyboardInterrupt ->
   getitem_ (S depth) self data_id =
     match randint rng draw r' 0 (len - 1) with
     | (Ok other, _) => getitem_ depth self' other
     | (Raise e', _) => (Raise e', self')
     end) /\
  (e = KeyboardInterrupt ->
   getitem_ (S depth) self data_id = (Raise e, self')).
Proof.
  intros Hskip Hrng Hget.
  pose proof (get_rng_skip_on_error _ _ _ _ _ _ Hrng) as Hskip'.
  rewrite (getitem_step depth _ _ _ _ _ _ Hrng Hskip' Hget).
  unfold retried. rewrite Hskip.
  split; intros He; destruct e; try reflexivity; congruence.
Qed.

(** X21: in a dataset of at most one item there is no other index to
    draw: a failure that would be retried ends in the [ValueError] of
    [randint(0, len - 1)], not in the error of the fetch. *)
Theorem getitem_small_dataset (depth : nat) (self self' : dataset)
    (data_id : Z) (r r' : rng) (e : exn) :
  (len <= 1)%Z ->
  get_rng_ self data_id = (Ok r, self') ->
  _get_item data_id r = (Raise e, r') ->
  retried self e = true ->
  getitem_ (S depth) self data_id = (Raise ValueError, self').
Proof.
  intros Hlen Hrng Hget Hre.
  pose proof (get_rng_skip_on_error _ _ _ _ _ _ Hrng) as Hskip'.
  rewrite (getitem_step depth _ _ _ _ _ _ Hrng Hskip' Hget), Hre.
  unfold randint. destruct (Z.ltb_spec 0 (len - 1)); [lia|]. reflexivity.
Qed.

(** X22: the index fetched in place of a failing one is drawn from
    [[0, len - 1)]: the last item of the dataset is never the substitute.
    The draw of [randint(lo, hi)] is taken to be in [[lo, hi)]. *)
Theorem getitem_substitute_range (depth : nat) (self self' : dataset)
    (data_id : Z) (r r' : rng) (e : exn) :
  (forall g lo hi, (lo < hi)%Z -> (lo <= fst (draw g lo hi) < hi)%Z) ->
  (1 < len)%Z ->
  get_rng_ self data_id = (Ok r, self') ->
  _get_item data_id r = (Raise e, r') ->
  retried self e = true ->
  exists other,
    (0 <= other < len - 1)%Z /\
    getitem_ (S depth) self data_id = getitem_ depth self' other.
Proof.
  intros Hdraw Hlen Hrng Hget Hre.
  pose proof (get_rng_skip_on_error _ _ _ _ _ _ Hrng) as Hskip'.
  rewrite (getitem_step depth _ _ _ _ _ _ Hrng Hskip' Hget), Hre.
  unfold randint. destruct (Z.ltb_spec 0 (len - 1)); [|lia].
  eexists. split; [|reflexivity]. apply Hdraw. lia.
Qed.

(** X23: when every fetch fails with [ConnectionAbortedError], in a
    dataset of two items or more whose generator can be seeded,
    [__getitem__] retries until the recursion limit and ends in
    [RecursionError], whatever the limit. *)
Theorem getitem_always_failing (depth : nat) (self : dataset)
    (data_id : Z) :
  (forall i g, fst (_get_item i g) = Raise ConnectionAbortedError) ->
  (1 < len)%Z ->
  seeded self ->
  fst (getitem_ depth self data_id) = Raise RecursionError.
Proof.
  intros Hfail Hlen. revert self data_id.
  induction depth as [|depth IH]; intros self data_id Hs; [reflexivity|].
  destruct (get_rng_seeded self data_id Hs)
    as (r & self' & Hrng & Hs' & Hskip).
  destruct (_get_item data_id r) as [res r'] eqn:Hget.
  pose proof (Hfail data_id r) as Hres. rewrite Hget in Hres.
  cbn [fst] in Hres. subst res.
  rewrite (getitem_step depth _ _ _ _ _ _ Hrng Hskip Hget).
  unfold retried. cbn [exn_eqb orb].
  unfold randint. destruct (Z.ltb_spec 0 (len - 1)); [|lia].
  apply IH. exact Hs'.
Qed.

(** X24: in validation mode [__getitem__] leaves the dataset as it is,
    whatever is fetched, retried or raised. *)
Theorem getitem_validation_state (depth : nat) (self : dataset)
    (data_id : Z) :
  _is_val self = true ->
  snd (getitem_ depth self data_id) = self.
Proof.
  revert self data_id.
  induction depth as [|depth IH]; intros self data_id Hval; [reflexivity|].
  cbn [__getitem__]. rewrite (get_rng_validation self data_id Hval).
  destruct (RandomState rng seed_rng (_seed self)) as [r|e]; [|reflexivity].
  destruct (_get_item data_id r) as [[s|e] r']; [reflexivity|].
  destruct (skip_on_error self), (exn_eqb e ConnectionAbortedError),
    (is_Exception e); try reflexivity;
    destruct (randint rng draw r' 0 (len - 1)) as [[other|e'] ?];
    try reflexivity; now apply IH.
Qed.

End RandomSafeDatasetInvariants.

Lemma get_rng_counts_witness :
  let self := Dataset.mkDataset 7 false false (<[0%Z := 5%Z]> ∅) in
  let n := default 0%Z (Dataset._read_count self !! 0%Z) in
  exists self',
    Dataset.get_rng Z (fun seed => seed) self 0
    = (Ok (Dataset.deterministic_hash (0, n, Dataset._seed self)%Z), self') /\
    Dataset._read_count self' !! 0%Z = Some (n + 1)%Z /\
    (forall j, j <> 0%Z ->
       Dataset._read_count self' !! j = Dataset._read_count self !! j) /\
    Dataset._seed self' = Dataset._seed self /\
    Dataset._is_val self' = false /\
    Dataset.skip_on_error self' = Dataset.skip_on_error self.
Proof.
  apply (get_rng_counts Z (fun seed => seed)
           (Dataset.mkDataset 7 false false (<[0%Z := 5%Z]> ∅)) 0).
  reflexivity.
Defined.

Lemma getitem_skip_enabled_general_witness :
  (ValueError <> KeyboardInterrupt ->
   demo_getitem ValueError true 0 =
     match
       Dataset.randint Z demo_draw (Dataset.deterministic_hash (0, 0, 7)%Z)
         0 (3 - 1)
     with
     | (Ok other, _) =>
         Dataset.__getitem__ Z Z (fun seed => seed) demo_draw
           (demo_get_item ValueError) 3 9
           (Dataset.mkDataset 7 false true (<[0%Z := 1%Z]> ∅)) other
     | (Raise e', _) =>
         (Raise e', Dataset.mkDataset 7 false true (<[0%Z := 1%Z]> ∅))
     end) /\
  (ValueError = KeyboardInterrupt ->
   demo_getitem ValueError true 0
   = (Raise ValueError,
      Dataset.mkDataset 7 false true (<[0%Z := 1%Z]> ∅))).
Proof.
  apply (getitem_skip_enabled_general Z Z (fun seed => seed) demo_draw
           (demo_get_item ValueError) 3 9 (demo_dataset true)
           (Dataset.mkDataset 7 false true (<[0%Z := 1%Z]> ∅)) 0%Z
           (Dataset.deterministic_hash (0, 0, 7)%Z)
           (Dataset.deterministic_hash (0, 0, 7)%Z) ValueError);
    reflexivity.
Defined.

Lemma getitem_small_dataset_witness :
  Dataset.__getitem__ Z Z (fun seed => seed) demo_draw
    (demo_get_item ConnectionAbortedError) 1 5 (demo_dataset false) 0
  = (Raise ValueError,
     Dataset.mkDataset 7 false false (<[0%Z := 1%Z]> ∅)).
Proof.
  apply (getitem_small_dataset Z Z (fun seed => seed) demo_draw
           (demo_get_item ConnectionAbortedError) 1 4 (demo_dataset false)
           (Dataset.mkDataset 7 false false (<[0%Z := 1%Z]> ∅)) 0%Z
           (Dataset.deterministic_hash (0, 0, 7)%Z)
           (Dataset.deterministic_hash (0, 0, 7)%Z) ConnectionAbortedError);
    first [reflexivity | lia].
Defined.

Lemma getitem_substitute_range_witness :
  exists other,
    (0 <= other < 3 - 1)%Z /\
    demo_getitem ConnectionAbortedError false 0
    = Dataset.__getitem__ Z Z (fun seed => seed) demo_draw
        (demo_get_item ConnectionAbortedError) 3 9
        (Dataset.mkDataset 7 false false (<[0%Z := 1%Z]> ∅)) other.
Proof.
  apply (getitem_substitute_range Z Z (fun seed => seed) demo_draw
           (demo_get_item ConnectionAbortedError) 3 9 (demo_dataset false)
           (Dataset.mkDataset 7 false false (<[0%Z := 1%Z]> ∅)) 0%Z
           (Dataset.deterministic_hash (0, 0, 7)%Z)
           (Dataset.deterministic_hash (0, 0, 7)%Z) ConnectionAbortedError);
    first [reflexivity | lia | idtac].
  intros g lo hi H. unfold demo_draw. cbn [fst].
  pose proof (Z.mod_pos_bound (g + 1) (hi - lo)). lia.
Defined.

Lemma getitem_always_failing_witness :
  fst (Dataset.__getitem__ Z Z (fun seed => seed) demo_draw
         (fun _ g => (Raise ConnectionAbortedError, g)) 3 25
         (demo_dataset false) 0)
  = Raise RecursionError.
Proof.
  apply (getitem_always_failing Z Z (fun seed => seed) demo_draw
           (fun _ g => (Raise ConnectionAbortedError, g)) 3 25
           (demo_dataset false) 0).
  - intros i g. reflexivity.
  - lia.
  - left. reflexivity.
Defined.

Lemma getitem_validation_state_witness :
  snd (Dataset.__getitem__ Z Z (fun seed => seed) demo_draw
         (demo_get_item ValueError) 3 10
         (Dataset.mkDataset 7 true true ∅) 0)
  = Dataset.mkDataset 7 true true ∅.
Proof.
  apply (getitem_validation_state Z Z (fun seed => seed) demo_draw
           (demo_get_item ValueError) 3 10
           (Dataset.mkDataset 7 true true ∅) 0).
  reflexivity.
Defined.

(* ===================================================================== *)
(** * Properties of list_collate                                          *)
(* ===================================================================== *)

Section ListCollateProperties.

Import Collate.

Variable tensor : Type.
Variable ndarray : Type.
Variable npscalar : Type.
Variable npobject : Type.
Variable object : Type.

Local Abbreviation value := (value tensor ndarray npscalar npobject object).

Variable as_tensor : value -> outcome tensor.
Variable torch_tensor : value -> outcome tensor.
Variable torch_tensor_float64 : value -> outcome tensor.
Variable opaque_getitem : value -> String.string -> outcome value.
Variable opaque_len : value -> outcome nat.
Variable opaque_iter : value -> outcome (list value).

Local Abbreviation collate :=
  (list_collate tensor ndarray npscalar npobject object as_tensor
     torch_tensor torch_tensor_float64 opaque_getitem opaque_len opaque_iter).
Local Abbreviation len_ :=
  (len tensor ndarray npscalar npobject object opaque_len).
Local Abbreviation check_sizes_ :=
  (check_sizes tensor ndarray npscalar npobject object opaque_len).
Local Abbreviation items_ :=
  (items tensor ndarray npscalar npobject object opaque_iter).
Local Abbreviation subscript_ :=
  (subscript tensor ndarray npscalar npobject object opaque_getitem).
Local Abbreviation VT := (VTensor tensor ndarray npscalar npobject object).
Local Abbreviation VS := (VSeq tensor ndarray npscalar npobject object).
Local Abbreviation sequences_ :=
  (sequences tensor ndarray npscalar npobject object).
Local Abbreviation tensor_rows_ :=
  (tensor_rows tensor ndarray npscalar npobject object).
Local Abbreviation tensor_tuples_ :=
  (tensor_tuples tensor ndarray npscalar npobject object).

Lemma each_return {A B} (f : A -> outcome B) (g : A -> B) (l : list A) :
  Forall (fun a => f a = Return (g a)) l -> each f l = Return (g <$> l).
Proof.
  induction 1 as [|a l Ha _ IH]; [reflexivity|].
  cbn. rewrite Ha. cbn. rewrite IH. reflexivity.
Qed.

Lemma each_throw {A B} (f : A -> outcome B) (e : error) (l : list A) :
  Forall (fun a => (exists b, f a = Return b) \/ f a = Throw e) l ->
  Exists (fun a => f a = Throw e) l ->
  each f l = Throw e.
Proof.
  intros D. induction 1 as [a l Ha|a l _ IH]; cbn.
  - now rewrite Ha.
  - destruct (Forall_inv D) as [[b Hb]|Ha]; [|now rewrite Ha].
    rewrite Hb. cbn. rewrite (IH (Forall_inv_tail D)). reflexivity.
Qed.

(** A batch of tensors, not empty, comes back as it is, a list as a list
    and a tuple as a tuple. *)
Lemma collate_tensors (depth : nat) (k : kind) (ts : list tensor) :
  ts <> [] ->
  collate (S depth) k (VT <$> ts) = Return (VS k (VT <$> ts)).
Proof. destruct ts as [|t ts]; [congruence|]. reflexivity. Qed.

Lemma check_sizes_ragged (m : nat) (rows : list (kind * list value)) :
  Exists (fun r => length (snd r) <> m) rows ->
  check_sizes_ m (sequences_ rows) = Throw (Builtin RuntimeError).
Proof.
  induction rows as [|[k l] rows IH]; intros H; [inversion H|].
  cbn. destruct (Nat.eqb_spec (length l) m) as [E|N]; [|reflexivity].
  apply IH. inversion H; subst; [contradiction|assumption].
Qed.

(** X25: a batch of sequences one of which has another length than the
    first is refused with the [RuntimeError] of the size check, whatever
    the sequences hold and whichever are lists or tuples. *)
Theorem list_collate_ragged (depth : nat) (k : kind)
    (first : kind * list value) (rest : list (kind * list value)) :
  Exists (fun r => length (snd r) <> length (snd first)) rest ->
  list_collate tensor ndarray npscalar npobject object as_tensor
      torch_tensor torch_tensor_float64 opaque_getitem opaque_len
      opaque_iter
      (S depth) k (sequences_ (first :: rest))
  = Throw (Builtin RuntimeError).
Proof.
  intros H. destruct first as [k0 l0]. cbn [snd] in H.
  change (sequences_ ((k0, l0) :: rest))
    with (VS k0 l0 :: sequences_ rest).
  cbn [list_collate first_not_none len and_then].
  now rewrite (check_sizes_ragged _ _ H).
Qed.

Lemma omap_lookup_fmap {A B} (f : A -> B) (rows : list (list A)) (j : nat) :
  omap (fun r : list B => r !! j) (fmap (M:=list) f <$> rows)
  = f <$> omap (fun r : list A => r !! j) rows.
Proof.
  induction rows as [|r rows IH]; [reflexivity|].
  cbn. rewrite list_lookup_fmap. destruct (r !! j); cbn; now rewrite IH.
Qed.

Lemma omap_total {A B} (f : A -> option B) (l : list A) (i : nat) :
  Forall (fun a => is_Some (f a)) l ->
  omap f l !! i = l !! i ≫= f.
Proof.
  intros H. revert i. induction H as [|a l [b Hb] _ IH]; intros i.
  - reflexivity.
  - cbn. rewrite Hb. destruct i as [|i]; cbn; [now rewrite Hb|apply IH].
Qed.

Lemma omap_total_length {A B} (f : A -> option B) (l : list A) :
  Forall (fun a => is_Some (f a)) l -> length (omap f l) = length l.
Proof.
  induction 1 as [|a l [b Hb] _ IH]; [reflexivity|].
  cbn. rewrite Hb. cbn. now rewrite IH.
Qed.

Lemma rows_have_column {A} (m j : nat) (rows : list (list A)) :
  (j < m)%nat -> Forall (fun r => length r = m) rows ->
  Forall (fun r => is_Some (r !! j)) rows.
Proof.
  intros Hj H. eapply Forall_impl; [exact H|]. intros r Hr.
  apply lookup_lt_is_Some. cbn in Hr. lia.
Qed.

Lemma transpose_length {A} (m : nat) (rows : list (list A)) :
  length (transpose m rows) = m.
Proof. unfold transpose. now rewrite length_fmap, length_seq. Qed.

(** The branch of sequences: the columns are collated as tuples and
    returned in a list. *)
Lemma collate_sequences (depth : nat) (k k0 : kind) (l : list value)
    (rest : list value) :
  collate (S depth) k (VS k0 l :: rest)
  = (let? elem_size := len_ (VS k0 l) in
     let? _ := check_sizes_ elem_size rest in
     let? rws := each items_ (VS k0 l :: rest) in
     let? columns :=
       each (collate depth PyTuple)
            (zip_star tensor ndarray npscalar npobject object rws) in
     Return (VS PyList columns)).
Proof. reflexivity. Qed.

Lemma check_sizes_tensor_rows (m : nat) (rows : list (kind * list tensor)) :
  Forall (fun r => length (snd r) = m) rows ->
  check_sizes_ m (tensor_rows_ rows) = Return tt.
Proof.
  induction 1 as [|[k r] rows Hr _ IH]; [reflexivity|].
  unfold tensor_rows in *.
  cbn [fmap list_fmap check_sizes len and_then fst snd] in *.
  rewrite length_fmap, Hr, Nat.eqb_refl. exact IH.
Qed.

Lemma items_tensor_rows (rows : list (kind * list tensor)) :
  each items_ (tensor_rows_ rows)
  = Return (fmap (M:=list) VT <$> (snd <$> rows)).
Proof.
  induction rows as [|[k r] rows IH]; [reflexivity|].
  unfold tensor_rows in *. cbn [fmap list_fmap each fst snd] in *.
  rewrite IH. reflexivity.
Qed.

Lemma shortest_tensor_rows (m : nat) (rows : list (list tensor)) :
  rows <> [] ->
  Forall (fun r => length r = m) rows ->
  shortest tensor ndarray npscalar npobject object
    (fmap (M:=list) VT <$> rows) = m.
Proof.
  intros Hne H. destruct H as [|r rows Hr Hrows]; [congruence|].
  cbn. rewrite length_fmap, Hr. clear Hne.
  induction Hrows as [|l rows Hl _ IH]; [reflexivity|].
  cbn. rewrite IH, length_fmap, Hl. lia.
Qed.

(** The key step: a rectangular batch of rows of tensors is transposed,
    into a list of tuples. *)
Lemma collate_tensor_rows (depth m : nat) (k : kind)
    (rows : list (kind * list tensor)) :
  rows <> [] ->
  Forall (fun r => length (snd r) = m) rows ->
  collate (S (S depth)) k (tensor_rows_ rows)
  = Return (VS PyList (tensor_tuples_ (transpose m (snd <$> rows)))).
Proof.
  intros Hne Hrect.
  assert (Hrect' : Forall (fun r : list tensor => length r = m) (snd <$> rows))
    by now apply Forall_fmap.
  assert (Hne' : snd <$> rows <> []) by (destruct rows; [congruence|easy]).
  pose proof (shortest_tensor_rows m (snd <$> rows) Hne' Hrect') as Hshort.
  pose proof (items_tensor_rows rows) as Hitems.
  destruct rows as [|[k0 r0] rs]; [congruence|].
  pose proof (Forall_inv Hrect) as Hr0. cbn in Hr0.
  pose proof (Forall_inv_tail Hrect) as Hrs.
  change (tensor_rows_ ((k0, r0) :: rs))
    with (VS k0 (VT <$> r0) :: tensor_rows_ rs) in Hitems |- *.
  rewrite collate_sequences, Hitems.
  cbn [len and_then]. rewrite length_fmap, Hr0.
  rewrite (check_sizes_tensor_rows _ _ Hrs). cbn [and_then].
  unfold zip_star. rewrite Hshort.
  rewrite (each_return (collate (S depth) PyTuple) (VS PyTuple)).
  - cbn [and_then]. f_equal. f_equal.
    unfold transpose, tensor_tuples.
    rewrite <- !(list_fmap_compose _ _ (seq 0 m)).
    apply list_fmap_ext. intros _ j _. unfold compose.
    now rewrite omap_lookup_fmap.
  - apply Forall_fmap, Forall_forall. intros j Hj.
    apply elem_of_seq in Hj. unfold compose.
    rewrite omap_lookup_fmap.
    apply collate_tensors.
    cbn. destruct (lookup_lt_is_Some_2 r0 j) as [x Hx]; [lia|].
    rewrite Hx. discriminate.
Qed.

Lemma transpose_lookup {A} (m j : nat) (rows : list (list A)) :
  (j < m)%nat ->
  transpose m rows !! j = Some (omap (fun r : list A => r !! j) rows).
Proof.
  intros Hj. unfold transpose.
  rewrite list_lookup_fmap, lookup_seq_lt by exact Hj. reflexivity.
Qed.

Lemma transpose_column {A} (m j : nat) (rows : list (list A))
    (col : list A) :
  Forall (fun r => length r = m) rows ->
  transpose m rows !! j = Some col ->
  (j < m)%nat /\ length col = length rows /\
  forall i, col !! i = rows !! i ≫= (fun r => r !! j).
Proof.
  intros Hrect Hcol.
  assert (Hj : (j < m)%nat).
  { apply lookup_lt_Some in Hcol. now rewrite transpose_length in Hcol. }
  rewrite (transpose_lookup m j rows Hj) in Hcol. injection Hcol as <-.
  pose proof (rows_have_column m j rows Hj Hrect) as Hsome.
  split; [exact Hj|]. split.
  - now apply omap_total_length.
  - intros i. now apply (omap_total (fun r : list A => r !! j)).
Qed.

Lemma transpose_involutive {A} (m : nat) (rows : list (list A)) :
  Forall (fun r => length r = m) rows ->
  transpose (length rows) (transpose m rows) = rows.
Proof.
  intros Hrect. apply list_eq. intros i.
  destruct (decide (i < length rows)%nat) as [Hi|Hi].
  - rewrite (transpose_lookup _ i _ Hi).
    destruct (lookup_lt_is_Some_2 rows i Hi) as [r Hr]. rewrite Hr.
    f_equal. apply list_eq. intros j.
    assert (Hcols : Forall (fun c : list A => is_Some (c !! i))
                      (transpose m rows)).
    { apply Forall_forall. intros c Hc.
      apply list_elem_of_lookup in Hc. destruct Hc as [j' Hc].
      destruct (transpose_column m j' rows c Hrect Hc) as (_ & Hlen & _).
      apply lookup_lt_is_Some. lia. }
    rewrite (omap_total (fun c : list A => c !! i) _ j Hcols).
    assert (Hrm : length r = m).
    { rewrite Forall_forall in Hrect. apply Hrect.
      eapply list_elem_of_lookup_2, Hr. }
    destruct (decide (j < m)%nat) as [Hj|Hj].
    + rewrite (transpose_lookup m j rows Hj). cbn.
      rewrite (omap_total (fun r : list A => r !! j) _ i
                 (rows_have_column m j rows Hj Hrect)).
      rewrite Hr. reflexivity.
    + rewrite (lookup_ge_None_2 (transpose m rows) j)
        by (rewrite transpose_length; lia).
      cbn. symmetry. apply lookup_ge_None_2. lia.
  - rewrite (lookup_ge_None_2 rows i) by lia.
    apply lookup_ge_None_2. rewrite transpose_length. lia.
Qed.

(** X26: a batch of [n > 0] sequences of [m] tensors each is transposed:
    the result is a list of [m] columns, each the tuple of the [n] tensors
    at one position, so that entry [i] of column [j] is entry [j] of row
    [i]. *)
Theorem list_collate_transposes (depth m : nat) (k : kind)
    (rows : list (kind * list tensor)) :
  rows <> [] ->
  Forall (fun r => length (snd r) = m) rows ->
  list_collate tensor ndarray npscalar npobject object as_tensor
      torch_tensor torch_tensor_float64 opaque_getitem opaque_len
      opaque_iter
      (S (S depth)) k (tensor_rows_ rows)
  = Return (VS PyList (tensor_tuples_ (transpose m (snd <$> rows)))) /\
  length (transpose m (snd <$> rows)) = m /\
  forall j col, transpose m (snd <$> rows) !! j = Some col ->
    length col = length rows /\
    forall i, col !! i = (snd <$> rows) !! i ≫= (fun r => r !! j).
Proof.
  intros Hne Hrect. split; [now apply collate_tensor_rows|].
  split; [apply transpose_length|].
  intros j col Hcol.
  assert (Hrect' : Forall (fun r : list tensor => length r = m) (snd <$> rows))
    by now apply Forall_fmap.
  destruct (transpose_column m j _ col Hrect' Hcol) as (_ & H1 & H2).
  rewrite length_fmap in H1. now split.
Qed.

Lemma tensor_tuples_rows (cols : list (list tensor)) :
  tensor_tuples_ cols = tensor_rows_ (pair PyTuple <$> cols) /\
  snd <$> (pair PyTuple <$> cols) = cols.
Proof.
  unfold tensor_tuples, tensor_rows.
  rewrite <- !list_fmap_compose. split; [reflexivity|].
  apply list_fmap_id.
Qed.

Lemma tensor_rows_tuples (rows : list (kind * list tensor)) :
  Forall (fun r => fst r = PyTuple) rows ->
  tensor_rows_ rows = tensor_tuples_ (snd <$> rows).
Proof.
  unfold tensor_tuples, tensor_rows. rewrite <- list_fmap_compose.
  intros H. apply Forall_fmap_ext_1.
  eapply Forall_impl; [exact H|]. intros [k r] E. cbn in *. now subst.
Qed.

(** X27: collating the collated batch gives the rows back, each as a
    tuple, in a list: on a list of tuples of [m > 0] tensors each,
    [list_collate] is its own inverse, and on other sequences of that
    shape the second call returns the batch with its rows turned into
    tuples. *)
Theorem list_collate_round_trip (depth depth' m : nat) (k : kind)
    (rows : list (kind * list tensor)) :
  rows <> [] -> (0 < m)%nat ->
  Forall (fun r => length (snd r) = m) rows ->
  exists columns,
    list_collate tensor ndarray npscalar npobject object as_tensor
      torch_tensor torch_tensor_float64 opaque_getitem opaque_len
      opaque_iter
      (S (S depth)) k (tensor_rows_ rows)
    = Return (VS PyList (tensor_tuples_ columns)) /\
    list_collate tensor ndarray npscalar npobject object as_tensor
      torch_tensor torch_tensor_float64 opaque_getitem opaque_len
      opaque_iter
      (S (S depth')) PyList (tensor_tuples_ columns)
    = Return (VS PyList (tensor_tuples_ (snd <$> rows))) /\
    (k = PyList -> Forall (fun r => fst r = PyTuple) rows ->
     VS PyList (tensor_tuples_ (snd <$> rows)) = VS k (tensor_rows_ rows)).
Proof.
  intros Hne Hm Hrect.
  assert (Hrect' : Forall (fun r : list tensor => length r = m) (snd <$> rows))
    by now apply Forall_fmap.
  exists (transpose m (snd <$> rows)).
  split; [now apply collate_tensor_rows|]. split.
  - destruct (tensor_tuples_rows (transpose m (snd <$> rows))) as [E1 E2].
    rewrite E1.
    rewrite (collate_tensor_rows depth' (length (snd <$> rows)) PyList).
    + rewrite E2. now rewrite (transpose_involutive m _ Hrect').
    + intros E. apply fmap_nil_inv in E.
      pose proof (transpose_length m (snd <$> rows)) as L.
      rewrite E in L. cbn in L. lia.
    + apply Forall_fmap, Forall_forall. intros c Hc. cbn.
      apply list_elem_of_lookup in Hc. destruct Hc as [j Hc].
      now destruct (transpose_column m j _ c Hrect' Hc) as (_ & Hlen & _).
  - intros -> Htup. now rewrite (tensor_rows_tuples rows Htup).
Qed.

(** X28: the type of a batch is that of its first element that is not
    [None], but the branches of mappings and of sequences read the
    elements before it: after a leading [None], a batch of tensors comes
    back as it is, and a batch whose first other element is a mapping
    with a key, or a sequence, ends in a [TypeError]. *)
Theorem list_collate_leading_none (depth : nat) (k : kind)
    (rest : list value) :
  (forall t, first_not_none tensor ndarray npscalar npobject object rest
             = VT t ->
     list_collate tensor ndarray npscalar npobject object as_tensor
      torch_tensor torch_tensor_float64 opaque_getitem opaque_len
      opaque_iter
      (S depth) k (VNone _ _ _ _ _ :: rest)
     = Return (VS k (VNone _ _ _ _ _ :: rest))) /\
  (forall kv m, first_not_none tensor ndarray npscalar npobject object rest
                = VMap _ _ _ _ _ (kv :: m) ->
     list_collate tensor ndarray npscalar npobject object as_tensor
      torch_tensor torch_tensor_float64 opaque_getitem opaque_len
      opaque_iter
      (S depth) k (VNone _ _ _ _ _ :: rest) = Throw TypeError) /\
  (forall k' l, first_not_none tensor ndarray npscalar npobject object rest
             = VS k' l ->
     list_collate tensor ndarray npscalar npobject object as_tensor
      torch_tensor torch_tensor_float64 opaque_getitem opaque_len
      opaque_iter
      (S depth) k (VNone _ _ _ _ _ :: rest) = Throw TypeError).
Proof.
  repeat split.
  - intros t H. cbn. now rewrite H.
  - intros kv m H. cbn. now rewrite H.
  - intros k' l H. cbn. now rewrite H.
Qed.

Local Abbreviation tensor_maps_ :=
  (tensor_maps tensor ndarray npscalar npobject object).
Local Abbreviation tensor_entries_ :=
  (tensor_entries tensor ndarray npscalar npobject object).

Lemma assoc_tensor_entries (key : String.string)
    (m : list (String.string * tensor)) :
  assoc key (tensor_entries_ m) = VT <$> assoc key m.
Proof.
  unfold assoc, tensor_entries.
  induction m as [|[k t] m IH]; [reflexivity|].
  cbn. destruct (String.eqb k key); [reflexivity|exact IH].
Qed.

Lemma column_present (key : String.string)
    (maps : list (list (String.string * tensor))) :
  Forall (fun m => is_Some (assoc key m)) maps ->
  each (fun d => subscript_ d key) (tensor_maps_ maps)
  = Return (VT <$> omap (assoc key) maps).
Proof.
  induction 1 as [|m maps [t Ht] _ IH]; [reflexivity|].
  unfold tensor_maps in *. cbn [fmap list_fmap each subscript omap].
  rewrite assoc_tensor_entries, Ht. cbn.
  cbn in IH. rewrite IH. cbn. rewrite Ht. reflexivity.
Qed.

Lemma column_missing (key : String.string)
    (maps : list (list (String.string * tensor))) :
  Exists (fun m => assoc key m = None) maps ->
  each (fun d => subscript_ d key) (tensor_maps_ maps) = Throw KeyError.
Proof.
  induction maps as [|m maps IH]; intros H; [inversion H|].
  unfold tensor_maps in *. cbn [fmap list_fmap each subscript].
  rewrite assoc_tensor_entries.
  destruct (assoc key m) as [t|] eqn:E; cbn; [|reflexivity].
  inversion H as [? ? Hm|? ? Hrest]; subst; [congruence|].
  cbn in IH. now rewrite (IH Hrest).
Qed.

(** The branch of mappings: the column of a key is a list. *)
Lemma collate_mappings (depth : nat) (k : kind)
    (m : list (String.string * value)) (rest : list value) :
  collate (S depth) k (VMap _ _ _ _ _ m :: rest)
  = (let? collated :=
       each (fun kv =>
               let? column :=
                 each (fun d => subscript_ d (fst kv))
                      (VMap _ _ _ _ _ m :: rest) in
               let? v := collate depth PyList column in
               Return (fst kv, v)) m in
     Return (VMap _ _ _ _ _ collated)).
Proof. reflexivity. Qed.

Lemma omap_present_nonempty {A B} (f : A -> option B) (l : list A) :
  l <> [] -> Forall (fun a => is_Some (f a)) l -> omap f l <> [].
Proof.
  intros Hne H. destruct H as [|a l [b Hb] _]; [congruence|].
  cbn. rewrite Hb. discriminate.
Qed.

(** What the branch of mappings does with one key. *)
Lemma collate_key (depth : nat) (key : String.string)
    (maps : list (list (String.string * tensor))) :
  maps <> [] ->
  (Forall (fun m => is_Some (assoc key m)) maps ->
   (let? column := each (fun d => subscript_ d key) (tensor_maps_ maps) in
    let? v := collate (S depth) PyList column in
    Return (key, v))
   = Return (key, VS PyList (VT <$> omap (assoc key) maps))) /\
  (Exists (fun m => assoc key m = None) maps ->
   (let? column := each (fun d => subscript_ d key) (tensor_maps_ maps) in
    let? v := collate (S depth) PyList column in
    Return (key, v))
   = Throw KeyError).
Proof.
  intros Hne. split; intros H.
  - rewrite (column_present key maps H). cbn [and_then].
    rewrite collate_tensors by (now apply omap_present_nonempty).
    reflexivity.
  - now rewrite (column_missing key maps H).
Qed.

Lemma present_or_missing {V} (key : String.string)
    (maps : list (list (String.string * V))) :
  Forall (fun m => is_Some (assoc key m)) maps
  \/ Exists (fun m => assoc key m = None) maps.
Proof.
  induction maps as [|m maps [IH|IH]].
  - left. constructor.
  - destruct (assoc key m) as [v|] eqn:E.
    + left. constructor; [rewrite E; eauto|exact IH].
    + right. now constructor.
  - right. now constructor 2.
Qed.

(** X29: a batch of mappings of tensors is collated key by key, with the
    keys of the first mapping in their order: each key maps to the list
    of the batch's tensors at that key when every mapping has every such
    key, and a key of the first mapping that another one lacks ends in a
    [KeyError].  The keys only the later mappings have are dropped. *)
Theorem list_collate_mappings (depth : nat) (k : kind)
    (m0 : list (String.string * tensor))
    (rest : list (list (String.string * tensor))) :
  let maps := m0 :: rest in
  let collated :=
    (fun kv => (fst kv, VS PyList (VT <$> omap (assoc (fst kv)) maps)))
      <$> tensor_entries_ m0 in
  (Forall (fun kv => Forall (fun m => is_Some (assoc (fst kv) m)) maps) m0 ->
   list_collate tensor ndarray npscalar npobject object as_tensor
      torch_tensor torch_tensor_float64 opaque_getitem opaque_len
      opaque_iter
      (S (S depth)) k (tensor_maps_ maps)
   = Return (VMap _ _ _ _ _ collated) /\
   fst <$> collated = fst <$> m0) /\
  (Exists (fun kv => Exists (fun m => assoc (fst kv) m = None) maps) m0 ->
   list_collate tensor ndarray npscalar npobject object as_tensor
      torch_tensor torch_tensor_float64 opaque_getitem opaque_len
      opaque_iter
      (S (S depth)) k (tensor_maps_ maps) = Throw KeyError).
Proof.
  cbn zeta.
  change (tensor_maps_ (m0 :: rest))
    with (VMap _ _ _ _ _ (tensor_entries_ m0) :: tensor_maps_ rest).
  rewrite collate_mappings.
  change (VMap _ _ _ _ _ (tensor_entries_ m0) :: tensor_maps_ rest)
    with (tensor_maps_ (m0 :: rest)).
  assert (Hne : m0 :: rest <> []) by discriminate.
  split.
  - intros H. split.
    + rewrite (each_return _
                 (fun kv => (fst kv,
                    VS PyList (VT <$> omap (assoc (fst kv)) (m0 :: rest))))).
      * reflexivity.
      * unfold tensor_entries. apply Forall_fmap.
        eapply Forall_impl; [exact H|]. intros kv Hkv. cbn [compose fst].
        now apply (proj1 (collate_key depth (fst kv) (m0 :: rest) Hne)).
    + unfold tensor_entries. rewrite <- !list_fmap_compose.
      apply list_fmap_ext. intros _ kv _. reflexivity.
  - intros H.
    rewrite (each_throw _ KeyError); [reflexivity| |].
    + unfold tensor_entries. apply Forall_fmap, Forall_forall.
      intros kv _. cbn [compose fst].
      destruct (present_or_missing (fst kv) (m0 :: rest)) as [F|E].
      * left. eexists.
        exact (proj1 (collate_key depth (fst kv) (m0 :: rest) Hne) F).
      * right.
        exact (proj2 (collate_key depth (fst kv) (m0 :: rest) Hne) E).
    + unfold tensor_entries. apply Exists_fmap.
      eapply Exists_impl; [exact H|]. intros kv Hkv. cbn [compose fst].
      now apply (proj2 (collate_key depth (fst kv) (m0 :: rest) Hne)).
Qed.

Local Abbreviation optional_array_ :=
  (optional_array tensor ndarray npscalar npobject object).
Local Abbreviation optional_tensor_ :=
  (optional_tensor tensor ndarray npscalar npobject object).
Local Abbreviation first_not_none_ :=
  (first_not_none tensor ndarray npscalar npobject object).

Lemma first_array (batch : list (option ndarray)) :
  Exists is_Some batch ->
  exists a, first_not_none_ (optional_array_ <$> batch)
            = VNdarray _ _ _ _ _ a.
Proof.
  induction 1 as [[a|] batch [a' Ha]|[a|] batch _ IH]; cbn; eauto;
    discriminate.
Qed.

Lemma first_converted (conv : ndarray -> tensor)
    (batch : list (option ndarray)) :
  Exists is_Some batch ->
  exists t, first_not_none_ (optional_tensor_ conv <$> batch) = VT t.
Proof.
  induction 1 as [[a|] batch [a' Ha]|[a|] batch _ IH]; cbn; eauto;
    discriminate.
Qed.

(** X30: a batch of arrays and [None]s with at least one array, each
    array accepted by [torch.as_tensor], comes back as the list of the
    converted tensors, the [None]s in their places. *)
Theorem list_collate_arrays (depth : nat) (k : kind)
    (conv : ndarray -> tensor) (batch : list (option ndarray)) :
  Exists is_Some batch ->
  Forall (fun o => forall a, o = Some a ->
            as_tensor (VNdarray _ _ _ _ _ a) = Return (conv a)) batch ->
  list_collate tensor ndarray npscalar npobject object as_tensor
      torch_tensor torch_tensor_float64 opaque_getitem opaque_len
      opaque_iter
      (S (S depth)) k (optional_array_ <$> batch)
  = Return (VS PyList (optional_tensor_ conv <$> batch)).
Proof.
  intros Hex Hconv.
  destruct (first_array batch Hex) as [a Ha].
  destruct (first_converted conv batch Hex) as [t Ht].
  assert (Hstep : forall l a0,
            first_not_none_ l = VNdarray _ _ _ _ _ a0 ->
            collate (S (S depth)) k l
            = (let? converted :=
                 each (fun b => match b with
                                | VNone _ _ _ _ _ => Return (VNone _ _ _ _ _)
                                | _ => let? t := as_tensor b in Return (VT t)
                                end) l in
               collate (S depth) PyList converted)).
  { intros l a0 E. cbn [list_collate]. now rewrite E. }
  rewrite (Hstep _ _ Ha).
  rewrite (each_return _
             (fun b => match b with
                       | VNdarray _ _ _ _ _ a => VT (conv a)
                       | _ => VNone _ _ _ _ _
                       end)).
  - cbn [and_then]. rewrite <- list_fmap_compose.
    assert (E : (fun b : value => match b with
                       | VNdarray _ _ _ _ _ a => VT (conv a)
                       | _ => VNone _ _ _ _ _
                       end) ∘ optional_array_ <$> batch
                = optional_tensor_ conv <$> batch).
    { apply list_fmap_ext. intros _ [a0|] _; reflexivity. }
    rewrite E. cbn [list_collate]. now rewrite Ht.
  - apply Forall_fmap. eapply Forall_impl; [exact Hconv|].
    intros [a0|] H; cbn; [|reflexivity].
    now rewrite (H a0 eq_refl).
Qed.

End ListCollateProperties.

Local Open Scope Z_scope.

Lemma list_collate_ragged_witness :
  Collate.demo_collate 1 Collate.PyList
    (Collate.sequences Z Z unit unit unit
       [(Collate.PyList, [Collate.VTensor _ _ _ _ _ 1;
                          Collate.VTensor _ _ _ _ _ 2]);
        (Collate.PyTuple, [Collate.VTensor _ _ _ _ _ 3])])
  = Collate.Throw (Collate.Builtin RuntimeError).
Proof.
  apply (list_collate_ragged Z Z unit unit unit Collate.demo_as_tensor
           Collate.demo_refuse Collate.demo_refuse
           (fun _ _ => Collate.Throw Collate.TypeError)
           Collate.demo_refuse Collate.demo_refuse 0 Collate.PyList
           (Collate.PyList, [Collate.VTensor _ _ _ _ _ 1;
                             Collate.VTensor _ _ _ _ _ 2])
           [(Collate.PyTuple, [Collate.VTensor _ _ _ _ _ 3])]).
  apply Exists_cons_hd. cbn. lia.
Defined.

Lemma list_collate_transposes_witness :
  Collate.demo_collate 2 Collate.PyList
    (Collate.tensor_rows Z Z unit unit unit
       [(Collate.PyList, [1; 2; 3]); (Collate.PyTuple, [4; 5; 6])])
  = Collate.Return
      (Collate.VSeq _ _ _ _ _ Collate.PyList
         (Collate.tensor_tuples Z Z unit unit unit
            (Collate.transpose 3 [[1; 2; 3]; [4; 5; 6]]))) /\
  length (Collate.transpose 3 [[1; 2; 3]; [4; 5; 6]]) = 3%nat /\
  forall j col,
    Collate.transpose 3 [[1; 2; 3]; [4; 5; 6]] !! j = Some col ->
    length col = 2%nat /\
    forall i, col !! i = [[1; 2; 3]; [4; 5; 6]] !! i ≫= (fun r => r !! j).
Proof.
  apply (list_collate_transposes Z Z unit unit unit Collate.demo_as_tensor
           Collate.demo_refuse Collate.demo_refuse
           (fun _ _ => Collate.Throw Collate.TypeError)
           Collate.demo_refuse Collate.demo_refuse 0 3 Collate.PyList
           [(Collate.PyList, [1; 2; 3]); (Collate.PyTuple, [4; 5; 6])]).
  - discriminate.
  - repeat constructor.
Defined.

Lemma list_collate_round_trip_witness :
  exists columns,
    Collate.demo_collate 2 Collate.PyList
      (Collate.tensor_rows Z Z unit unit unit
         [(Collate.PyTuple, [1; 2; 3]); (Collate.PyTuple, [4; 5; 6])])
    = Collate.Return
        (Collate.VSeq _ _ _ _ _ Collate.PyList
           (Collate.tensor_tuples Z Z unit unit unit columns)) /\
    Collate.demo_collate 2 Collate.PyList
      (Collate.tensor_tuples Z Z unit unit unit columns)
    = Collate.Return
        (Collate.VSeq _ _ _ _ _ Collate.PyList
           (Collate.tensor_tuples Z Z unit unit unit
              [[1; 2; 3]; [4; 5; 6]])) /\
    (Collate.PyList = Collate.PyList ->
     Forall (fun r : Collate.kind * list Z => fst r = Collate.PyTuple)
       [(Collate.PyTuple, [1; 2; 3]); (Collate.PyTuple, [4; 5; 6])] ->
     Collate.VSeq _ _ _ _ _ Collate.PyList
       (Collate.tensor_tuples Z Z unit unit unit [[1; 2; 3]; [4; 5; 6]])
     = Collate.VSeq _ _ _ _ _ Collate.PyList
         (Collate.tensor_rows Z Z unit unit unit
            [(Collate.PyTuple, [1; 2; 3]); (Collate.PyTuple, [4; 5; 6])])).
Proof.
  apply (list_collate_round_trip Z Z unit unit unit Collate.demo_as_tensor
           Collate.demo_refuse Collate.demo_refuse
           (fun _ _ => Collate.Throw Collate.TypeError)
           Collate.demo_refuse Collate.demo_refuse 0 0 3 Collate.PyList
           [(Collate.PyTuple, [1; 2; 3]); (Collate.PyTuple, [4; 5; 6])]).
  - discriminate.
  - lia.
  - repeat constructor.
Defined.

Lemma list_collate_arrays_witness :
  Collate.demo_collate 2 Collate.PyTuple
    (Collate.optional_array Z Z unit unit unit <$> [None; Some 4; Some 5])
  = Collate.Return
      (Collate.VSeq _ _ _ _ _ Collate.PyList
         (Collate.optional_tensor Z Z unit unit unit (fun a => a)
            <$> [None; Some 4; Some 5])).
Proof.
  apply (list_collate_arrays Z Z unit unit unit Collate.demo_as_tensor
           Collate.demo_refuse Collate.demo_refuse
           (fun _ _ => Collate.Throw Collate.TypeError)
           Collate.demo_refuse Collate.demo_refuse 0 Collate.PyTuple
           (fun a => a) [None; Some 4; Some 5]).
  - apply Exists_cons_tl, Exists_cons_hd. exists 4. reflexivity.
  - repeat constructor; intros a E; inversion E; reflexivity.
Defined.
